(** * ss-key-value-store: the trust subsystem

    A shallow embedding of the Python sources

      - [src/foundation/PathResolver.py]
      - [src/foundation/ProtectedStore.py]
      - [src/primitives/AccessLevel.py], [Credentials.py], [AccessContext.py]
      - [src/services/CredentialManager.py]
      - [src/services/KVStore.py]

    followed by the properties of the specification that concern them.

    Conventions of the embedding.

    - A Python [dict] is an association list in insertion order
      (module [Dict]): [CredentialManager.getCredential] and [getKey] iterate
      over [values()], so the order is observable.
    - An exception is a value of type [exn]; a method that can raise returns
      an [outcome].  Methods that mutate objects are functions in the monad
      [M S], a state monad whose state survives a raised exception, as the
      heap of the interpreter does.
    - The interpreter's call stack is explicit: every method receives the
      frames of its caller, innermost first, and pushes its own frame when it
      calls another method.  A frame carries what the sources read from it:
      [filename] ([traceback.extract_stack]) and the local [self]
      ([inspect.currentframe().f_back.f_locals.get('self')]).
    - What the sources obtain from the operating system is a field of
      [Runtime]: the canonicalisation of a file name, the successive readings
      of [time.time()], the successive results of
      [secrets.token_urlsafe(16)] and the [__file__] of the four modules.
    - A [float] time stamp is an integer ([timestamp]); the sources only copy
      time stamps and test them for truth ([x or y]), which for a number is
      [x != 0].
    - Strings are sequences of 8-bit characters; [str.lower] acts on the
      letters [A]-[Z]. *)

From Stdlib Require Import String Ascii List ZArith Bool Arith Lia.
Import ListNotations.
Open Scope string_scope.
Open Scope list_scope.

Set Implicit Arguments.

(** ** Strings and paths *)

Definition lower_ascii (c : ascii) : ascii :=
  let n := nat_of_ascii c in
  if (65 <=? n)%nat && (n <=? 90)%nat then ascii_of_nat (n + 32) else c.

(** [str.lower()] *)
Fixpoint lower (s : string) : string :=
  match s with
  | EmptyString => EmptyString
  | String c s' => String (lower_ascii c) (lower s')
  end.

(** [sub in s] for two strings: [sub] occurs in [s] as a substring. *)
Fixpoint str_in (sub s : string) : bool :=
  String.prefix sub s ||
  match s with
  | EmptyString => false
  | String _ s' => str_in sub s'
  end.

(** The truth value of a string: [not s] holds for the empty string only. *)
Definition str_truthy (s : string) : bool :=
  match s with EmptyString => false | _ => true end.

(** A [pathlib.Path], as its tuple of [parts]. *)
Definition Path := list string.

(** [p.relative_to(base)]: the parts of [p] after [base], or [None] where
    Python raises [ValueError] because [base] is not a prefix of [p]. *)
Fixpoint relative_to (p base : Path) {struct base} : option Path :=
  match base with
  | [] => Some p
  | b :: base' =>
      match p with
      | [] => None
      | a :: p' => if String.eqb a b then relative_to p' base' else None
      end
  end.

(** A canonicalisation for examples: an absolute POSIX file name without
    symbolic links, [.] or [..]; its parts are the root and the segments
    between slashes. *)
Fixpoint split_slash (acc : string) (s : string) : list string :=
  match s with
  | EmptyString => if str_truthy acc then [acc] else []
  | String c s' =>
      if Ascii.eqb c "/"%char
      then (if str_truthy acc then [acc] else []) ++ split_slash EmptyString s'
      else split_slash (acc ++ String c EmptyString)%string s'
  end.

Definition posix_parts (s : string) : Path := "/" :: split_slash EmptyString s.

(** ** The Python runtime *)

Definition timestamp := Z.

Inductive exn : Type :=
| ValueError (msg : string)
| PermissionError (msg : string)
| RuntimeError (msg : string)
| KeyError (key : string)
| OtherException (msg : string).

Definition is_ValueError (e : exn) : bool :=
  match e with ValueError _ => true | _ => false end.

Inductive outcome (A : Type) : Type :=
| Return (a : A)
| Raise (e : exn).
Arguments Return {A} a.
Arguments Raise {A} e.

(** An object, as far as the sources look at one: its identity ([is]) and the
    name of its class ([isinstance], [__class__.__name__]). *)
Record pyobj : Type := PyObj { obj_id : nat; obj_class : string }.

Definition is_ (a b : pyobj) : bool := Nat.eqb (obj_id a) (obj_id b).

Record frame : Type := Frame { filename : string; f_self : option pyobj }.

Record Runtime : Type := {
  resolve : string -> Path;
  time_time : nat -> timestamp;
  token_urlsafe : nat -> string;
  CredentialManager_py : string;
  KVStore_py : string;
  ProtectedStore_py : string;
  PathResolver_py : string
}.

(** The part of the interpreter state the embedding threads through every
    call: how often the clock and the random source were read, and the next
    free object identity. *)
Record World : Type := {
  time_calls : nat;
  token_calls : nat;
  next_id : nat
}.

Definition World0 : World := {| time_calls := 0; token_calls := 0; next_id := 0 |}.

(** *** The monad of mutating methods *)

Definition M (S A : Type) : Type := S -> outcome A * S.

Definition ret {S A} (a : A) : M S A := fun s => (Return a, s).

Definition raise {S A} (e : exn) : M S A := fun s => (Raise e, s).

Definition bind {S A B} (m : M S A) (k : A -> M S B) : M S B :=
  fun s =>
    match m s with
    | (Return a, s') => k a s'
    | (Raise e, s') => (Raise e, s')
    end.

(** [try: m  except <catches>: h] *)
Definition try_except {S A} (m : M S A) (catches : exn -> bool) (h : exn -> M S A) : M S A :=
  fun s =>
    match m s with
    | (Return a, s') => (Return a, s')
    | (Raise e, s') => if catches e then h e s' else (Raise e, s')
    end.

Definition gets {S A} (f : S -> A) : M S A := fun s => (Return (f s), s).

Definition modify {S} (f : S -> S) : M S unit := fun s => (Return tt, f s).

(** Lift the outcome of a method that does not change the state. *)
Definition lift {S A} (o : outcome A) : M S A := fun s => (o, s).

Declare Scope py_scope.
Delimit Scope py_scope with py.
Notation "x <- m ;; k" := (bind m (fun x => k))
  (at level 61, m at next level, right associativity) : py_scope.
Notation "m ;;; k" := (bind m (fun _ => k))
  (at level 61, right associativity) : py_scope.

(** ** [dict] *)

Module Dict.

Definition t (V : Type) : Type := list (string * V).

Definition empty {V} : t V := [].

(** [k in d] *)
Fixpoint contains {V} (k : string) (d : t V) : bool :=
  match d with
  | [] => false
  | (k', _) :: d' => String.eqb k k' || contains k d'
  end.

(** [d.get(k)], with [None] for an absent key *)
Fixpoint lookup {V} (k : string) (d : t V) : option V :=
  match d with
  | [] => None
  | (k', v) :: d' => if String.eqb k k' then Some v else lookup k d'
  end.

(** [d[k] = v]: an existing key keeps its place, a new one goes last. *)
Fixpoint set {V} (k : string) (v : V) (d : t V) : t V :=
  match d with
  | [] => [(k, v)]
  | (k', v') :: d' =>
      if String.eqb k k' then (k', v) :: d' else (k', v') :: set k v d'
  end.

(** [del d[k]] on a key that is present *)
Fixpoint remove {V} (k : string) (d : t V) : t V :=
  match d with
  | [] => []
  | (k', v') :: d' =>
      if String.eqb k k' then d' else (k', v') :: remove k d'
  end.

Definition keys {V} (d : t V) : list string := map fst d.

Definition values {V} (d : t V) : list V := map snd d.

Definition len {V} (d : t V) : nat := length d.

End Dict.

(** ** Primitives *)

(** [src/primitives/AccessLevel.py] *)
Module AccessLevel.
Inductive t : Type := ADMIN | READ_WRITE | WRITE_ONLY | READ_ONLY.

Definition eqb (a b : t) : bool :=
  match a, b with
  | ADMIN, ADMIN | READ_WRITE, READ_WRITE
  | WRITE_ONLY, WRITE_ONLY | READ_ONLY, READ_ONLY => true
  | _, _ => false
  end.
End AccessLevel.

(** Modelled from the spec: the enumeration [AccessOperation]
    ([src/primitives/AccessOperation.py] is not among the sources).  The
    specification and every use in the sources and tests know the two
    members [READ] and [WRITE]. *)
Module AccessOperation.
Inductive t : Type := READ | WRITE.

Definition eqb (a b : t) : bool :=
  match a, b with
  | READ, READ | WRITE, WRITE => true
  | _, _ => false
  end.

(** [str(operation)], as an f-string formats a member of an [Enum] *)
Definition to_string (o : t) : string :=
  match o with
  | READ => "AccessOperation.READ"
  | WRITE => "AccessOperation.WRITE"
  end.
End AccessOperation.

(** Modelled from the spec: the record [PathInfo]
    ([src/primitives/PathInfo.py] is not among the sources), with the three
    fields [PathResolver.getPathInfo] fills in and [CredentialManager]
    reads: the caller identity of the specification, [zone] being [type]. *)
Module PathInfo.
Record t : Type := { name : string; path : Path; type : string }.
End PathInfo.

(** Reading the clock: [time.time()] *)
Definition call_time_time (rt : Runtime) : M World timestamp :=
  fun w =>
    (Return (time_time rt (time_calls w)),
     {| time_calls := S (time_calls w);
        token_calls := token_calls w;
        next_id := next_id w |}).

(** [secrets.token_urlsafe(16)] *)
Definition call_token_urlsafe (rt : Runtime) : M World string :=
  fun w =>
    (Return (token_urlsafe rt (token_calls w)),
     {| time_calls := time_calls w;
        token_calls := S (token_calls w);
        next_id := next_id w |}).

(** The creation of an object of class [cls]: a fresh identity. *)
Definition new_object (cls : string) : M World pyobj :=
  fun w =>
    (Return (PyObj (next_id w) cls),
     {| time_calls := time_calls w;
        token_calls := token_calls w;
        next_id := S (next_id w) |}).

(** [x or y] where [x] is an optional number and [y] has an effect: [y] is
    evaluated only when [x] is [None] or zero. *)
Definition or_else {S} (x : option Z) (y : M S Z) : M S Z :=
  match x with
  | Some n => if (n =? 0)%Z then y else ret n
  | None => y
  end.

(** [src/primitives/Credentials.py] *)
Module Credentials.
Record t : Type := {
  name : string;
  key : string;
  access_level : AccessLevel.t;
  path : Path;
  type : string;
  enabled : bool;
  created_at : timestamp;
  last_access : timestamp;
  access_count : Z
}.

Section WithRuntime.
Variable rt : Runtime.

(** [Credentials(name=, key=, access_level=, path=, type=)]: the three
    remaining fields take their defaults, [created_at] and [last_access]
    each from a call of [time.time]. *)
Definition new (name key : string) (access_level : AccessLevel.t)
    (path : Path) (type : string) : M World t :=
  (created <- call_time_time rt ;;
   accessed <- call_time_time rt ;;
   ret {| name := name; key := key; access_level := access_level;
          path := path; type := type; enabled := false;
          created_at := created; last_access := accessed;
          access_count := 0 |})%py.

Definition with_updated_access (self : t)
    (last_access : option timestamp) (access_count : option Z) : M World t :=
  (accessed <- or_else last_access (call_time_time rt) ;;
   count <- or_else access_count (ret (self.(Credentials.access_count) + 1)%Z) ;;
   ret {| name := self.(name); key := self.(key);
          access_level := self.(Credentials.access_level);
          path := self.(path); type := self.(type); enabled := true;
          created_at := self.(created_at);
          last_access := accessed;
          access_count := count |})%py.
End WithRuntime.
End Credentials.

(** [src/primitives/AccessContext.py] *)
Module AccessContext.
(** The values a field of the record holds in the sources: [None], a
    string, a number, or a function object named by its qualified name. *)
Inductive pyvalue : Type :=
| PyNone
| PyStr (s : string)
| PyFloat (x : timestamp)
| PyFunction (qualname : string).

Record t : Type := {
  name : string;
  key : string;
  operation : string;
  caller : string;
  value : pyvalue;
  timestamp_ : pyvalue
}.

(** The default factory of the field [timestamp]: [lambda: time.time].
    Its body is the function, not a call of it. *)
Definition timestamp_default_factory (_ : unit) : pyvalue :=
  PyFunction "time.time".

(** The generated [__init__]; an argument left out is [None] here and
    takes the field's default. *)
Definition new (name key operation caller : string)
    (value timestamp : option pyvalue) : M World t :=
  ret {| name := name; key := key; operation := operation; caller := caller;
         value := match value with Some v => v | None => PyNone end;
         timestamp_ := match timestamp with
                       | Some ts => ts
                       | None => timestamp_default_factory tt
                       end |}.
End AccessContext.

(** Run a method of a component inside the state that holds it. *)
Definition zoom {S T A} (get : S -> T) (put : T -> S -> S) (m : M T A) : M S A :=
  fun s => let (o, t') := m (get s) in (o, put t' s).

(** ** [src/foundation/PathResolver.py] *)

Module PathResolver.

Record t : Type := { self : pyobj; base_paths : list Path; type : string }.

(** An entry of [matched_paths] *)
Record matched : Type := {
  base_path : Path;
  relative_path : Path;
  parts : Path;
  base_type : string;
  depth : nat
}.

(** The argument of the constructor: a string or a list of strings. *)
Inductive roots : Type :=
| Str (s : string)
| StrList (l : list string).

(** [parts[-1].lower() if 0 < len(parts) else "unknown"] *)
Definition type_of_parts (parts : Path) : string :=
  if (0 <? length parts)%nat then lower (last parts "") else "unknown".

Fixpoint insert_by_depth (x : matched) (l : list matched) : list matched :=
  match l with
  | [] => [x]
  | y :: l' =>
      if (depth y <=? depth x)%nat then x :: y :: l'
      else y :: insert_by_depth x l'
  end.

(** [l.sort(key=lambda x: x['depth'], reverse=True)]: greatest depth
    first, entries of equal depth in their original order. *)
Definition sort_by_depth_reverse (l : list matched) : list matched :=
  fold_right insert_by_depth [] l.

Section WithRuntime.
Variable rt : Runtime.

(** [__init__]; the directories the constructor creates on the file
    system are outside the embedding. *)
Definition __init__ (base_paths : roots) : M World t :=
  (self <- new_object "PathResolver" ;;
   let base_paths :=
     match base_paths with Str s => [s] | StrList l => l end in
   if match base_paths with [] => true | _ => false end
      || existsb (fun path => negb (str_truthy path)) base_paths
   then raise (ValueError "Base paths cannot be empty.")
   else
     let base_paths := map (resolve rt) base_paths in
     let primary_base := hd [] base_paths in
     ret {| self := self;
            base_paths := base_paths;
            type := type_of_parts primary_base |})%py.

(** The body of [for base_path in self.base_paths], for one base path:
    the entry appended to [matched_paths], if any. *)
Definition try_base_path (stack_path base_path : Path) : option matched :=
  match relative_to stack_path base_path with
  | Some relative_path =>
      let parts := relative_path in
      if (0 <? length parts)%nat
      then Some {| base_path := base_path;
                   relative_path := relative_path;
                   parts := parts;
                   base_type := type_of_parts base_path;
                   depth := length base_path |}
      else None
  | None => None
  end.

Fixpoint collect_matched (stack_path : Path) (base_paths : list Path) : list matched :=
  match base_paths with
  | [] => []
  | base_path :: rest =>
      match try_base_path stack_path base_path with
      | Some m => m :: collect_matched stack_path rest
      | None => collect_matched stack_path rest
      end
  end.

(** [for stack in reversed(stacks[:-1])] and the [raise] after it *)
Fixpoint scan_stack (self : t) (frames : list frame) : outcome PathInfo.t :=
  match frames with
  | [] => Raise (ValueError "Caller name could not be determined.")
  | stack :: rest =>
      let stack_path := resolve rt (filename stack) in
      let matched_paths := collect_matched stack_path (base_paths self) in
      match sort_by_depth_reverse matched_paths with
      | best_match :: _ =>
          Return {| PathInfo.name := hd "" (parts best_match);
                    PathInfo.path := stack_path;
                    PathInfo.type := base_type best_match |}
      | [] => scan_stack self rest
      end
  end.

(** [traceback.extract_stack()] inside a method whose caller has the
    frames [st]: oldest frame first, the method's own frame last. *)
Definition extract_stack (own : frame) (st : list frame) : list frame :=
  rev (own :: st).

Definition getPathInfo (self : t) (st : list frame) : outcome PathInfo.t :=
  let stacks :=
    extract_stack (Frame (PathResolver_py rt) (Some self.(PathResolver.self))) st in
  match stacks with
  | [] => Raise (ValueError "No stack frames found.")
  | _ => scan_stack self (rev (removelast stacks))
  end.
End WithRuntime.
End PathResolver.

(** ** [src/foundation/ProtectedStore.py] *)

Module ProtectedStore.

(** The four kinds of [allowed_accessor] that [_is_access_allowed] tells
    apart: an instance, a class, a class name, a predicate (which may
    raise). *)
Inductive accessor : Type :=
| Instance (o : pyobj)
| Class (cls : string)
| ClassName (s : string)
| Predicate (f : pyobj -> outcome bool).

Record t (V : Type) : Type := {
  self : pyobj;
  _store : Dict.t V;
  _allowed_accessor : accessor
}.
Arguments self {V} _.
Arguments _store {V} _.
Arguments _allowed_accessor {V} _.

Definition with_store {V} (s : t V) (d : Dict.t V) : t V :=
  {| self := self s; _store := d; _allowed_accessor := _allowed_accessor s |}.

Section WithRuntime.
Variable rt : Runtime.
Variable V : Type.

Definition __init__ (allowed_accessor : option accessor) : M World (t V) :=
  (self <- new_object "ProtectedStore" ;;
   match allowed_accessor with
   | None => raise (ValueError "An allowed accessor must be provided.")
   | Some a => ret {| self := self; _store := Dict.empty; _allowed_accessor := a |}
   end)%py.

(** [isinstance] is the equality of class names: the sources define no
    subclass of the classes used as accessors. *)
Definition _is_access_allowed (s : t V) (caller_self : option pyobj) : bool :=
  match caller_self with
  | None => false
  | Some caller_self =>
      match _allowed_accessor s with
      | Instance a => is_ caller_self a
      | Class cls => String.eqb (obj_class caller_self) cls
      | ClassName n => String.eqb (obj_class caller_self) n
      | Predicate f =>
          match f caller_self with
          | Return b => b
          | Raise _ => false
          end
      end
  end.

Definition expected_type (s : t V) : string :=
  match _allowed_accessor s with
  | Class cls => cls
  | ClassName n => n
  | Instance a => obj_class a
  | Predicate _ => "function"
  end.

(** [back] is the chain [current_frame.f_back], [.f_back.f_back], ...:
    the frame of the store method that runs the check, then its
    callers. *)
Definition _check_access_allowed (s : t V) (back : list frame) : outcome unit :=
  match back with
  | [] => Raise (RuntimeError "No caller frame found.")
  | _ =>
      let max_frames := 3%nat in
      let frames_to_check := firstn max_frames back in
      if existsb (fun frame_to_check => _is_access_allowed s (f_self frame_to_check))
                 frames_to_check
      then Return tt
      else Raise (PermissionError
             ("Access only allowed from authorized accessor. Expected: "
              ++ expected_type s)%string)
  end.

Definition own (s : t V) : frame := Frame (ProtectedStore_py rt) (Some (self s)).

Definition checked {A} (st : list frame) (body : t V -> outcome A * t V) : M (t V) A :=
  fun s =>
    match _check_access_allowed s (own s :: st) with
    | Return _ => body s
    | Raise e => (Raise e, s)
    end.

Definition set (st : list frame) (key : string) (value : V) : M (t V) unit :=
  checked st (fun s => (Return tt, with_store s (Dict.set key value (_store s)))).

Definition __setitem__ (st : list frame) (key : string) (value : V) : M (t V) unit :=
  fun s => set (own s :: st) key value s.

Definition __getitem__ (st : list frame) (key : string) : M (t V) V :=
  checked st (fun s =>
    match Dict.lookup key (_store s) with
    | Some v => (Return v, s)
    | None => (Raise (KeyError key), s)
    end).

Definition __delitem__ (st : list frame) (key : string) : M (t V) unit :=
  checked st (fun s =>
    if Dict.contains key (_store s)
    then (Return tt, with_store s (Dict.remove key (_store s)))
    else (Raise (KeyError key), s)).

Definition __contains__ (st : list frame) (key : string) : M (t V) bool :=
  checked st (fun s => (Return (Dict.contains key (_store s)), s)).

Definition __len__ (st : list frame) : M (t V) nat :=
  checked st (fun s => (Return (Dict.len (_store s)), s)).

Definition clear (st : list frame) : M (t V) unit :=
  checked st (fun s => (Return tt, with_store s Dict.empty)).

Definition items (st : list frame) : M (t V) (list (string * V)) :=
  checked st (fun s => (Return (_store s), s)).

Definition keys (st : list frame) : M (t V) (list string) :=
  checked st (fun s => (Return (Dict.keys (_store s)), s)).

Definition values (st : list frame) : M (t V) (list V) :=
  checked st (fun s => (Return (Dict.values (_store s)), s)).

(** [get(key, default)]: [None] stands for Python's [None]. *)
Definition get (st : list frame) (key : string) (default : option V) : M (t V) (option V) :=
  checked st (fun s =>
    (Return match Dict.lookup key (_store s) with
            | Some v => Some v
            | None => default
            end, s)).

Definition deep_copy (st : list frame) : M (t V) (Dict.t V) :=
  checked st (fun s => (Return (_store s), s)).
End WithRuntime.
End ProtectedStore.

(** ** [src/services/CredentialManager.py] *)

Module CredentialManager.

(** A register callback.  It receives the new credential and acts on the
    objects outside the manager (of type [E]); [cb_id] is its identity,
    by which [setRegisterCallback] recognises a callback it already has.
    A callback does not call back into the manager. *)
Record callback (E : Type) : Type := {
  cb_id : nat;
  cb_call : list frame -> Credentials.t -> M (World * E) unit
}.

Record t (E : Type) : Type := {
  self : pyobj;
  _credentials : ProtectedStore.t Credentials.t;
  path_resolver : PathResolver.t;
  _register_callbacks : list (callback E)
}.

(** The objects a call can change: the interpreter state, the manager and
    whatever the callbacks own. *)
Record Heap (E : Type) : Type := {
  world : World;
  manager : t E;
  external : E
}.

Section WithRuntime.
Variable rt : Runtime.
Variable E : Type.

Definition in_world {A} (m : M World A) : M (Heap E) A :=
  zoom (@world E)
       (fun w h => {| world := w; manager := manager h; external := external h |}) m.

Definition in_credentials {A} (m : M (ProtectedStore.t Credentials.t) A) : M (Heap E) A :=
  zoom (fun h => _credentials (manager h))
       (fun c h =>
          {| world := world h;
             manager := {| self := self (manager h);
                           _credentials := c;
                           path_resolver := path_resolver (manager h);
                           _register_callbacks := _register_callbacks (manager h) |};
             external := external h |}) m.

Definition in_callback {A} (m : M (World * E) A) : M (Heap E) A :=
  zoom (fun h => (world h, external h))
       (fun we h => {| world := fst we; manager := manager h; external := snd we |}) m.

(** The frame of a method of the manager. *)
Definition own : M (Heap E) frame :=
  gets (fun h => Frame (CredentialManager_py rt) (Some (self (manager h)))).

Definition __init__ (credentials_roots : PathResolver.roots) : M World (t E) :=
  (self <- new_object "CredentialManager" ;;
   credentials <- ProtectedStore.__init__ Credentials.t
                    (Some (ProtectedStore.Instance self)) ;;
   resolver <- PathResolver.__init__ rt credentials_roots ;;
   ret {| self := self; _credentials := credentials;
          path_resolver := resolver; _register_callbacks := [] |})%py.

Definition get_credential_count (st : list frame) : M (Heap E) nat :=
  (f <- own ;;
   in_credentials (ProtectedStore.__len__ rt (f :: st)))%py.

Definition has_credential (st : list frame) (caller_name : string) : M (Heap E) bool :=
  (f <- own ;;
   in_credentials (ProtectedStore.__contains__ rt (f :: st) caller_name))%py.

Definition setRegisterCallback (callback : callback E) : M (Heap E) unit :=
  modify (fun h =>
    let m := manager h in
    if existsb (fun c => Nat.eqb (cb_id c) (cb_id callback)) (_register_callbacks m)
    then h
    else {| world := world h;
            manager := {| self := self m;
                          _credentials := _credentials m;
                          path_resolver := path_resolver m;
                          _register_callbacks := _register_callbacks m ++ [callback] |};
            external := external h |}).

Definition canEscalateToAdmin (pathinfo : PathInfo.t) : bool :=
  if str_in "plugin" (PathInfo.type pathinfo) || str_in "unknown" (PathInfo.type pathinfo)
  then false
  else true.

(** [for callback in self._register_callbacks]: an exception of a
    callback is caught (and printed), the loop goes on. *)
Fixpoint run_callbacks (st : list frame) (credential : Credentials.t)
    (callbacks : list (callback E)) : M (Heap E) unit :=
  match callbacks with
  | [] => ret tt
  | callback :: rest =>
      (try_except (in_callback (cb_call callback st credential))
                  (fun _ => true) (fun _ => ret tt) ;;;
       run_callbacks st credential rest)%py
  end.

Definition register (st : list frame) (access_level : AccessLevel.t)
    : M (Heap E) Credentials.t :=
  (f <- own ;;
   resolver <- gets (fun h => path_resolver (manager h)) ;;
   pathinfo <- lift (PathResolver.getPathInfo rt resolver (f :: st)) ;;
   let caller := PathInfo.name pathinfo in
   if AccessLevel.eqb access_level AccessLevel.ADMIN
      && negb (canEscalateToAdmin pathinfo)
   then raise (ValueError ("Admin access level is not allowed for caller: " ++ caller)%string)
   else
     token <- in_world (call_token_urlsafe rt) ;;
     let key := (caller ++ "_" ++ token)%string in
     credential <- in_world (Credentials.new rt caller key access_level
                               (PathInfo.path pathinfo) (PathInfo.type pathinfo)) ;;
     in_credentials (ProtectedStore.__setitem__ rt (f :: st) caller credential) ;;;
     callbacks <- gets (fun h => _register_callbacks (manager h)) ;;
     run_callbacks (f :: st) credential callbacks ;;;
     ret credential)%py.

(** [for credential in self._credentials.values()] of [getKey] *)
Fixpoint getKey_loop (caller : string) (values : list Credentials.t)
    : M (Heap E) string :=
  match values with
  | [] => raise (ValueError ("No valid credential found for caller: " ++ caller)%string)
  | credential :: rest =>
      if String.eqb (Credentials.name credential) caller
      then ret (Credentials.key credential)
      else getKey_loop caller rest
  end.

Definition getKey (st : list frame) : M (Heap E) string :=
  (f <- own ;;
   resolver <- gets (fun h => path_resolver (manager h)) ;;
   pathinfo <- lift (PathResolver.getPathInfo rt resolver (f :: st)) ;;
   let caller := PathInfo.name pathinfo in
   values <- in_credentials (ProtectedStore.values rt (f :: st)) ;;
   getKey_loop caller values)%py.

Definition _enableCredentials (st : list frame) (credential : Credentials.t)
    : M (Heap E) Credentials.t :=
  (f <- own ;;
   enabled_credential <- in_world (Credentials.with_updated_access rt credential None None) ;;
   present <- in_credentials
                (ProtectedStore.__contains__ rt (f :: st) (Credentials.name credential)) ;;
   (if present : bool
    then
      updated <- in_world (Credentials.with_updated_access rt credential
                   (Some (Credentials.last_access enabled_credential))
                   (Some (Credentials.access_count enabled_credential))) ;;
      in_credentials (ProtectedStore.__setitem__ rt (f :: st)
                        (Credentials.name credential) updated)
    else ret tt) ;;;
   ret enabled_credential)%py.

(** The chain of [if]/[elif] of [getCredential]: does the level of the
    credential let the operation through? *)
Definition level_permits (level : AccessLevel.t) (operation : AccessOperation.t) : bool :=
  if AccessLevel.eqb level AccessLevel.ADMIN then true
  else if AccessLevel.eqb level AccessLevel.READ_WRITE
          && existsb (AccessOperation.eqb operation)
                     [AccessOperation.READ; AccessOperation.WRITE] then true
  else if AccessLevel.eqb level AccessLevel.WRITE_ONLY
          && AccessOperation.eqb operation AccessOperation.WRITE then true
  else if AccessLevel.eqb level AccessLevel.READ_ONLY
          && AccessOperation.eqb operation AccessOperation.READ then true
  else false.

(** [for credential in self._credentials.values()] of [getCredential]
    and the [raise] after it; [st] are the frames of [getCredential]
    itself and of its callers. *)
Fixpoint getCredential_loop (st : list frame) (caller : string)
    (operation : AccessOperation.t) (values : list Credentials.t)
    : M (Heap E) Credentials.t :=
  match values with
  | [] => raise (ValueError ("Invalid credential: " ++ caller ++ " for operation: "
                             ++ AccessOperation.to_string operation)%string)
  | credential :: rest =>
      if negb (String.eqb (Credentials.name credential) caller)
      then getCredential_loop st caller operation rest
      else if level_permits (Credentials.access_level credential) operation
      then _enableCredentials st credential
      else getCredential_loop st caller operation rest
  end.

Definition getCredential (st : list frame) (operation : AccessOperation.t)
    : M (Heap E) Credentials.t :=
  (f <- own ;;
   resolver <- gets (fun h => path_resolver (manager h)) ;;
   pathinfo <- lift (PathResolver.getPathInfo rt resolver (f :: st)) ;;
   let caller := PathInfo.name pathinfo in
   values <- in_credentials (ProtectedStore.values rt (f :: st)) ;;
   getCredential_loop (f :: st) caller operation values)%py.

Definition validate (st : list frame) (operation : AccessOperation.t) : M (Heap E) bool :=
  (f <- own ;;
   try_except
     (credendial <- getCredential (f :: st) operation ;;
      ret (Credentials.enabled credendial))
     is_ValueError
     (fun _ => ret false))%py.
End WithRuntime.
End CredentialManager.

(** ** [src/services/KVStore.py] *)

Module KVStore.

Module CM := CredentialManager.
Module PS := ProtectedStore.

(** The attribute [_credentials_manager] is a reference to the manager;
    the manager it refers to is the one of the heap. *)
Record t : Type := {
  self : pyobj;
  _caller_storages : PS.t (PS.t string);
  _shared_read_write_store : PS.t string;
  _shared_read_only_store : PS.t string
}.

Definition Heap : Type := CM.Heap t.

Section WithRuntime.
Variable rt : Runtime.

Definition with_external (kv : t) (h : Heap) : Heap :=
  {| CM.world := CM.world h; CM.manager := CM.manager h; CM.external := kv |}.

Definition in_caller_storages {A} (m : M (PS.t (PS.t string)) A) : M Heap A :=
  zoom (fun h => _caller_storages (CM.external h))
       (fun c h =>
          with_external {| self := self (CM.external h);
                           _caller_storages := c;
                           _shared_read_write_store := _shared_read_write_store (CM.external h);
                           _shared_read_only_store := _shared_read_only_store (CM.external h) |} h) m.

Definition in_shared_read_write_store {A} (m : M (PS.t string) A) : M Heap A :=
  zoom (fun h => _shared_read_write_store (CM.external h))
       (fun c h =>
          with_external {| self := self (CM.external h);
                           _caller_storages := _caller_storages (CM.external h);
                           _shared_read_write_store := c;
                           _shared_read_only_store := _shared_read_only_store (CM.external h) |} h) m.

Definition in_shared_read_only_store {A} (m : M (PS.t string) A) : M Heap A :=
  zoom (fun h => _shared_read_only_store (CM.external h))
       (fun c h =>
          with_external {| self := self (CM.external h);
                           _caller_storages := _caller_storages (CM.external h);
                           _shared_read_write_store := _shared_read_write_store (CM.external h);
                           _shared_read_only_store := c |} h) m.

(** A method of the private store [storage] that [_get_caller_storage]
    returned for [caller_name].  The store is the very object the
    registry [_caller_storages] holds under that name, so what the
    method does to it is seen through the registry. *)
Definition in_caller_storage {A} (caller_name : string) (storage : PS.t string)
    (m : M (PS.t string) A) : M Heap A :=
  fun h =>
    let (o, storage') := m storage in
    let kv := CM.external h in
    (o, with_external
          {| self := self kv;
             _caller_storages :=
               PS.with_store (_caller_storages kv)
                 (Dict.set caller_name storage' (PS._store (_caller_storages kv)));
             _shared_read_write_store := _shared_read_write_store kv;
             _shared_read_only_store := _shared_read_only_store kv |} h).

(** The frame of a method of the store. *)
Definition own : M Heap frame :=
  gets (fun h => Frame (KVStore_py rt) (Some (self (CM.external h)))).

(** The bound method [self._on_credential_registered], as the manager
    holds it. *)
Definition _on_credential_registered (st : list frame) (credential : Credentials.t)
    : M (World * t) unit :=
  (kv <- gets snd ;;
   let f := Frame (KVStore_py rt) (Some (self kv)) in
   caller_storage <- zoom fst (fun w (s : World * t) => (w, snd s))
                       (PS.__init__ string (Some (PS.Class "KVStore"))) ;;
   zoom (fun s : World * t => _caller_storages (snd s))
        (fun c s =>
           (fst s, {| self := self (snd s);
                      _caller_storages := c;
                      _shared_read_write_store := _shared_read_write_store (snd s);
                      _shared_read_only_store := _shared_read_only_store (snd s) |}))
        (PS.set rt (f :: st) (Credentials.name credential) caller_storage))%py.

Definition callback_of (kv : t) : CM.callback t :=
  {| CM.cb_id := obj_id (self kv); CM.cb_call := _on_credential_registered |}.

(** [KVStore(credentials_manager)]: the new store, in a heap with the
    manager it subscribed to. *)
Definition __init__ (credentials_manager : CM.t t) : M World Heap :=
  (self <- new_object "KVStore" ;;
   caller_storages <- PS.__init__ (PS.t string) (Some (PS.Class "KVStore")) ;;
   shared_read_write_store <- PS.__init__ string (Some (PS.Class "KVStore")) ;;
   shared_read_only_store <- PS.__init__ string (Some (PS.Class "KVStore")) ;;
   let kv := {| self := self;
                _caller_storages := caller_storages;
                _shared_read_write_store := shared_read_write_store;
                _shared_read_only_store := shared_read_only_store |} in
   fun w =>
     let h := {| CM.world := w; CM.manager := credentials_manager; CM.external := kv |} in
     (Return (snd (CM.setRegisterCallback (callback_of kv) h)), w))%py.

Definition _get_caller_storage (st : list frame) : M Heap (string * PS.t string) :=
  (f <- own ;;
   resolver <- gets (fun h => CM.path_resolver (CM.manager h)) ;;
   pathinfo <- lift (PathResolver.getPathInfo rt resolver (f :: st)) ;;
   let caller_name := PathInfo.name pathinfo in
   storage <- in_caller_storages (PS.get rt (f :: st) caller_name None) ;;
   match storage with
   | None => raise (ValueError ("No storage found for caller: " ++ caller_name)%string)
   | Some storage => ret (caller_name, storage)
   end)%py.

Definition set (st : list frame) (key value : string) : M Heap unit :=
  (f <- own ;;
   CM.validate rt (f :: st) AccessOperation.WRITE ;;;
   caller_storage <- _get_caller_storage (f :: st) ;;
   in_caller_storage (fst caller_storage) (snd caller_storage)
     (PS.set rt (f :: st) key value))%py.

Definition get (st : list frame) (key : string) (default : option string)
    : M Heap (option string) :=
  (f <- own ;;
   CM.validate rt (f :: st) AccessOperation.READ ;;;
   caller_storage <- _get_caller_storage (f :: st) ;;
   in_caller_storage (fst caller_storage) (snd caller_storage)
     (PS.get rt (f :: st) key default))%py.

Definition has (st : list frame) (key : string) : M Heap bool :=
  (f <- own ;;
   CM.validate rt (f :: st) AccessOperation.READ ;;;
   caller_storage <- _get_caller_storage (f :: st) ;;
   in_caller_storage (fst caller_storage) (snd caller_storage)
     (PS.__contains__ rt (f :: st) key))%py.

Definition delete (st : list frame) (key : string) : M Heap unit :=
  (f <- own ;;
   CM.validate rt (f :: st) AccessOperation.WRITE ;;;
   caller_storage <- _get_caller_storage (f :: st) ;;
   present <- in_caller_storage (fst caller_storage) (snd caller_storage)
                (PS.__contains__ rt (f :: st) key) ;;
   if present : bool
   then in_caller_storage (fst caller_storage) (snd caller_storage)
          (PS.__delitem__ rt (f :: st) key)
   else ret tt)%py.

Definition clear (st : list frame) : M Heap unit :=
  (f <- own ;;
   CM.validate rt (f :: st) AccessOperation.WRITE ;;;
   caller_storage <- _get_caller_storage (f :: st) ;;
   in_caller_storage (fst caller_storage) (snd caller_storage)
     (PS.clear rt (f :: st)))%py.

Definition keys (st : list frame) : M Heap (list string) :=
  (f <- own ;;
   CM.validate rt (f :: st) AccessOperation.READ ;;;
   caller_storage <- _get_caller_storage (f :: st) ;;
   in_caller_storage (fst caller_storage) (snd caller_storage)
     (PS.keys rt (f :: st)))%py.

Definition values (st : list frame) : M Heap (list string) :=
  (f <- own ;;
   CM.validate rt (f :: st) AccessOperation.READ ;;;
   caller_storage <- _get_caller_storage (f :: st) ;;
   in_caller_storage (fst caller_storage) (snd caller_storage)
     (PS.values rt (f :: st)))%py.

Definition _is_admin_user (st : list frame) : M Heap bool :=
  (f <- own ;;
   try_except
     (credential <- CM.getCredential rt (f :: st) AccessOperation.WRITE ;;
      ret (AccessLevel.eqb (Credentials.access_level credential) AccessLevel.ADMIN))
     is_ValueError
     (fun _ => ret false))%py.

(** *** The shared read-write store *)

Definition shared_set (st : list frame) (key value : string) : M Heap unit :=
  (f <- own ;;
   CM.validate rt (f :: st) AccessOperation.WRITE ;;;
   in_shared_read_write_store (PS.set rt (f :: st) key value))%py.

Definition shared_get (st : list frame) (key : string) (default : option string)
    : M Heap (option string) :=
  (f <- own ;;
   CM.validate rt (f :: st) AccessOperation.READ ;;;
   in_shared_read_write_store (PS.get rt (f :: st) key default))%py.

Definition shared_has (st : list frame) (key : string) : M Heap bool :=
  (f <- own ;;
   CM.validate rt (f :: st) AccessOperation.READ ;;;
   in_shared_read_write_store (PS.__contains__ rt (f :: st) key))%py.

Definition shared_delete (st : list frame) (key : string) : M Heap unit :=
  (f <- own ;;
   CM.validate rt (f :: st) AccessOperation.WRITE ;;;
   present <- in_shared_read_write_store (PS.__contains__ rt (f :: st) key) ;;
   if present : bool
   then in_shared_read_write_store (PS.__delitem__ rt (f :: st) key)
   else ret tt)%py.

Definition shared_clear (st : list frame) : M Heap unit :=
  (f <- own ;;
   CM.validate rt (f :: st) AccessOperation.WRITE ;;;
   in_shared_read_write_store (PS.clear rt (f :: st)))%py.

Definition shared_keys (st : list frame) : M Heap (list string) :=
  (f <- own ;;
   CM.validate rt (f :: st) AccessOperation.READ ;;;
   in_shared_read_write_store (PS.keys rt (f :: st)))%py.

Definition shared_values (st : list frame) : M Heap (list string) :=
  (f <- own ;;
   CM.validate rt (f :: st) AccessOperation.READ ;;;
   in_shared_read_write_store (PS.values rt (f :: st)))%py.

(** *** The shared read-only store *)

Definition readonly_set (st : list frame) (key value : string) : M Heap unit :=
  (f <- own ;;
   CM.validate rt (f :: st) AccessOperation.WRITE ;;;
   admin <- _is_admin_user (f :: st) ;;
   if negb admin
   then raise (PermissionError
                 "Admin access required for write operations on read-only storage")
   else in_shared_read_only_store (PS.set rt (f :: st) key value))%py.

Definition readonly_get (st : list frame) (key : string) (default : option string)
    : M Heap (option string) :=
  (f <- own ;;
   CM.validate rt (f :: st) AccessOperation.READ ;;;
   in_shared_read_only_store (PS.get rt (f :: st) key default))%py.

Definition readonly_has (st : list frame) (key : string) : M Heap bool :=
  (f <- own ;;
   CM.validate rt (f :: st) AccessOperation.READ ;;;
   in_shared_read_only_store (PS.__contains__ rt (f :: st) key))%py.

Definition readonly_delete (st : list frame) (key : string) : M Heap unit :=
  (f <- own ;;
   CM.validate rt (f :: st) AccessOperation.WRITE ;;;
   admin <- _is_admin_user (f :: st) ;;
   if negb admin
   then raise (PermissionError
                 "Admin access required for delete operations on read-only storage")
   else
     present <- in_shared_read_only_store (PS.__contains__ rt (f :: st) key) ;;
     if present : bool
     then in_shared_read_only_store (PS.__delitem__ rt (f :: st) key)
     else ret tt)%py.

Definition readonly_clear (st : list frame) : M Heap unit :=
  (f <- own ;;
   CM.validate rt (f :: st) AccessOperation.WRITE ;;;
   admin <- _is_admin_user (f :: st) ;;
   if negb admin
   then raise (PermissionError
                 "Admin access required for clear operations on read-only storage")
   else in_shared_read_only_store (PS.clear rt (f :: st)))%py.

Definition readonly_keys (st : list frame) : M Heap (list string) :=
  (f <- own ;;
   CM.validate rt (f :: st) AccessOperation.READ ;;;
   in_shared_read_only_store (PS.keys rt (f :: st)))%py.

Definition readonly_values (st : list frame) : M Heap (list string) :=
  (f <- own ;;
   CM.validate rt (f :: st) AccessOperation.READ ;;;
   in_shared_read_only_store (PS.values rt (f :: st)))%py.
End WithRuntime.
End KVStore.

(** ** A concrete installation, for the examples

    The library is installed under [/opt/kv]; the clock starts at 1000 and
    advances by one at each reading; the [n]-th random token is [tok]
    followed by [n] letters [x]. *)

Fixpoint xs (n : nat) : string :=
  match n with
  | O => EmptyString
  | S n' => String "x"%char (xs n')
  end.

Definition demo_rt : Runtime := {|
  resolve := posix_parts;
  time_time := fun n => (1000 + Z.of_nat n)%Z;
  token_urlsafe := fun n => ("tok" ++ xs n)%string;
  CredentialManager_py := "/opt/kv/src/services/CredentialManager.py";
  KVStore_py := "/opt/kv/src/services/KVStore.py";
  ProtectedStore_py := "/opt/kv/src/foundation/ProtectedStore.py";
  PathResolver_py := "/opt/kv/src/foundation/PathResolver.py"
|}.

(** A call made at the top level of the module [file]: one frame, without
    a local [self]. *)
Definition called_from (file : string) : list frame := [Frame file None].

(** The state of a method that ran to its end, and its result. *)
Definition state_of {S A} (r : outcome A * S) : S := snd r.
Definition result_of {S A} (r : outcome A * S) : outcome A := fst r.

(** The heap after [CredentialManager(roots)] and [KVStore(manager)] in a
    fresh interpreter, if both constructors return. *)
Definition boot (rt : Runtime) (credentials_roots : PathResolver.roots)
    : outcome KVStore.Heap :=
  match CredentialManager.__init__ rt KVStore.t credentials_roots World0 with
  | (Return manager, w) =>
      match KVStore.__init__ rt manager w with
      | (Return h, _) => Return h
      | (Raise e, _) => Raise e
      end
  | (Raise e, _) => Raise e
  end.

(** ** The vocabulary of the properties *)

(** [sub] occurs in [s]: the meaning of Python's [sub in s]. *)
Definition occurs_in (sub s : string) : Prop :=
  exists before after, s = (before ++ sub ++ after)%string.

(** The table of the specification: which level permits which operation.

      level / op    READ  WRITE
      ADMIN          yes   yes
      READ_WRITE     yes   yes
      WRITE_ONLY           yes
      READ_ONLY      yes             *)
Definition table_permits (level : AccessLevel.t) (op : AccessOperation.t) : bool :=
  match level, op with
  | AccessLevel.ADMIN, _ => true
  | AccessLevel.READ_WRITE, _ => true
  | AccessLevel.WRITE_ONLY, AccessOperation.WRITE => true
  | AccessLevel.WRITE_ONLY, AccessOperation.READ => false
  | AccessLevel.READ_ONLY, AccessOperation.READ => true
  | AccessLevel.READ_ONLY, AccessOperation.WRITE => false
  end.

(** A credential after a successful use at time [t]. *)
Definition used (c : Credentials.t) (t : timestamp) : Credentials.t :=
  {| Credentials.name := Credentials.name c;
     Credentials.key := Credentials.key c;
     Credentials.access_level := Credentials.access_level c;
     Credentials.path := Credentials.path c;
     Credentials.type := Credentials.type c;
     Credentials.enabled := true;
     Credentials.created_at := Credentials.created_at c;
     Credentials.last_access := t;
     Credentials.access_count := (Credentials.access_count c + 1)%Z |}.

(** Every row of the credential table is stored under the name it holds,
    and no name has two rows. *)
Fixpoint table_ok (d : Dict.t Credentials.t) : bool :=
  match d with
  | [] => true
  | (k, c) :: d' =>
      String.eqb (Credentials.name c) k && negb (Dict.contains k d') && table_ok d'
  end.

Section ManagerVocabulary.
Variable rt : Runtime.
Variable E : Type.

Import CredentialManager.

(** The credential table of the manager. *)
Definition table (h : Heap E) : Dict.t Credentials.t :=
  ProtectedStore._store (_credentials (manager h)).

Definition manager_frame (h : Heap E) : frame :=
  Frame (CredentialManager_py rt) (Some (self (manager h))).

(** The identity that a method of the manager, called with the frames
    [st], obtains from the resolver. *)
Definition resolved_caller (h : Heap E) (st : list frame) : outcome PathInfo.t :=
  PathResolver.getPathInfo rt (path_resolver (manager h)) (manager_frame h :: st).

(** The manager passes the access check of its own credential store, as
    it does from [__init__] on. *)
Definition guarded (h : Heap E) : bool :=
  ProtectedStore._is_access_allowed (_credentials (manager h)) (Some (self (manager h))).

Definition manager_ok (h : Heap E) : bool := guarded h && table_ok (table h).

(** The time the clock shows at the next reading, and the time stamp the
    stat update stores: that reading or, were it zero, the one after. *)
Definition now (h : Heap E) : timestamp := time_time rt (time_calls (world h)).

Definition stored_time (h : Heap E) : timestamp :=
  if (now h =? 0)%Z then time_time rt (S (time_calls (world h))) else now h.

Definition put_table (d : Dict.t Credentials.t) (h : Heap E) : Heap E :=
  {| world := world h;
     manager := {| self := self (manager h);
                   _credentials := ProtectedStore.with_store (_credentials (manager h)) d;
                   path_resolver := path_resolver (manager h);
                   _register_callbacks := _register_callbacks (manager h) |};
     external := external h |}.

(** The world after [n] more readings of the clock. *)
Definition later (n : nat) (h : Heap E) : Heap E :=
  {| world := {| time_calls := n + time_calls (world h);
                 token_calls := token_calls (world h);
                 next_id := next_id (world h) |};
     manager := manager h;
     external := external h |}.

(** The heap after the stat update of the row [c]: the row stored under
    [c.name] is [c] used at the stored time, the clock was read once, or
    twice if the first reading was zero; nothing else differs. *)
Definition after_use (c : Credentials.t) (h : Heap E) : Heap E :=
  put_table (Dict.set (Credentials.name c) (used c (stored_time h)) (table h))
            (later (if (now h =? 0)%Z then 2 else 1) h).

(** The credential [register(level)] issues to the caller [pathinfo], and
    the heap once it is stored, before the callbacks run: the random
    source was read once and the clock twice. *)
Definition issued (pathinfo : PathInfo.t) (level : AccessLevel.t) (h : Heap E)
    : Credentials.t :=
  {| Credentials.name := PathInfo.name pathinfo;
     Credentials.key := (PathInfo.name pathinfo ++ "_"
                         ++ token_urlsafe rt (token_calls (world h)))%string;
     Credentials.access_level := level;
     Credentials.path := PathInfo.path pathinfo;
     Credentials.type := PathInfo.type pathinfo;
     Credentials.enabled := false;
     Credentials.created_at := time_time rt (time_calls (world h));
     Credentials.last_access := time_time rt (S (time_calls (world h)));
     Credentials.access_count := 0 |}.

Definition after_issue (pathinfo : PathInfo.t) (level : AccessLevel.t) (h : Heap E)
    : Heap E :=
  put_table (Dict.set (PathInfo.name pathinfo) (issued pathinfo level h) (table h))
    {| world := {| time_calls := S (S (time_calls (world h)));
                   token_calls := S (token_calls (world h));
                   next_id := next_id (world h) |};
       manager := manager h;
       external := external h |}.

(** The heaps a program reaches from the constructor through the public
    methods of the manager, called from anywhere with any argument,
    returning or raising; between the calls the rest of the program does
    what it likes with its own objects. *)
Inductive reachable : Heap E -> Prop :=
| reach_init roots w m w' e :
    __init__ rt E roots w = (Return m, w') ->
    reachable {| world := w'; manager := m; external := e |}
| reach_elsewhere h w e :
    reachable h ->
    reachable {| world := w; manager := manager h; external := e |}
| reach_setRegisterCallback h cb :
    reachable h -> reachable (state_of (setRegisterCallback cb h))
| reach_get_credential_count h st :
    reachable h -> reachable (state_of (get_credential_count rt st h))
| reach_has_credential h st name :
    reachable h -> reachable (state_of (has_credential rt st name h))
| reach_register h st level :
    reachable h -> reachable (state_of (register rt st level h))
| reach_validate h st op :
    reachable h -> reachable (state_of (validate rt st op h))
| reach_getKey h st :
    reachable h -> reachable (state_of (getKey rt st h))
| reach_getCredential h st op :
    reachable h -> reachable (state_of (getCredential rt st op h)).
End ManagerVocabulary.

Section StoreVocabulary.
Variable rt : Runtime.

Import CredentialManager.

Definition kv_frame (h : KVStore.Heap) : frame :=
  Frame (KVStore_py rt) (Some (KVStore.self (external h))).

(** The identity that a method of the store, called with the frames
    [st], obtains from the resolver. *)
Definition kv_resolved_caller (h : KVStore.Heap) (st : list frame) : outcome PathInfo.t :=
  PathResolver.getPathInfo rt (path_resolver (manager h)) (kv_frame h :: st).

(** The contents of the shared read-write store. *)
Definition shared_read_write (h : KVStore.Heap) : Dict.t string :=
  ProtectedStore._store (KVStore._shared_read_write_store (external h)).

(** The private store of the caller [name], if there is one. *)
Definition caller_storage (h : KVStore.Heap) (name : string)
    : option (ProtectedStore.t string) :=
  Dict.lookup name (ProtectedStore._store (KVStore._caller_storages (external h))).

(** The store is an instance of [KVStore] and passes the access check of
    its three stores, as it does from [__init__] on. *)
Definition kv_guarded (h : KVStore.Heap) : bool :=
  let kv := external h in
  String.eqb (obj_class (KVStore.self kv)) "KVStore"
  && ProtectedStore._is_access_allowed (KVStore._caller_storages kv) (Some (KVStore.self kv))
  && ProtectedStore._is_access_allowed (KVStore._shared_read_write_store kv)
       (Some (KVStore.self kv))
  && ProtectedStore._is_access_allowed (KVStore._shared_read_only_store kv)
       (Some (KVStore.self kv)).

(** The callbacks of the manager are the one the store subscribed. *)
Definition subscribed (h : KVStore.Heap) : Prop :=
  _register_callbacks (manager h) = [KVStore.callback_of rt (external h)].

(** The store [kv2] is the object [kv1] with the same three stores behind
    the same accessors; the contents of the stores may differ. *)
Definition same_stores (kv1 kv2 : KVStore.t) : Prop :=
  KVStore.self kv2 = KVStore.self kv1 /\
  ProtectedStore._allowed_accessor (KVStore._caller_storages kv2)
    = ProtectedStore._allowed_accessor (KVStore._caller_storages kv1) /\
  ProtectedStore.self (KVStore._caller_storages kv2)
    = ProtectedStore.self (KVStore._caller_storages kv1) /\
  ProtectedStore._allowed_accessor (KVStore._shared_read_write_store kv2)
    = ProtectedStore._allowed_accessor (KVStore._shared_read_write_store kv1) /\
  ProtectedStore._allowed_accessor (KVStore._shared_read_only_store kv2)
    = ProtectedStore._allowed_accessor (KVStore._shared_read_only_store kv1).

(** A manager and a store in order, wired as the constructors wire
    them. *)
Definition system_ok (h : KVStore.Heap) : Prop :=
  manager_ok h = true /\ kv_guarded h = true /\ subscribed h.
End StoreVocabulary.

(** *** The heaps of the examples *)

(** The heap after [CredentialManager(roots)] and [KVStore(manager)] with
    the installation [demo_rt], written out: the objects carry the
    identities 0 to 6 in the order of their creation. *)
Definition demo_store (V : Type) (id : nat) : ProtectedStore.t V :=
  {| ProtectedStore.self := PyObj id "ProtectedStore";
     ProtectedStore._store := Dict.empty;
     ProtectedStore._allowed_accessor := ProtectedStore.Class "KVStore" |}.

Definition demo_kv : KVStore.t :=
  {| KVStore.self := PyObj 3 "KVStore";
     KVStore._caller_storages := demo_store (ProtectedStore.t string) 4;
     KVStore._shared_read_write_store := demo_store string 5;
     KVStore._shared_read_only_store := demo_store string 6 |}.

Definition demo_manager (roots : list string)
    (callbacks : list (CredentialManager.callback KVStore.t))
    : CredentialManager.t KVStore.t :=
  {| CredentialManager.self := PyObj 0 "CredentialManager";
     CredentialManager._credentials :=
       {| ProtectedStore.self := PyObj 1 "ProtectedStore";
          ProtectedStore._store := Dict.empty;
          ProtectedStore._allowed_accessor :=
            ProtectedStore.Instance (PyObj 0 "CredentialManager") |};
     CredentialManager.path_resolver :=
       {| PathResolver.self := PyObj 2 "PathResolver";
          PathResolver.base_paths := map posix_parts roots;
          PathResolver.type := PathResolver.type_of_parts (hd [] (map posix_parts roots)) |};
     CredentialManager._register_callbacks := callbacks |}.

Definition demo_heap (roots : list string) : KVStore.Heap :=
  {| CredentialManager.world := {| time_calls := 0; token_calls := 0; next_id := 7 |};
     CredentialManager.manager := demo_manager roots [KVStore.callback_of demo_rt demo_kv];
     CredentialManager.external := demo_kv |}.

(** The callers of the examples. *)
Definition caller_A : list frame := called_from "/core/A/main.py".
Definition caller_B : list frame := called_from "/core/B/main.py".

(** [A] registered with [READ_WRITE], then [B] with [READ_ONLY]. *)
Definition demo_registered : KVStore.Heap :=
  state_of (CredentialManager.register demo_rt caller_B AccessLevel.READ_ONLY
    (state_of (CredentialManager.register demo_rt caller_A AccessLevel.READ_WRITE
       (demo_heap ["/core"])))).

(** ** The vocabulary of the further properties *)

(** The file of the frame [f] lies below the root [R], and is not [R]
    itself. *)
Definition under (rt : Runtime) (R : Path) (f : frame) : Prop :=
  exists seg rest, resolve rt (filename f) = R ++ seg :: rest.

Definition under_a_root (rt : Runtime) (r : PathResolver.t) (f : frame) : Prop :=
  exists R, In R (PathResolver.base_paths r) /\ under rt R f.

(** What a method of a store does when the access check fails: it raises
    [PermissionError] and leaves the store as it was. *)
Definition access_denied {V A : Type} (s : ProtectedStore.t V)
    : outcome A * ProtectedStore.t V :=
  (Raise (PermissionError
            ("Access only allowed from authorized accessor. Expected: "
             ++ ProtectedStore.expected_type s)%string), s).

(** [n] calls of [getCredential(operation)] in a row, from the same place;
    the results are dropped. *)
Fixpoint getCredential_times (rt : Runtime) (E : Type) (n : nat) (st : list frame)
    (operation : AccessOperation.t) (h : CredentialManager.Heap E)
    : CredentialManager.Heap E :=
  match n with
  | O => h
  | S n' =>
      getCredential_times rt n' st operation
        (state_of (CredentialManager.getCredential rt st operation h))
  end.

(** The contents of the shared read-only store. *)
Definition shared_read_only (h : KVStore.Heap) : Dict.t string :=
  ProtectedStore._store (KVStore._shared_read_only_store (CredentialManager.external h)).

(** The identity under which the manager sees the caller of a method of
    the store: the resolver runs below the frames of the manager and of the
    store. *)
Definition kv_validated_caller (rt : Runtime) (h : KVStore.Heap) (st : list frame)
    : outcome PathInfo.t :=
  resolved_caller rt h (kv_frame rt h :: st).

(** The manager holds an [ADMIN] row for the caller of a method of the
    store. *)
Definition is_admin_caller (rt : Runtime) (h : KVStore.Heap) (st : list frame) : bool :=
  match kv_validated_caller rt h st with
  | Return pathinfo =>
      match Dict.lookup (PathInfo.name pathinfo) (table h) with
      | Some c => AccessLevel.eqb (Credentials.access_level c) AccessLevel.ADMIN
      | None => false
      end
  | Raise _ => false
  end.

(** *** Further heaps and callers of the examples *)

(** A resolver with the roots [/core] and [/srv/Plugins]. *)
Definition demo_resolver : PathResolver.t :=
  {| PathResolver.self := PyObj 2 "PathResolver";
     PathResolver.base_paths := [["/"; "core"]; ["/"; "srv"; "Plugins"]];
     PathResolver.type := "core" |}.

(** Frames of methods of the manager and of the store. *)
Definition library_frames : list frame :=
  [Frame (CredentialManager_py demo_rt) (Some (PyObj 0 "CredentialManager"));
   Frame (KVStore_py demo_rt) (Some (PyObj 3 "KVStore"))].

(** [A] registered with [ADMIN], then [B] with [READ_ONLY]. *)
Definition demo_admin : KVStore.Heap :=
  state_of (CredentialManager.register demo_rt caller_B AccessLevel.READ_ONLY
    (state_of (CredentialManager.register demo_rt caller_A AccessLevel.ADMIN
       (demo_heap ["/core"])))).

(** A caller under the root that never registered, and one outside it. *)
Definition caller_C : list frame := called_from "/core/C/main.py".
Definition stranger : list frame := called_from "/elsewhere/x.py".

(** * Properties *)

(** ** Strings *)

Lemma prefix_app (sub s : string) :
  String.prefix sub s = true <-> exists after, s = (sub ++ after)%string.
Proof.
  revert s; induction sub as [|c sub IH]; intros s; simpl.
  - split; [intros _; now exists s | intros _; now destruct s].
  - destruct s as [|d s]; simpl.
    + split; [discriminate | intros [after H]; discriminate].
    + destruct (ascii_dec c d) as [->|ne].
      * rewrite IH. split; intros [after H]; exists after.
        -- now rewrite H.
        -- now injection H.
      * split; [discriminate | intros [after H]; injection H as H _; now elim ne].
Qed.

Lemma str_in_occurs (sub s : string) : str_in sub s = true <-> occurs_in sub s.
Proof.
  unfold occurs_in. induction s as [|c s IH].
  - cbn [str_in]. rewrite orb_false_r, prefix_app. split.
    + intros [after H]; now exists EmptyString, after.
    + intros [[|b before] [after H]]; [now exists after | discriminate].
  - cbn [str_in]. rewrite orb_true_iff, IH, prefix_app. split.
    + intros [[after H] | (before & after & H)].
      * now exists EmptyString, after.
      * exists (String c before), after. simpl. now rewrite H.
    + intros [[|b before] [after H]].
      * left. now exists after.
      * right. simpl in H. injection H as _ H. now exists before, after.
Qed.

(** ** [PathResolver] *)

Section ResolverFacts.
Variable rt : Runtime.

Import PathResolver.

(** Behind [extract_stack], [stacks[:-1]] and [reversed], the loop of
    [getPathInfo] runs over the frames of the caller, innermost first. *)
Lemma getPathInfo_scan (r : PathResolver.t) (st : list frame) :
  getPathInfo rt r st = scan_stack rt r st.
Proof.
  unfold getPathInfo, extract_stack. simpl rev.
  destruct (rev st ++ [_]) eqn:E.
  - now destruct (rev st).
  - rewrite <- E, removelast_last, rev_involutive. reflexivity.
Qed.

(** The resolver only ever raises [ValueError]. *)
Lemma getPathInfo_raises (r : PathResolver.t) (st : list frame) (e : exn) :
  getPathInfo rt r st = Raise e -> is_ValueError e = true.
Proof.
  rewrite getPathInfo_scan. induction st as [|f st IH]; simpl.
  - intros H; injection H as <-; reflexivity.
  - destruct (sort_by_depth_reverse _); [exact IH | discriminate].
Qed.

(** A frame of the same file as the one below it does not change what
    the resolver finds. *)
Lemma getPathInfo_same_file (r : PathResolver.t) (f g : frame) (st : list frame) :
  filename f = filename g ->
  getPathInfo rt r (f :: g :: st) = getPathInfo rt r (g :: st).
Proof.
  intros E. rewrite !getPathInfo_scan. simpl. rewrite E.
  now destruct (sort_by_depth_reverse _).
Qed.

(** The sorted list starts with an entry of greatest depth. *)
Lemma sort_by_depth_reverse_head (l : list matched) :
  l <> [] ->
  exists best rest,
    sort_by_depth_reverse l = best :: rest /\ In best l /\
    forall x, In x l -> (depth x <= depth best)%nat.
Proof.
  induction l as [|x l IH]; [congruence | intros _].
  simpl. destruct l as [|y l].
  - exists x, []. simpl. repeat split; auto.
    intros z [<-|[]]; lia.
  - destruct IH as (b & rest & Hs & Hin & Hmax); [discriminate|].
    fold (sort_by_depth_reverse (y :: l)). rewrite Hs. simpl.
    destruct (depth b <=? depth x)%nat eqn:E.
    + apply Nat.leb_le in E. exists x, (b :: rest). repeat split; auto.
      intros z [<-|Hz]; [lia | specialize (Hmax z Hz); lia].
    + apply Nat.leb_gt in E. exists b, (insert_by_depth x rest).
      repeat split; auto.
      intros z [<-|Hz]; [lia | exact (Hmax z Hz)].
Qed.

Lemma app_same_length (a b x y : Path) :
  length a = length b -> a ++ x = b ++ y -> a = b /\ x = y.
Proof.
  revert b; induction a as [|c a IH]; intros [|d b]; simpl; try discriminate.
  - auto.
  - intros Hl H. injection Hl as Hl. injection H as -> H.
    destruct (IH b Hl H) as [-> ->]. auto.
Qed.

Lemma relative_to_app (base rest : Path) : relative_to (base ++ rest) base = Some rest.
Proof.
  induction base as [|b base IH]; simpl; [reflexivity|].
  now rewrite String.eqb_refl.
Qed.

Lemma relative_to_Some (p base rel : Path) :
  relative_to p base = Some rel -> p = base ++ rel.
Proof.
  revert p; induction base as [|b base IH]; intros p; simpl.
  - now intros [= ->].
  - destruct p as [|a p]; [discriminate|].
    destruct (String.eqb_spec a b) as [->|]; [|discriminate].
    intros H. now rewrite (IH _ H).
Qed.

Lemma collect_matched_In (p : Path) (bases : list Path) (m : matched) :
  In m (collect_matched p bases) <->
  exists base, In base bases /\ try_base_path p base = Some m.
Proof.
  induction bases as [|b bases IH]; simpl.
  - split; [intros [] | intros (? & [] & _)].
  - destruct (try_base_path p b) as [m'|] eqn:E; simpl; rewrite IH; split.
    + intros [<-|(base & Hin & H)]; [now exists b; auto | exists base; auto].
    + intros (base & [<-|Hin] & H); [left; congruence | right; now exists base].
    + intros (base & Hin & H); exists base; auto.
    + intros (base & [<-|Hin] & H); [congruence | now exists base].
Qed.

(** The root that wins: a configured root [R] above the file, no
    configured root above the file being deeper. *)
Lemma deepest_root_wins (r : PathResolver.t) (fr : frame) (st : list frame)
    (R : Path) (seg : string) (rest : Path) :
  In R (base_paths r) ->
  resolve rt (filename fr) = R ++ seg :: rest ->
  (forall R', In R' (base_paths r) ->
     relative_to (resolve rt (filename fr)) R' <> None ->
     (length R' <= length R)%nat) ->
  getPathInfo rt r (fr :: st) =
    Return {| PathInfo.name := seg;
              PathInfo.path := R ++ seg :: rest;
              PathInfo.type := type_of_parts R |}.
Proof.
  intros HR Hfile Hdeep. rewrite getPathInfo_scan. simpl.
  set (p := resolve rt (filename fr)) in *.
  assert (HmR : try_base_path p R =
                Some {| base_path := R; relative_path := seg :: rest;
                        parts := seg :: rest; base_type := type_of_parts R;
                        depth := length R |}).
  { unfold try_base_path. rewrite Hfile, relative_to_app. reflexivity. }
  assert (Hin : In {| base_path := R; relative_path := seg :: rest;
                      parts := seg :: rest; base_type := type_of_parts R;
                      depth := length R |} (collect_matched p (base_paths r))).
  { apply collect_matched_In. now exists R. }
  destruct (sort_by_depth_reverse_head (l := collect_matched p (base_paths r)))
    as (best & tl & Hs & Hbest & Hmax).
  { intros E; rewrite E in Hin; exact Hin. }
  rewrite Hs.
  apply collect_matched_In in Hbest. destruct Hbest as (R' & HR' & Hm').
  specialize (Hmax _ Hin). simpl in Hmax.
  unfold try_base_path in Hm'.
  destruct (relative_to p R') as [rel|] eqn:Erel; [|discriminate].
  destruct (0 <? length rel)%nat; [|discriminate].
  injection Hm' as <-. simpl in *.
  assert (Hle : (length R' <= length R)%nat).
  { apply Hdeep; [assumption | congruence]. }
  apply relative_to_Some in Erel. rewrite Hfile in Erel.
  destruct (app_same_length R' R rel (seg :: rest)) as [-> ->];
    [lia | congruence |].
  simpl. now rewrite <- Hfile.
Qed.
End ResolverFacts.

(** C7.  Most-specific root.  In a resolver whose roots are [R1] and [R2]
    (in any order), [R1] a prefix of [R2], a caller frame whose file is
    [R2/seg/rest...] resolves to the name [seg] (the first segment of the
    file relative to [R2]), the zone [lower(basename R2)] and the path of
    the file. *)
Theorem most_specific_root_wins (rt : Runtime) (r : PathResolver.t)
    (fr : frame) (st : list frame) (R1 R2 ext : Path) (seg : string) (rest : Path) :
  (forall R, In R (PathResolver.base_paths r) <-> R = R1 \/ R = R2) ->
  R2 = R1 ++ ext ->
  R2 <> [] ->
  resolve rt (filename fr) = R2 ++ seg :: rest ->
  PathResolver.getPathInfo rt r (fr :: st) =
    Return {| PathInfo.name := seg;
              PathInfo.path := R2 ++ seg :: rest;
              PathInfo.type := lower (last R2 "") |}.
Proof.
  intros Hroots Hnest Hne Hfile.
  replace (lower (last R2 "")) with (PathResolver.type_of_parts R2).
  - apply deepest_root_wins; [apply Hroots; now right | assumption |].
    intros R' HR' _. apply Hroots in HR'. destruct HR' as [-> | ->]; [|lia].
    rewrite Hnest, length_app. lia.
  - unfold PathResolver.type_of_parts. destruct R2; [congruence | reflexivity].
Qed.

(** Scenario S4 of the specification: roots [/a] and [/a/b], caller file
    [/a/b/mod/x]; zone [b], name [mod]. *)
Lemma most_specific_root_wins_S4 :
  let r := {| PathResolver.self := PyObj 0 "PathResolver";
              PathResolver.base_paths := [["/"; "a"]; ["/"; "a"; "b"]];
              PathResolver.type := "a" |} in
  result_of (PathResolver.__init__ demo_rt (PathResolver.StrList ["/a"; "/a/b"]) World0)
    = Return r /\
  resolve demo_rt "/a/b/mod/x" = ["/"; "a"; "b"; "mod"; "x"] /\
  PathResolver.getPathInfo demo_rt r (called_from "/a/b/mod/x") =
    Return {| PathInfo.name := "mod";
              PathInfo.path := ["/"; "a"; "b"; "mod"; "x"];
              PathInfo.type := "b" |}.
Proof.
  intros r. split; [reflexivity | split; [reflexivity |]].
  apply (@most_specific_root_wins demo_rt r (Frame "/a/b/mod/x" None) []
           ["/"; "a"] ["/"; "a"; "b"] ["b"] "mod" ["x"]).
  - intros R. simpl. intuition.
  - reflexivity.
  - discriminate.
  - reflexivity.
Defined.

(** ** [AccessContext] and [Credentials] *)

(** C8.  An [AccessContext] built without [timestamp] does not hold a
    wall-clock value: the default factory [lambda: time.time] yields the
    function [time.time] itself, no number, and the clock is not read. *)
Theorem AccessContext_default_timestamp_is_the_function
    (name key operation caller : string) (value : option AccessContext.pyvalue)
    (w : World) :
  exists ctx,
    AccessContext.new name key operation caller value None w = (Return ctx, w) /\
    AccessContext.timestamp_ ctx = AccessContext.PyFunction "time.time" /\
    forall x : timestamp, AccessContext.timestamp_ ctx <> AccessContext.PyFloat x.
Proof.
  eexists. split; [reflexivity|]. split; [reflexivity | discriminate].
Qed.

(** C10.  [c.with_updated_access(last_access, access_count)], each
    argument given or left out: the result is enabled; its [access_count]
    is the given [n] when [n] is not zero, and [c.access_count + 1] when
    [n] is zero, as when the argument is absent; its [last_access] is the
    given [t] when [t] is not zero, and the current time when [t] is zero,
    as when the argument is absent. *)
Theorem with_updated_access_zero_as_absent (rt : Runtime) (c : Credentials.t)
    (last_access : option timestamp) (access_count : option Z) (w : World) :
  exists c' w',
    Credentials.with_updated_access rt c last_access access_count w = (Return c', w') /\
    Credentials.enabled c' = true /\
    (forall n, access_count = Some n -> n <> 0%Z -> Credentials.access_count c' = n) /\
    (access_count = Some 0%Z \/ access_count = None ->
     Credentials.access_count c' = (Credentials.access_count c + 1)%Z) /\
    (forall t, last_access = Some t -> t <> 0%Z -> Credentials.last_access c' = t) /\
    (last_access = Some 0%Z \/ last_access = None ->
     Credentials.last_access c' = time_time rt (time_calls w)).
Proof.
  unfold Credentials.with_updated_access, or_else, bind, ret, call_time_time.
  destruct last_access as [t|], access_count as [n|];
    try destruct (Z.eqb_spec t 0); try destruct (Z.eqb_spec n 0);
    do 2 eexists; (split; [reflexivity|]); cbn;
    repeat split; intros; repeat match goal with
                                 | H : _ \/ _ |- _ => destruct H
                                 | H : Some _ = Some _ |- _ => injection H as H
                                 end; congruence.
Qed.

(** An explicit count of 7 and an explicit time stamp of 77 are kept; an
    explicit count of 0 and an explicit time stamp of 0 are replaced. *)
Lemma with_updated_access_zero_as_absent_example :
  let c := {| Credentials.name := "mod"; Credentials.key := "mod_tok";
              Credentials.access_level := AccessLevel.READ_ONLY;
              Credentials.path := []; Credentials.type := "core";
              Credentials.enabled := false; Credentials.created_at := 5%Z;
              Credentials.last_access := 5%Z; Credentials.access_count := 3%Z |} in
  (exists c', result_of (Credentials.with_updated_access demo_rt c (Some 0%Z) (Some 0%Z) World0)
                = Return c' /\
              Credentials.access_count c' = 4%Z /\ Credentials.last_access c' = 1000%Z) /\
  (exists c', result_of (Credentials.with_updated_access demo_rt c (Some 77%Z) (Some 7%Z) World0)
                = Return c' /\
              Credentials.access_count c' = 7%Z /\ Credentials.last_access c' = 77%Z).
Proof.
  intros c. split.
  - destruct (with_updated_access_zero_as_absent demo_rt c (Some 0%Z) (Some 0%Z) World0)
      as (c' & w' & Hc & _ & _ & Hn & _ & Ht).
    exists c'. split; [exact (f_equal fst Hc)|].
    rewrite Hn, Ht by (left; reflexivity). split; reflexivity.
  - destruct (with_updated_access_zero_as_absent demo_rt c (Some 77%Z) (Some 7%Z) World0)
      as (c' & w' & Hc & _ & Hn & _ & Ht & _).
    exists c'. split; [exact (f_equal fst Hc)|].
    rewrite (Hn 7%Z eq_refl), (Ht 77%Z eq_refl) by discriminate. split; reflexivity.
Defined.

(** ** [ProtectedStore] *)

Section StoreFacts.
Variable rt : Runtime.
Variable V : Type.

Import ProtectedStore.

(** A caller that passes the check of the store and stands at most two
    frames behind the store method is let through. *)
Lemma check_second (s : t V) (x f : frame) (st : list frame) :
  _is_access_allowed s (f_self f) = true ->
  _check_access_allowed s (x :: f :: st) = Return tt.
Proof.
  intros H. unfold _check_access_allowed. simpl. rewrite H.
  now rewrite orb_true_r.
Qed.

Lemma check_third (s : t V) (x y f : frame) (st : list frame) :
  _is_access_allowed s (f_self f) = true ->
  _check_access_allowed s (x :: y :: f :: st) = Return tt.
Proof.
  intros H. unfold _check_access_allowed. simpl. rewrite H.
  now rewrite !orb_true_r.
Qed.

Lemma checked_allowed {A} (s : t V) (f : frame) (st : list frame)
    (body : t V -> outcome A * t V) :
  _is_access_allowed s (f_self f) = true ->
  checked rt (f :: st) body s = body s.
Proof.
  intros H. unfold checked. now rewrite check_second.
Qed.

Lemma setitem_allowed (s : t V) (f : frame) (st : list frame) (k : string) (v : V) :
  _is_access_allowed s (f_self f) = true ->
  __setitem__ rt (f :: st) k v s = (Return tt, with_store s (Dict.set k v (_store s))).
Proof.
  intros H. unfold __setitem__, set, checked. now rewrite check_third.
Qed.
End StoreFacts.

Section DictFacts.
Variable V : Type.

Lemma lookup_set_same (k : string) (v : V) (d : Dict.t V) :
  Dict.lookup k (Dict.set k v d) = Some v.
Proof.
  induction d as [|[k' v'] d IH]; simpl.
  - now rewrite String.eqb_refl.
  - destruct (String.eqb_spec k k') as [->|ne]; simpl.
    + now rewrite String.eqb_refl.
    + destruct (String.eqb_spec k k'); [contradiction | exact IH].
Qed.

Lemma lookup_set_other (k k' : string) (v : V) (d : Dict.t V) :
  k <> k' -> Dict.lookup k (Dict.set k' v d) = Dict.lookup k d.
Proof.
  intros ne. induction d as [|[k'' v''] d IH]; simpl.
  - destruct (String.eqb_spec k k'); [contradiction | reflexivity].
  - destruct (String.eqb_spec k' k'') as [->|ne']; simpl.
    + destruct (String.eqb_spec k k''); [contradiction | reflexivity].
    + now rewrite IH.
Qed.

Lemma contains_lookup (k : string) (d : Dict.t V) :
  Dict.contains k d = match Dict.lookup k d with Some _ => true | None => false end.
Proof.
  induction d as [|[k' v'] d IH]; simpl; [reflexivity|].
  destruct (String.eqb k k'); [reflexivity | exact IH].
Qed.

Lemma contains_set (k k' : string) (v : V) (d : Dict.t V) :
  Dict.contains k (Dict.set k' v d) = String.eqb k k' || Dict.contains k d.
Proof.
  induction d as [|[k'' v''] d IH]; simpl.
  - reflexivity.
  - destruct (String.eqb_spec k' k'') as [->|ne']; simpl.
    + now destruct (String.eqb k k'').
    + rewrite IH. now destruct (String.eqb k k'), (String.eqb k k'').
Qed.

End DictFacts.

Lemma table_ok_set (k : string) (c : Credentials.t) (d : Dict.t Credentials.t) :
  Credentials.name c = k -> table_ok d = true -> table_ok (Dict.set k c d) = true.
Proof.
  intros Hk. induction d as [|[k' c'] d IH]; simpl.
  - intros _. subst k. now rewrite String.eqb_refl.
  - rewrite !andb_true_iff, negb_true_iff. intros [[H1 H2] H3].
    destruct (String.eqb_spec k k') as [->|ne]; simpl.
    + rewrite Hk, String.eqb_refl, H2. auto.
    + rewrite H1, contains_set, H2, IH by assumption.
      destruct (String.eqb_spec k' k); [congruence | reflexivity].
Qed.

Lemma table_ok_In (d : Dict.t Credentials.t) (k : string) (c : Credentials.t) :
  table_ok d = true -> In (k, c) d -> Credentials.name c = k.
Proof.
  induction d as [|[k' c'] d IH]; simpl; [intros _ []|].
  rewrite !andb_true_iff. intros [[H1 _] H3] [[= -> ->]|H].
  - now apply String.eqb_eq.
  - now apply IH.
Qed.

(** In a table that is in order, the loops of the manager, which compare the
    name inside each row, find the row that is stored under that name. *)
Lemma table_ok_find (d : Dict.t Credentials.t) (caller : string) (p : Credentials.t -> bool) :
  table_ok d = true ->
  find (fun c => String.eqb (Credentials.name c) caller && p c) (Dict.values d) =
    match Dict.lookup caller d with
    | Some c => if p c then Some c else None
    | None => None
    end.
Proof.
  induction d as [|[k c] d IH]; simpl; [reflexivity|].
  rewrite !andb_true_iff, negb_true_iff. intros [[H1 H2] H3].
  apply String.eqb_eq in H1. subst k. rewrite (String.eqb_sym caller).
  destruct (String.eqb_spec (Credentials.name c) caller) as [<-|ne]; simpl.
  - destruct (p c); [reflexivity|]. rewrite IH by assumption.
    rewrite contains_lookup in H2. now destruct (Dict.lookup _ d).
  - now apply IH.
Qed.


(** ** [CredentialManager] *)

Section ManagerFacts.
Variable rt : Runtime.
Variable E : Type.

Import CredentialManager.

Lemma values_guarded (h : Heap E) (st : list frame) :
  guarded h = true ->
  in_credentials (ProtectedStore.values rt (manager_frame rt h :: st)) h =
    (Return (Dict.values (table h)), h).
Proof.
  intros G. destruct h as [w [ms mc mr cbs] e].
  unfold in_credentials, zoom, ProtectedStore.values. cbn.
  rewrite checked_allowed by exact G. destruct mc; reflexivity.
Qed.

Lemma enable_present (h : Heap E) (st : list frame) (c : Credentials.t) :
  guarded h = true ->
  Dict.contains (Credentials.name c) (table h) = true ->
  _enableCredentials rt st c h = (Return (used c (now rt h)), after_use rt c h).
Proof.
  intros G P. destruct h as [w [ms mc mr cbs] e].
  unfold guarded, table in *. cbn in G, P.
  unfold _enableCredentials, bind, own, gets, in_world, in_credentials, zoom,
    Credentials.with_updated_access, or_else, call_time_time, ret. cbn.
  unfold ProtectedStore.__contains__.
  rewrite checked_allowed by exact G. rewrite P.
  unfold after_use, put_table, later, stored_time, now, table, used. cbn.
  destruct (Z.eqb_spec (time_time rt (time_calls w)) 0) as [Z0|NZ]; cbn;
    destruct (Z.eqb (Credentials.access_count c + 1) 0); cbn;
    rewrite setitem_allowed by exact G; reflexivity.
Qed.

Lemma table_ok_lookup (d : Dict.t Credentials.t) (k : string) (c : Credentials.t) :
  table_ok d = true -> Dict.lookup k d = Some c -> Credentials.name c = k.
Proof.
  induction d as [|[k' c'] d IH]; simpl; [discriminate|].
  rewrite !andb_true_iff. intros [[H1 _] H3].
  destruct (String.eqb_spec k k') as [->|ne].
  - intros [= ->]. now apply String.eqb_eq.
  - now apply IH.
Qed.

(** The chain of [if]/[elif] in [getCredential] is the table of the
    specification. *)
Lemma level_permits_table (level : AccessLevel.t) (op : AccessOperation.t) :
  level_permits level op = table_permits level op.
Proof. now destruct level, op. Qed.

Lemma getCredential_loop_find (st : list frame) (caller : string)
    (op : AccessOperation.t) (values : list Credentials.t) (h : Heap E) :
  getCredential_loop rt st caller op values h =
    match find (fun c => String.eqb (Credentials.name c) caller
                         && level_permits (Credentials.access_level c) op) values with
    | Some c => _enableCredentials rt st c h
    | None => (Raise (ValueError ("Invalid credential: " ++ caller ++ " for operation: "
                                  ++ AccessOperation.to_string op)%string), h)
    end.
Proof.
  induction values as [|c values IH]; [reflexivity|].
  cbn [getCredential_loop find].
  destruct (String.eqb (Credentials.name c) caller); cbn [negb andb]; [|exact IH].
  destruct (level_permits _ op); [reflexivity | exact IH].
Qed.

(** What [getCredential] does in a manager that is in order. *)
Lemma getCredential_spec (h : Heap E) (st : list frame) (op : AccessOperation.t) :
  manager_ok h = true ->
  getCredential rt st op h =
    match resolved_caller rt h st with
    | Raise e => (Raise e, h)
    | Return pathinfo =>
        let caller := PathInfo.name pathinfo in
        let invalid := ValueError ("Invalid credential: " ++ caller ++ " for operation: "
                                   ++ AccessOperation.to_string op)%string in
        match Dict.lookup caller (table h) with
        | Some c =>
            if table_permits (Credentials.access_level c) op
            then (Return (used c (now rt h)), after_use rt c h)
            else (Raise invalid, h)
        | None => (Raise invalid, h)
        end
    end.
Proof.
  intros OK. apply andb_true_iff in OK. destruct OK as [G T].
  unfold getCredential, bind, own, gets, lift. cbv beta iota.
  fold (manager_frame rt h). fold (resolved_caller rt h st).
  destruct (resolved_caller rt h st) as [pathinfo|e]; [|reflexivity].
  rewrite values_guarded by exact G.
  rewrite getCredential_loop_find, table_ok_find by exact T. cbv zeta.
  destruct (Dict.lookup (PathInfo.name pathinfo) (table h)) as [c|] eqn:L; [|reflexivity].
  rewrite level_permits_table.
  destruct (table_permits _ op); [|reflexivity].
  apply enable_present; [exact G|].
  rewrite contains_lookup, (table_ok_lookup _ _ T L), L. reflexivity.
Qed.

Lemma resolved_caller_again (h : Heap E) (st : list frame) :
  resolved_caller rt h (manager_frame rt h :: st) = resolved_caller rt h st.
Proof. unfold resolved_caller. now apply getPathInfo_same_file. Qed.

(** What [validate] does in a manager that is in order: it never raises;
    it answers by the table; it leaves the heap alone when the answer is
    [False] and updates the statistics of the caller's row when it is
    [True]. *)
Lemma validate_spec (h : Heap E) (st : list frame) (op : AccessOperation.t) :
  manager_ok h = true ->
  validate rt st op h =
    match resolved_caller rt h st with
    | Raise _ => (Return false, h)
    | Return pathinfo =>
        match Dict.lookup (PathInfo.name pathinfo) (table h) with
        | Some c =>
            if table_permits (Credentials.access_level c) op
            then (Return true, after_use rt c h)
            else (Return false, h)
        | None => (Return false, h)
        end
    end.
Proof.
  intros OK. unfold validate, bind, try_except, own, gets. cbv beta iota.
  fold (manager_frame rt h).
  rewrite getCredential_spec by exact OK. rewrite resolved_caller_again.
  destruct (resolved_caller rt h st) as [pathinfo|e] eqn:R.
  - cbv zeta. destruct (Dict.lookup _ (table h)) as [c|]; [|reflexivity].
    destruct (table_permits _ op); reflexivity.
  - unfold resolved_caller in R. now rewrite (getPathInfo_raises _ _ _ R).
Qed.

(** The callbacks never make [register] raise, and they leave the
    manager as it is. *)
Lemma run_callbacks_spec (st : list frame) (c : Credentials.t)
    (callbacks : list (callback E)) (h : Heap E) :
  exists w e,
    run_callbacks st c callbacks h =
      (Return tt, {| world := w; manager := manager h; external := e |}).
Proof.
  revert h; induction callbacks as [|cb callbacks IH]; intros h.
  - exists (world h), (external h). now destruct h.
  - cbn [run_callbacks]. unfold bind, try_except, in_callback, zoom.
    destruct (cb_call cb st c (world h, external h)) as [[[]|x] [w e]];
      cbv beta iota; cbn [fst snd]; unfold ret;
      destruct (IH {| world := w; manager := manager h; external := e |})
        as (w' & e' & ->); now exists w', e'.
Qed.

(** What [register] does. *)
Lemma register_spec (h : Heap E) (st : list frame) (level : AccessLevel.t) :
  guarded h = true ->
  register rt st level h =
    match resolved_caller rt h st with
    | Raise e => (Raise e, h)
    | Return pathinfo =>
        if AccessLevel.eqb level AccessLevel.ADMIN && negb (canEscalateToAdmin pathinfo)
        then (Raise (ValueError ("Admin access level is not allowed for caller: "
                                 ++ PathInfo.name pathinfo)%string), h)
        else (Return (issued rt pathinfo level h),
              state_of (run_callbacks (manager_frame rt h :: st)
                          (issued rt pathinfo level h)
                          (_register_callbacks (manager h))
                          (after_issue rt pathinfo level h)))
    end.
Proof.
  intros G. unfold register, bind, own, gets, lift. cbv beta iota.
  fold (manager_frame rt h). fold (resolved_caller rt h st).
  destruct (resolved_caller rt h st) as [pathinfo|e]; [|reflexivity].
  destruct (AccessLevel.eqb level AccessLevel.ADMIN && negb (canEscalateToAdmin pathinfo));
    [reflexivity|].
  destruct h as [w [ms mc mr cbs] e].
  unfold in_world, in_credentials, zoom, call_token_urlsafe, Credentials.new, bind,
    call_time_time, ret. cbn.
  rewrite setitem_allowed by exact G.
  unfold manager_frame, after_issue, put_table, issued, table. cbn.
  match goal with
  | |- context [run_callbacks ?a ?b ?c ?d] =>
      destruct (run_callbacks_spec a b c d) as (w' & e' & ->)
  end.
  reflexivity.
Qed.

Lemma getKey_state (h : Heap E) (st : list frame) :
  guarded h = true -> state_of (getKey rt st h) = h.
Proof.
  intros G. unfold getKey, bind, own, gets, lift. cbv beta iota.
  fold (manager_frame rt h).
  destruct (PathResolver.getPathInfo _ _ _) as [pathinfo|e]; [|reflexivity].
  rewrite values_guarded by exact G.
  generalize (Dict.values (table h)). intros values.
  induction values as [|c values IH]; [reflexivity|].
  cbn [getKey_loop]. now destruct (String.eqb _ _).
Qed.

Lemma get_credential_count_state (h : Heap E) (st : list frame) :
  guarded h = true -> state_of (get_credential_count rt st h) = h.
Proof.
  intros G. destruct h as [w [ms mc mr cbs] e].
  unfold get_credential_count, bind, own, gets, in_credentials, zoom,
    ProtectedStore.__len__. cbn.
  rewrite checked_allowed by exact G. now destruct mc.
Qed.

Lemma has_credential_state (h : Heap E) (st : list frame) (name : string) :
  guarded h = true -> state_of (has_credential rt st name h) = h.
Proof.
  intros G. destruct h as [w [ms mc mr cbs] e].
  unfold has_credential, bind, own, gets, in_credentials, zoom,
    ProtectedStore.__contains__. cbn.
  rewrite checked_allowed by exact G. now destruct mc.
Qed.

(** *** The invariant *)

Lemma manager_ok_after_use (h : Heap E) (c : Credentials.t) :
  manager_ok h = true -> manager_ok (after_use rt c h) = true.
Proof.
  unfold manager_ok. rewrite !andb_true_iff. intros [G T]. split.
  - exact G.
  - unfold after_use, put_table, table. cbn. now apply table_ok_set.
Qed.

Lemma manager_ok_elsewhere (h : Heap E) (w : World) (e : E) :
  manager_ok h = true ->
  manager_ok {| world := w; manager := manager h; external := e |} = true.
Proof. intros OK; exact OK. Qed.

Lemma manager_ok_init (roots : PathResolver.roots) (w w' : World) (m : t E) (e : E) :
  __init__ rt E roots w = (Return m, w') ->
  manager_ok {| world := w'; manager := m; external := e |} = true.
Proof.
  cbv beta iota delta [__init__ bind new_object ProtectedStore.__init__ ret].
  destruct (PathResolver.__init__ rt roots _) as [[r|x] w'']; [|discriminate].
  intros [= <- <-]. unfold manager_ok, guarded, table. cbn.
  unfold is_. cbn. now rewrite Nat.eqb_refl.
Qed.

Lemma manager_ok_validate (h : Heap E) (st : list frame) (op : AccessOperation.t) :
  manager_ok h = true -> manager_ok (state_of (validate rt st op h)) = true.
Proof.
  intros OK. rewrite validate_spec by exact OK.
  destruct (resolved_caller rt h st) as [pathinfo|e]; [|exact OK].
  destruct (Dict.lookup _ (table h)) as [c|]; [|exact OK].
  destruct (table_permits _ op); [|exact OK].
  now apply manager_ok_after_use.
Qed.

Lemma manager_ok_getCredential (h : Heap E) (st : list frame) (op : AccessOperation.t) :
  manager_ok h = true -> manager_ok (state_of (getCredential rt st op h)) = true.
Proof.
  intros OK. rewrite getCredential_spec by exact OK.
  destruct (resolved_caller rt h st) as [pathinfo|e]; [|exact OK].
  cbv zeta. destruct (Dict.lookup _ (table h)) as [c|]; [|exact OK].
  destruct (table_permits _ op); [|exact OK].
  now apply manager_ok_after_use.
Qed.

Lemma manager_ok_register (h : Heap E) (st : list frame) (level : AccessLevel.t) :
  manager_ok h = true -> manager_ok (state_of (register rt st level h)) = true.
Proof.
  intros OK. pose proof OK as OK'. apply andb_true_iff in OK'. destruct OK' as [G T].
  rewrite register_spec by exact G.
  destruct (resolved_caller rt h st) as [pathinfo|e]; [|exact OK].
  destruct (_ && _); [exact OK|].
  match goal with
  | |- context [run_callbacks ?a ?b ?c ?d] =>
      destruct (run_callbacks_spec a b c d) as (w' & e' & ->)
  end.
  unfold state_of. cbn [snd]. apply manager_ok_elsewhere.
  unfold manager_ok. apply andb_true_iff. split; [exact G|].
  unfold after_issue, put_table, table. cbn. now apply table_ok_set.
Qed.

Lemma manager_ok_setRegisterCallback (h : Heap E) (cb : callback E) :
  manager_ok h = true -> manager_ok (state_of (setRegisterCallback cb h)) = true.
Proof.
  intros OK. unfold setRegisterCallback, modify, state_of. cbn [snd].
  destruct (existsb _ _); exact OK.
Qed.

(** Every reachable manager is in order. *)
Lemma reachable_manager_ok (h : Heap E) : reachable rt h -> manager_ok h = true.
Proof.
  induction 1 as [roots w m w' e Hinit | h w e _ IH | h cb _ IH | h st _ IH
                 | h st name _ IH | h st level _ IH | h st op _ IH | h st _ IH
                 | h st op _ IH].
  - exact (manager_ok_init _ _ e Hinit).
  - exact IH.
  - now apply manager_ok_setRegisterCallback.
  - rewrite get_credential_count_state; [exact IH|].
    apply andb_true_iff in IH. tauto.
  - rewrite has_credential_state; [exact IH|].
    apply andb_true_iff in IH. tauto.
  - now apply manager_ok_register.
  - now apply manager_ok_validate.
  - rewrite getKey_state; [exact IH|].
    apply andb_true_iff in IH. tauto.
  - now apply manager_ok_getCredential.
Qed.
End ManagerFacts.


Lemma canEscalateToAdmin_occurs (pathinfo : PathInfo.t) :
  CredentialManager.canEscalateToAdmin pathinfo = true <->
  ~ occurs_in "plugin" (PathInfo.type pathinfo) /\
  ~ occurs_in "unknown" (PathInfo.type pathinfo).
Proof.
  unfold CredentialManager.canEscalateToAdmin.
  rewrite <- !str_in_occurs.
  destruct (str_in "plugin" _), (str_in "unknown" _); simpl; intuition congruence.
Qed.

(** C3 (as the code has it).  For a caller that the resolver identifies,
    [register(ADMIN)] returns a credential if and only if neither [plugin]
    nor [unknown] occurs in the resolved zone as a substring; otherwise it
    raises [ValueError], the permission error of [register]. *)
Theorem register_admin_escalation (rt : Runtime) (E : Type) (h : CredentialManager.Heap E)
    (st : list frame) (pathinfo : PathInfo.t) :
  guarded h = true ->
  resolved_caller rt h st = Return pathinfo ->
  ((exists c, result_of (CredentialManager.register rt st AccessLevel.ADMIN h) = Return c)
   <-> ~ occurs_in "plugin" (PathInfo.type pathinfo) /\
       ~ occurs_in "unknown" (PathInfo.type pathinfo)) /\
  (occurs_in "plugin" (PathInfo.type pathinfo) \/
   occurs_in "unknown" (PathInfo.type pathinfo) ->
   exists msg,
     CredentialManager.register rt st AccessLevel.ADMIN h = (Raise (ValueError msg), h)).
Proof.
  intros G R. rewrite register_spec by exact G. rewrite R.
  rewrite <- canEscalateToAdmin_occurs. cbn [AccessLevel.eqb andb].
  destruct (CredentialManager.canEscalateToAdmin pathinfo) eqn:C; cbn [negb].
  - split.
    + split; [reflexivity | intros _; eexists; reflexivity].
    + apply canEscalateToAdmin_occurs in C. tauto.
  - split.
    + split; [intros [c H]; discriminate | discriminate].
    + intros _. eexists. reflexivity.
Qed.

Lemma not_occurs_in (sub s : string) : str_in sub s = false -> ~ occurs_in sub s.
Proof. intros H O. apply str_in_occurs in O. congruence. Qed.

(** A caller under [/core] may register as administrator. *)
Lemma register_admin_escalation_core :
  let h := demo_heap ["/core"] in
  let pathinfo := {| PathInfo.name := "A";
                     PathInfo.path := ["/"; "core"; "A"; "main.py"];
                     PathInfo.type := "core" |} in
  guarded h = true /\
  resolved_caller demo_rt h caller_A = Return pathinfo /\
  exists c, result_of (CredentialManager.register demo_rt caller_A AccessLevel.ADMIN h)
            = Return c.
Proof.
  intros h pathinfo. split; [reflexivity | split; [reflexivity|]].
  apply (proj1 (@register_admin_escalation demo_rt KVStore.t h caller_A pathinfo
                  eq_refl eq_refl)).
  split; apply not_occurs_in; reflexivity.
Defined.

(** C3 (as stated) fails: the zone [unknown_zone] neither contains [plugin]
    nor equals [unknown], and yet [register(ADMIN)] is refused. *)
Lemma register_admin_refused_in_unknown_zone :
  let h := demo_heap ["/srv/unknown_zone"] in
  let st := called_from "/srv/unknown_zone/mod/x.py" in
  boot demo_rt (PathResolver.StrList ["/srv/unknown_zone"]) = Return h /\
  exists pathinfo,
    resolved_caller demo_rt h st = Return pathinfo /\
    PathInfo.type pathinfo = "unknown_zone" /\
    ~ occurs_in "plugin" (PathInfo.type pathinfo) /\
    PathInfo.type pathinfo <> "unknown" /\
    result_of (CredentialManager.register demo_rt st AccessLevel.ADMIN h) =
      Raise (ValueError "Admin access level is not allowed for caller: mod").
Proof.
  intros h st. split; [reflexivity|].
  eexists. split; [reflexivity|]. split; [reflexivity|].
  split; [apply not_occurs_in; reflexivity|]. split; [discriminate | reflexivity].
Qed.

(** C5.  In a manager that is in order, [validate(op)] answers by the
    table of the specification for the row stored under the resolved
    caller's name, and [False] for a caller that has no row or that the
    resolver cannot identify. *)
Theorem validate_by_table (rt : Runtime) (E : Type) (h : CredentialManager.Heap E)
    (st : list frame) (op : AccessOperation.t) :
  manager_ok h = true ->
  result_of (CredentialManager.validate rt st op h) =
    Return match resolved_caller rt h st with
           | Return pathinfo =>
               match Dict.lookup (PathInfo.name pathinfo) (table h) with
               | Some c => table_permits (Credentials.access_level c) op
               | None => false
               end
           | Raise _ => false
           end.
Proof.
  intros OK. rewrite validate_spec by exact OK.
  destruct (resolved_caller rt h st) as [pathinfo|e]; [|reflexivity].
  destruct (Dict.lookup _ (table h)) as [c|]; [|reflexivity].
  now destruct (table_permits _ op).
Qed.

(** With [A] registered as [READ_WRITE] and [B] as [READ_ONLY]: [B] may
    read and may not write, [A] may write; a caller under [/core] without a
    row and a caller outside [/core] get [False]. *)
Lemma validate_by_table_examples :
  manager_ok demo_registered = true /\
  result_of (CredentialManager.validate demo_rt caller_B AccessOperation.READ
               demo_registered) = Return true /\
  result_of (CredentialManager.validate demo_rt caller_B AccessOperation.WRITE
               demo_registered) = Return false /\
  result_of (CredentialManager.validate demo_rt caller_A AccessOperation.WRITE
               demo_registered) = Return true /\
  result_of (CredentialManager.validate demo_rt (called_from "/core/C/main.py")
               AccessOperation.READ demo_registered) = Return false /\
  result_of (CredentialManager.validate demo_rt (called_from "/tmp/x.py")
               AccessOperation.READ demo_registered) = Return false.
Proof.
  pose proof (fun st op =>
                @validate_by_table demo_rt KVStore.t demo_registered st op eq_refl) as V.
  split; [reflexivity|].
  split; [rewrite V; reflexivity|].
  split; [rewrite V; reflexivity|].
  split; [rewrite V; reflexivity|].
  split; rewrite V; reflexivity.
Defined.

Section AfterUse.
Variable rt : Runtime.
Variable E : Type.

Import CredentialManager.

Lemma table_after_use (h : Heap E) (c : Credentials.t) :
  table (after_use rt c h) =
    Dict.set (Credentials.name c) (used c (stored_time rt h)) (table h).
Proof. reflexivity. Qed.

(** The stat update touches one row of the table, the clock, and nothing
    else. *)
Lemma after_use_frame (h : Heap E) (c : Credentials.t) :
  Dict.lookup (Credentials.name c) (table (after_use rt c h))
    = Some (used c (stored_time rt h)) /\
  (forall k, k <> Credentials.name c ->
     Dict.lookup k (table (after_use rt c h)) = Dict.lookup k (table h)) /\
  external (after_use rt c h) = external h /\
  self (manager (after_use rt c h)) = self (manager h) /\
  path_resolver (manager (after_use rt c h)) = path_resolver (manager h) /\
  _register_callbacks (manager (after_use rt c h)) = _register_callbacks (manager h).
Proof.
  rewrite table_after_use. split; [apply lookup_set_same|].
  split; [intros k ne; now apply lookup_set_other|].
  repeat split.
Qed.
End AfterUse.

(** C2 (as the code has it).  In a manager that is in order, [validate(op)]
    never raises.  When it answers [False] (the caller is not identified,
    has no row, or its level does not permit [op]) it leaves the heap as it
    was.  When it answers [True] it replaces the caller's row [c] by [c]
    with [enabled = True], [access_count + 1] and a new [last_access]; the
    other rows, the resolver, the callbacks and the objects outside the
    manager are as before. *)
Theorem validate_never_raises (rt : Runtime) (E : Type) (h : CredentialManager.Heap E)
    (st : list frame) (op : AccessOperation.t) :
  manager_ok h = true ->
  exists answer : bool,
    result_of (CredentialManager.validate rt st op h) = Return answer /\
    (answer = false -> state_of (CredentialManager.validate rt st op h) = h) /\
    (answer = true ->
     exists pathinfo c,
       resolved_caller rt h st = Return pathinfo /\
       Dict.lookup (PathInfo.name pathinfo) (table h) = Some c /\
       state_of (CredentialManager.validate rt st op h) = after_use rt c h /\
       Dict.lookup (PathInfo.name pathinfo) (table (after_use rt c h))
         = Some (used c (stored_time rt h)) /\
       (forall k, k <> PathInfo.name pathinfo ->
          Dict.lookup k (table (after_use rt c h)) = Dict.lookup k (table h)) /\
       CredentialManager.external (after_use rt c h) = CredentialManager.external h).
Proof.
  intros OK. rewrite validate_spec by exact OK.
  destruct (resolved_caller rt h st) as [pathinfo|e];
    [|exists false; repeat split; discriminate].
  destruct (Dict.lookup _ (table h)) as [c|] eqn:L;
    [|exists false; repeat split; discriminate].
  destruct (table_permits _ op);
    [|exists false; repeat split; discriminate].
  exists true. split; [reflexivity|]. split; [discriminate|]. intros _.
  exists pathinfo, c. split; [reflexivity|]. split; [exact L|].
  split; [reflexivity|].
  assert (N : Credentials.name c = PathInfo.name pathinfo).
  { apply andb_true_iff in OK. destruct OK as [_ T].
    exact (table_ok_lookup _ _ T L). }
  destruct (after_use_frame rt h c) as (H1 & H2 & H3 & _).
  rewrite <- N. auto.
Qed.

(** [B] validates a read and a write: both calls return, the first one
    with [True]. *)
Lemma validate_never_raises_examples :
  manager_ok demo_registered = true /\
  (exists answer,
     result_of (CredentialManager.validate demo_rt caller_B AccessOperation.READ
                  demo_registered) = Return answer) /\
  state_of (CredentialManager.validate demo_rt caller_B AccessOperation.WRITE
              demo_registered) = demo_registered.
Proof.
  split; [reflexivity|]. split.
  - destruct (@validate_never_raises demo_rt KVStore.t demo_registered caller_B
                AccessOperation.READ eq_refl) as (answer & H & _).
    now exists answer.
  - destruct (@validate_never_raises demo_rt KVStore.t demo_registered caller_B
                AccessOperation.WRITE eq_refl) as (answer & H & Hfalse & _).
    apply Hfalse.
    assert (R : Return answer = Return false :> outcome bool)
      by (rewrite <- H; reflexivity).
    now injection R.
Defined.

(** C2 (as stated) fails: a [validate(READ)] by the registered caller [B]
    changes the row of [B]. *)
Lemma validate_changes_the_row :
  let h' := state_of (CredentialManager.validate demo_rt caller_B AccessOperation.READ
                        demo_registered) in
  result_of (CredentialManager.validate demo_rt caller_B AccessOperation.READ
               demo_registered) = Return true /\
  option_map Credentials.access_count (Dict.lookup "B" (table demo_registered)) = Some 0%Z /\
  option_map Credentials.access_count (Dict.lookup "B" (table h')) = Some 1%Z /\
  option_map Credentials.enabled (Dict.lookup "B" (table demo_registered)) = Some false /\
  option_map Credentials.enabled (Dict.lookup "B" (table h')) = Some true /\
  option_map Credentials.last_access (Dict.lookup "B" (table demo_registered))
    = Some 1003%Z /\
  option_map Credentials.last_access (Dict.lookup "B" (table h')) = Some 1004%Z /\
  table h' <> table demo_registered.
Proof.
  intros h'. repeat split; try (vm_compute; reflexivity).
  intros H.
  apply (f_equal (fun d => option_map Credentials.access_count (Dict.lookup "B" d))) in H.
  vm_compute in H. discriminate.
Qed.

(** C6.  For a caller with a row [c] whose level permits [op],
    [getCredential(op)] (the [fetch] of the specification) returns [c] with
    [enabled = True], [last_access] the current time and
    [access_count + 1], and stores under the caller's name a row with the
    same statistics (its [last_access] the current time, or the next
    reading of the clock were the first one zero); name, key, level, zone,
    path and creation time are those of [c] in both, and the other rows do
    not change. *)
Theorem getCredential_updates_stats (rt : Runtime) (E : Type)
    (h : CredentialManager.Heap E) (st : list frame) (op : AccessOperation.t)
    (pathinfo : PathInfo.t) (c : Credentials.t) :
  manager_ok h = true ->
  resolved_caller rt h st = Return pathinfo ->
  Dict.lookup (PathInfo.name pathinfo) (table h) = Some c ->
  table_permits (Credentials.access_level c) op = true ->
  exists c' row h',
    CredentialManager.getCredential rt st op h = (Return c', h') /\
    Credentials.enabled c' = true /\
    Credentials.last_access c' = now rt h /\
    Credentials.access_count c' = (Credentials.access_count c + 1)%Z /\
    Dict.lookup (PathInfo.name pathinfo) (table h') = Some row /\
    Credentials.enabled row = true /\
    Credentials.access_count row = (Credentials.access_count c + 1)%Z /\
    Credentials.last_access row = stored_time rt h /\
    (now rt h <> 0%Z -> row = c') /\
    (forall x, In x [c'; row] ->
       Credentials.name x = Credentials.name c /\
       Credentials.key x = Credentials.key c /\
       Credentials.access_level x = Credentials.access_level c /\
       Credentials.type x = Credentials.type c /\
       Credentials.path x = Credentials.path c /\
       Credentials.created_at x = Credentials.created_at c) /\
    (forall k, k <> PathInfo.name pathinfo ->
       Dict.lookup k (table h') = Dict.lookup k (table h)).
Proof.
  intros OK R L P. rewrite getCredential_spec by exact OK. rewrite R. cbv zeta.
  rewrite L, P.
  assert (N : Credentials.name c = PathInfo.name pathinfo).
  { apply andb_true_iff in OK. destruct OK as [_ T].
    exact (table_ok_lookup _ _ T L). }
  destruct (after_use_frame rt h c) as (H1 & H2 & _).
  rewrite N in H1, H2.
  exists (used c (now rt h)), (used c (stored_time rt h)), (after_use rt c h).
  repeat (split; [reflexivity|]). split; [exact H1|].
  repeat (split; [reflexivity|]).
  split.
  - intros NZ. unfold stored_time. apply Z.eqb_neq in NZ. now rewrite NZ.
  - split; [|exact H2].
    intros x [<-|[<-|[]]]; repeat split.
Qed.

(** [B] fetches its credential for a read. *)
Lemma getCredential_updates_stats_example :
  let c := {| Credentials.name := "B"; Credentials.key := "B_tokx";
              Credentials.access_level := AccessLevel.READ_ONLY;
              Credentials.path := ["/"; "core"; "B"; "main.py"];
              Credentials.type := "core"; Credentials.enabled := false;
              Credentials.created_at := 1002%Z; Credentials.last_access := 1003%Z;
              Credentials.access_count := 0%Z |} in
  Dict.lookup "B" (table demo_registered) = Some c /\
  exists c' h',
    CredentialManager.getCredential demo_rt caller_B AccessOperation.READ demo_registered
      = (Return c', h') /\
    Credentials.enabled c' = true /\
    Credentials.last_access c' = 1004%Z /\
    Credentials.access_count c' = 1%Z /\
    Dict.lookup "B" (table h') = Some c'.
Proof.
  intros c. split; [reflexivity|].
  destruct (@getCredential_updates_stats demo_rt KVStore.t demo_registered caller_B
              AccessOperation.READ
              {| PathInfo.name := "B"; PathInfo.path := ["/"; "core"; "B"; "main.py"];
                 PathInfo.type := "core" |} c eq_refl eq_refl eq_refl eq_refl)
    as (c' & row & h' & Hrun & He & Hl & Hc & Hrow & _ & _ & _ & Hsame & _).
  exists c', h'. repeat (split; [assumption|]).
  cbn [PathInfo.name] in Hrow. rewrite Hrow. f_equal. apply Hsame. discriminate.
Defined.

(** C9.  In every heap reachable through the constructor and the public
    methods of the manager, each row of the credential table holds the name
    under which it is stored. *)
Theorem stored_name_is_table_key (rt : Runtime) (E : Type)
    (h : CredentialManager.Heap E) (k : string) (c : Credentials.t) :
  reachable rt h -> In (k, c) (table h) -> Credentials.name c = k.
Proof.
  intros R. apply table_ok_In.
  apply reachable_manager_ok in R. apply andb_true_iff in R. tauto.
Qed.


(** ** [KVStore] *)

Section KVStoreFacts.
Variable rt : Runtime.

Import CredentialManager.

Lemma set_allowed (V : Type) (s : ProtectedStore.t V) (f : frame) (st : list frame)
    (k : string) (v : V) :
  ProtectedStore._is_access_allowed s (f_self f) = true ->
  ProtectedStore.set rt (f :: st) k v s = (Return tt, ProtectedStore.with_store s (Dict.set k v (ProtectedStore._store s))).
Proof. intros H. unfold ProtectedStore.set. now rewrite checked_allowed. Qed.

Lemma get_allowed (V : Type) (s : ProtectedStore.t V) (f : frame) (st : list frame)
    (k : string) (default : option V) :
  ProtectedStore._is_access_allowed s (f_self f) = true ->
  ProtectedStore.get rt (f :: st) k default s =
    (Return match Dict.lookup k (ProtectedStore._store s) with
            | Some v => Some v
            | None => default
            end, s).
Proof. intros H. unfold ProtectedStore.get. now rewrite checked_allowed. Qed.

(** After [validate] the manager is in order; the resolver, the callbacks
    and the objects outside the manager are as before. *)
Lemma validate_cases (E : Type) (h : Heap E) (st : list frame) (op : AccessOperation.t) :
  manager_ok h = true ->
  exists answer h1,
    validate rt st op h = (Return answer, h1) /\
    manager_ok h1 = true /\
    external h1 = external h /\
    path_resolver (manager h1) = path_resolver (manager h) /\
    _register_callbacks (manager h1) = _register_callbacks (manager h).
Proof.
  intros OK. rewrite validate_spec by exact OK.
  destruct (resolved_caller rt h st) as [pathinfo|e];
    [|exists false, h; auto].
  destruct (Dict.lookup _ (table h)) as [c|]; [|exists false, h; auto].
  destruct (table_permits _ op); [|exists false, h; auto].
  exists true, (after_use rt c h). split; [reflexivity|].
  split; [now apply manager_ok_after_use | repeat split].
Qed.

Lemma system_ok_transfer (h1 h2 : KVStore.Heap) :
  system_ok rt h1 ->
  manager_ok h2 = true ->
  _register_callbacks (manager h2) = _register_callbacks (manager h1) ->
  same_stores (external h1) (external h2) ->
  system_ok rt h2.
Proof.
  intros (_ & G & S) OK C (Hs & Hc & _ & Hw & Ho). split; [exact OK|]. split.
  - unfold kv_guarded, ProtectedStore._is_access_allowed in *. cbv zeta in *.
    now rewrite Hs, Hc, Hw, Ho.
  - unfold subscribed, KVStore.callback_of in *. now rewrite C, S, Hs.
Qed.

Lemma same_stores_refl (kv : KVStore.t) : same_stores kv kv.
Proof. repeat split. Qed.

(** C1 (as the code has it).  [shared_set(k, v)] calls [validate(WRITE)]
    and drops the answer: in a system that is in order the call returns
    normally for every caller, registered or not and whatever its level,
    and afterwards the shared read-write store holds [v] under [k]. *)
Theorem shared_set_ignores_validate (h : KVStore.Heap) (st : list frame) (k v : string) :
  system_ok rt h ->
  result_of (KVStore.shared_set rt st k v h) = Return tt /\
  Dict.lookup k (shared_read_write (state_of (KVStore.shared_set rt st k v h))) = Some v.
Proof.
  intros (OK & G & _).
  unfold KVStore.shared_set, bind, KVStore.own, gets. cbv beta iota.
  fold (kv_frame rt h).
  destruct (validate_cases h (kv_frame rt h :: st) AccessOperation.WRITE OK)
    as (answer & h1 & -> & _ & Hext & _).
  unfold KVStore.in_shared_read_write_store, zoom. rewrite Hext.
  unfold kv_guarded in G. cbv zeta in G. rewrite !andb_true_iff in G.
  destruct G as [[[_ _] Grw] _].
  rewrite set_allowed by exact Grw.
  split; [reflexivity|]. unfold state_of, shared_read_write. cbn.
  apply lookup_set_same.
Qed.

(** The callback of the store puts a new, empty private store under the
    name of the credential. *)
Lemma on_credential_registered_spec (st : list frame) (c : Credentials.t)
    (w : World) (kv : KVStore.t) :
  ProtectedStore._is_access_allowed (KVStore._caller_storages kv)
    (Some (KVStore.self kv)) = true ->
  exists w' kv',
    KVStore._on_credential_registered rt st c (w, kv) = (Return tt, (w', kv')) /\
    same_stores kv kv' /\
    Dict.lookup (Credentials.name c) (ProtectedStore._store (KVStore._caller_storages kv'))
      = Some {| ProtectedStore.self := PyObj (next_id w) "ProtectedStore";
                ProtectedStore._store := Dict.empty;
                ProtectedStore._allowed_accessor := ProtectedStore.Class "KVStore" |}.
Proof.
  intros G. destruct kv as [ks cs rw ro].
  cbv beta iota zeta delta [KVStore._on_credential_registered bind gets zoom
                       ProtectedStore.__init__ new_object ret fst snd
                       KVStore.self KVStore._caller_storages
                       KVStore._shared_read_write_store KVStore._shared_read_only_store].
  rewrite set_allowed by exact G.
  do 2 eexists. split; [reflexivity|]. split; [repeat split|].
  cbn. apply lookup_set_same.
Qed.

(** [register] in a system that is in order: the system stays in order and
    the caller has a new, empty private store. *)
Lemma register_subscribed (h h' : KVStore.Heap) (st : list frame)
    (level : AccessLevel.t) (c : Credentials.t) :
  system_ok rt h ->
  register rt st level h = (Return c, h') ->
  system_ok rt h' /\
  path_resolver (manager h') = path_resolver (manager h) /\
  exists s,
    caller_storage h' (Credentials.name c) = Some s /\
    ProtectedStore._store s = Dict.empty /\
    ProtectedStore._allowed_accessor s = ProtectedStore.Class "KVStore".
Proof.
  intros OK. pose proof OK as (M & G & S).
  pose proof M as M'. apply andb_true_iff in M'. destruct M' as [Gm T].
  rewrite register_spec by exact Gm.
  destruct (resolved_caller rt h st) as [pathinfo|e]; [|discriminate].
  destruct (_ && _); [discriminate|].
  change (_register_callbacks (manager h))
    with (_register_callbacks (manager (after_issue rt pathinfo level h))).
  unfold subscribed in S.
  change (_register_callbacks (manager h))
    with (_register_callbacks (manager (after_issue rt pathinfo level h))) in S.
  rewrite S. cbn [run_callbacks].
  unfold bind, try_except, in_callback, zoom, KVStore.callback_of. cbn [cb_call].
  assert (Gc : ProtectedStore._is_access_allowed
                 (KVStore._caller_storages (external h)) (Some (KVStore.self (external h)))
               = true).
  { unfold kv_guarded in G. cbv zeta in G. rewrite !andb_true_iff in G. tauto. }
  change (external (after_issue rt pathinfo level h)) with (external h).
  destruct (on_credential_registered_spec (manager_frame rt h :: st)
              (issued rt pathinfo level h)
              (world (after_issue rt pathinfo level h)) (external h) Gc)
    as (w' & kv' & -> & Hs & Hl).
  cbv beta iota. unfold ret, state_of. cbn [fst snd].
  intros [= <- <-]. split; [|split].
  - apply system_ok_transfer with (h1 := h); [exact OK | | reflexivity | exact Hs].
    unfold manager_ok. apply andb_true_iff. split; [exact Gm|].
    unfold after_issue, put_table, table. cbn. now apply table_ok_set.
  - reflexivity.
  - eexists. split; [exact Hl|]. split; reflexivity.
Qed.

(** [_get_caller_storage] looks the caller up and changes nothing. *)
Lemma get_caller_storage_spec (h : KVStore.Heap) (st : list frame) :
  kv_guarded h = true ->
  KVStore._get_caller_storage rt st h =
    match kv_resolved_caller rt h st with
    | Raise e => (Raise e, h)
    | Return pathinfo =>
        match caller_storage h (PathInfo.name pathinfo) with
        | Some s => (Return (PathInfo.name pathinfo, s), h)
        | None => (Raise (ValueError ("No storage found for caller: "
                                      ++ PathInfo.name pathinfo)%string), h)
        end
    end.
Proof.
  intros G. unfold kv_guarded in G. cbv zeta in G. rewrite !andb_true_iff in G.
  destruct G as [[[_ Gc] _] _].
  unfold KVStore._get_caller_storage, bind, KVStore.own, gets, lift. cbv beta iota.
  fold (kv_frame rt h). fold (kv_resolved_caller rt h st).
  destruct (kv_resolved_caller rt h st) as [pathinfo|e]; [|reflexivity].
  unfold KVStore.in_caller_storages, zoom.
  rewrite get_allowed by exact Gc. unfold caller_storage.
  destruct h as [w m [ks cs rw ro]]. cbn.
  destruct (Dict.lookup _ _); reflexivity.
Qed.

(** A method of a private store changes, outside that store, nothing. *)
Lemma in_caller_storage_same (A : Type) (name : string)
    (storage : ProtectedStore.t string) (m : M (ProtectedStore.t string) A)
    (h : KVStore.Heap) :
  manager (state_of (KVStore.in_caller_storage name storage m h)) = manager h /\
  same_stores (external h) (external (state_of (KVStore.in_caller_storage name storage m h))).
Proof.
  unfold KVStore.in_caller_storage, state_of.
  destruct (m storage) as [o s']. cbn. repeat split.
Qed.

(** The private [set] keeps the system in order. *)
Lemma set_system_ok (h : KVStore.Heap) (st : list frame) (k v : string) :
  system_ok rt h -> system_ok rt (state_of (KVStore.set rt st k v h)).
Proof.
  intros OK. pose proof OK as (M & G & S).
  unfold KVStore.set, bind, KVStore.own, gets. cbv beta iota.
  fold (kv_frame rt h).
  destruct (validate_cases h (kv_frame rt h :: st) AccessOperation.WRITE M)
    as (answer & h1 & -> & M1 & Hext & Hres & Hcb).
  assert (Hok : forall h2, manager h2 = manager h1 ->
                  same_stores (external h1) (external h2) -> system_ok rt h2).
  { intros h2 Hm Hs. apply system_ok_transfer with (h1 := h).
    - exact OK.
    - unfold manager_ok, guarded, table in *. now rewrite Hm.
    - now rewrite Hm.
    - now rewrite <- Hext. }
  assert (G1 : kv_guarded h1 = true)
    by (apply (Hok h1 eq_refl (same_stores_refl _))).
  rewrite get_caller_storage_spec by exact G1.
  destruct (kv_resolved_caller rt h1 _) as [pathinfo|e];
    [|apply (Hok h1 eq_refl (same_stores_refl _))].
  destruct (caller_storage h1 _) as [s|];
    [|apply (Hok h1 eq_refl (same_stores_refl _))].
  cbn [fst snd].
  match goal with
  | |- context [KVStore.in_caller_storage ?n ?s ?m ?h] =>
      destruct (in_caller_storage_same n s m h) as [Hm Hs];
      destruct (KVStore.in_caller_storage n s m h) as [[[]|x] h2]
  end; apply Hok; assumption.
Qed.

(** The private [get] in a system in order, for a caller that has a
    private store which lets the store in. *)
Lemma get_spec (h : KVStore.Heap) (st : list frame) (k : string)
    (default : option string) (pathinfo : PathInfo.t) (s : ProtectedStore.t string) :
  system_ok rt h ->
  kv_resolved_caller rt h st = Return pathinfo ->
  caller_storage h (PathInfo.name pathinfo) = Some s ->
  ProtectedStore._is_access_allowed s (Some (KVStore.self (external h))) = true ->
  result_of (KVStore.get rt st k default h) =
    Return match Dict.lookup k (ProtectedStore._store s) with
           | Some v => Some v
           | None => default
           end.
Proof.
  intros OK R L Gs. pose proof OK as (M & G & S).
  unfold KVStore.get, bind, KVStore.own, gets. cbv beta iota.
  fold (kv_frame rt h).
  destruct (validate_cases h (kv_frame rt h :: st) AccessOperation.READ M)
    as (answer & h1 & -> & M1 & Hext & Hres & Hcb).
  assert (OK1 : system_ok rt h1).
  { apply system_ok_transfer with (h1 := h); auto.
    rewrite Hext. apply same_stores_refl. }
  destruct OK1 as (_ & G1 & _).
  rewrite get_caller_storage_spec by exact G1.
  assert (R1 : kv_resolved_caller rt h1 (kv_frame rt h :: st) = Return pathinfo).
  { unfold kv_resolved_caller, kv_frame in *. rewrite Hres, Hext.
    rewrite getPathInfo_same_file by reflexivity. exact R. }
  rewrite R1. unfold caller_storage in *. rewrite Hext, L. cbn [fst snd].
  unfold KVStore.in_caller_storage.
  rewrite get_allowed by exact Gs. reflexivity.
Qed.
End KVStoreFacts.

(** The two constructors build a system in order. *)
Lemma boot_system_ok (rt : Runtime) (roots : PathResolver.roots) (h : KVStore.Heap) :
  boot rt roots = Return h -> system_ok rt h.
Proof.
  unfold boot.
  destruct (CredentialManager.__init__ rt KVStore.t roots World0) as [[m|e] w] eqn:I;
    [|discriminate].
  pose proof (@manager_ok_init rt KVStore.t roots World0 w m demo_kv I) as OK.
  assert (C : CredentialManager._register_callbacks m = []).
  { revert I.
    cbv beta iota delta [CredentialManager.__init__ bind new_object
                         ProtectedStore.__init__ ret].
    destruct (PathResolver.__init__ rt roots _) as [[r|x] w'']; [|discriminate].
    now intros [= <- _]. }
  destruct m as [ms mc mr cbs]. cbn in C. subst cbs.
  cbv beta iota zeta delta [KVStore.__init__ bind new_object ProtectedStore.__init__ ret
                            CredentialManager.setRegisterCallback modify snd existsb
                            CredentialManager._register_callbacks
                            CredentialManager.manager app].
  intros [= <-]. split; [exact OK|]. split; reflexivity.
Qed.

(** [B], registered as [READ_ONLY], sets [x] in the shared read-write
    store of a system in order. *)
Lemma shared_set_ignores_validate_example :
  system_ok demo_rt demo_registered /\
  result_of (KVStore.shared_set demo_rt caller_B "x" "2" demo_registered) = Return tt /\
  Dict.lookup "x" (shared_read_write
                     (state_of (KVStore.shared_set demo_rt caller_B "x" "2" demo_registered)))
    = Some "2".
Proof.
  assert (OK : system_ok demo_rt demo_registered)
    by (split; [reflexivity | split; reflexivity]).
  split; [exact OK|].
  exact (@shared_set_ignores_validate demo_rt demo_registered caller_B "x" "2" OK).
Defined.

(** C1 (as stated) fails.  Scenario S6: [A] sets [x] to [1] in the shared
    read-write store; [B], whose level [READ_ONLY] does not permit [WRITE]
    and for whom [validate(WRITE)] is [False], sets [x] to [2]: the call
    returns normally and [x] is [2]. *)
Lemma shared_set_by_read_only_caller_returns :
  let h1 := state_of (KVStore.shared_set demo_rt caller_A "x" "1" demo_registered) in
  let h2 := state_of (KVStore.shared_set demo_rt caller_B "x" "2" h1) in
  boot demo_rt (PathResolver.StrList ["/core"]) = Return (demo_heap ["/core"]) /\
  option_map Credentials.access_level (Dict.lookup "B" (table h1))
    = Some AccessLevel.READ_ONLY /\
  table_permits AccessLevel.READ_ONLY AccessOperation.WRITE = false /\
  result_of (KVStore.shared_get demo_rt caller_B "x" None h1) = Return (Some "1") /\
  result_of (CredentialManager.validate demo_rt (kv_frame demo_rt h1 :: caller_B)
               AccessOperation.WRITE h1) = Return false /\
  result_of (KVStore.shared_set demo_rt caller_B "x" "2" h1) = Return tt /\
  Dict.lookup "x" (shared_read_write h2) = Some "2".
Proof.
  intros h1 h2. repeat split; reflexivity.
Qed.

(** C4.  In a system in order a caller registers, stores [v] under [k] in
    its private store and registers again.  The second registration puts a
    new, empty private store in the place of the one that held [k], and a
    private [get(k, default)] by the caller of the second registration
    returns [default]. *)
Theorem register_again_empties_private_store (rt : Runtime)
    (h0 h1 h2 h3 : KVStore.Heap) (st1 st2 st3 st4 : list frame)
    (level1 level2 : AccessLevel.t) (c1 c2 : Credentials.t)
    (k v : string) (default : option string) (pathinfo : PathInfo.t) :
  system_ok rt h0 ->
  CredentialManager.register rt st1 level1 h0 = (Return c1, h1) ->
  KVStore.set rt st2 k v h1 = (Return tt, h2) ->
  CredentialManager.register rt st3 level2 h2 = (Return c2, h3) ->
  kv_resolved_caller rt h3 st4 = Return pathinfo ->
  PathInfo.name pathinfo = Credentials.name c2 ->
  (exists s, caller_storage h3 (Credentials.name c2) = Some s /\
             ProtectedStore._store s = Dict.empty) /\
  result_of (KVStore.get rt st4 k default h3) = Return default.
Proof.
  intros OK0 R1 S2 R3 Rg N.
  destruct (@register_subscribed rt _ _ _ _ _ OK0 R1) as (OK1 & _).
  pose proof (@set_system_ok rt h1 st2 k v OK1) as OK2. rewrite S2 in OK2.
  unfold state_of in OK2. cbn [snd] in OK2.
  destruct (@register_subscribed rt _ _ _ _ _ OK2 R3) as (OK3 & _ & s & Hs & He & Ha).
  split; [now exists s|].
  rewrite (@get_spec rt h3 st4 k default pathinfo s OK3 Rg).
  - rewrite He. reflexivity.
  - now rewrite N.
  - destruct OK3 as (_ & G & _). unfold kv_guarded in G. cbv zeta in G.
    rewrite !andb_true_iff in G. destruct G as [[[Gk _] _] _].
    unfold ProtectedStore._is_access_allowed. now rewrite Ha.
Qed.

(** [A] registers, sets [k], reads [v] back, registers again and reads the
    default. *)
Lemma register_again_empties_private_store_example :
  let h0 := demo_heap ["/core"] in
  let r1 := CredentialManager.register demo_rt caller_A AccessLevel.READ_WRITE h0 in
  let r2 := KVStore.set demo_rt caller_A "k" "v" (state_of r1) in
  let r3 := CredentialManager.register demo_rt caller_A AccessLevel.READ_WRITE (state_of r2) in
  system_ok demo_rt h0 /\
  result_of r2 = Return tt /\
  result_of (KVStore.get demo_rt caller_A "k" (Some "none") (state_of r2))
    = Return (Some "v") /\
  result_of (KVStore.get demo_rt caller_A "k" (Some "none") (state_of r3))
    = Return (Some "none").
Proof.
  intros h0 r1 r2 r3.
  assert (OK : system_ok demo_rt h0) by (split; [reflexivity | split; reflexivity]).
  split; [exact OK|].
  split; [vm_compute; reflexivity|]. split; [vm_compute; reflexivity|].
  refine (proj2 (@register_again_empties_private_store demo_rt h0 (state_of r1) (state_of r2)
           (state_of r3) caller_A caller_A caller_A caller_A
           AccessLevel.READ_WRITE AccessLevel.READ_WRITE
           {| Credentials.name := "A"; Credentials.key := "A_tok";
              Credentials.access_level := AccessLevel.READ_WRITE;
              Credentials.path := ["/"; "core"; "A"; "main.py"];
              Credentials.type := "core"; Credentials.enabled := false;
              Credentials.created_at := 1000%Z; Credentials.last_access := 1001%Z;
              Credentials.access_count := 0%Z |}
           {| Credentials.name := "A"; Credentials.key := "A_tokx";
              Credentials.access_level := AccessLevel.READ_WRITE;
              Credentials.path := ["/"; "core"; "A"; "main.py"];
              Credentials.type := "core"; Credentials.enabled := false;
              Credentials.created_at := 1003%Z; Credentials.last_access := 1004%Z;
              Credentials.access_count := 0%Z |}
           "k" "v" (Some "none")
           {| PathInfo.name := "A"; PathInfo.path := ["/"; "core"; "A"; "main.py"];
              PathInfo.type := "core" |}
           OK _ _ _ _ _)); vm_compute; reflexivity.
Defined.

Lemma demo_heap_reachable (roots : list string) :
  roots <> [] -> forallb str_truthy roots = true ->
  reachable demo_rt (demo_heap roots).
Proof.
  intros NE T.
  change (demo_heap roots) with
    (state_of (CredentialManager.setRegisterCallback (KVStore.callback_of demo_rt demo_kv)
       {| CredentialManager.world := {| time_calls := 0; token_calls := 0; next_id := 7 |};
          CredentialManager.manager := demo_manager roots [];
          CredentialManager.external := demo_kv |})).
  apply reach_setRegisterCallback.
  apply (reach_elsewhere
           (h := {| CredentialManager.world := {| time_calls := 0; token_calls := 0;
                                                  next_id := 3 |};
                    CredentialManager.manager := demo_manager roots [];
                    CredentialManager.external := demo_kv |})).
  apply reach_init with (roots := PathResolver.StrList roots) (w := World0).
  cbv beta iota delta [CredentialManager.__init__ bind new_object
                       ProtectedStore.__init__ ret PathResolver.__init__ World0
                       next_id time_calls token_calls raise].
  destruct roots as [|r roots]; [congruence|].
  cbn [orb]. 
  replace (existsb (fun path => negb (str_truthy path)) (r :: roots)) with false.
  - reflexivity.
  - symmetry. apply not_true_is_false. intros X. apply existsb_exists in X.
    destruct X as (x & Hin & Hx). rewrite forallb_forall in T.
    rewrite (T x Hin) in Hx. discriminate.
Qed.

(** The rows of [A] and [B] in the heap of the examples. *)
Lemma stored_name_is_table_key_example :
  let row_A := {| Credentials.name := "A"; Credentials.key := "A_tok";
                  Credentials.access_level := AccessLevel.READ_WRITE;
                  Credentials.path := ["/"; "core"; "A"; "main.py"];
                  Credentials.type := "core"; Credentials.enabled := false;
                  Credentials.created_at := 1000%Z; Credentials.last_access := 1001%Z;
                  Credentials.access_count := 0%Z |} in
  let row_B := {| Credentials.name := "B"; Credentials.key := "B_tokx";
                  Credentials.access_level := AccessLevel.READ_ONLY;
                  Credentials.path := ["/"; "core"; "B"; "main.py"];
                  Credentials.type := "core"; Credentials.enabled := false;
                  Credentials.created_at := 1002%Z; Credentials.last_access := 1003%Z;
                  Credentials.access_count := 0%Z |} in
  reachable demo_rt demo_registered /\
  table demo_registered = [("A", row_A); ("B", row_B)] /\
  Credentials.name row_A = "A" /\
  Credentials.name row_B = "B".
Proof.
  intros row_A row_B.
  assert (R : reachable demo_rt demo_registered).
  { unfold demo_registered. do 2 apply reach_register.
    apply demo_heap_reachable; [discriminate | reflexivity]. }
  assert (T : table demo_registered = [("A", row_A); ("B", row_B)])
    by (vm_compute; reflexivity).
  split; [exact R|]. split; [exact T|].
  split; apply (@stored_name_is_table_key demo_rt KVStore.t demo_registered _ _ R);
    rewrite T; simpl; auto.
Defined.

(** * Further properties *)

(** ** [PathResolver]: construction and the stack walk *)

Section ResolverMore.
Variable rt : Runtime.

Import PathResolver.

Lemma try_base_path_under (f : frame) (R : Path) :
  (exists m, try_base_path (resolve rt (filename f)) R = Some m) <-> under rt R f.
Proof.
  unfold try_base_path, under. split.
  - intros [m H]. destruct (relative_to _ R) as [rel|] eqn:E; [|discriminate].
    apply relative_to_Some in E. destruct rel as [|seg rest]; [discriminate|].
    now exists seg, rest.
  - intros (seg & rest & H). rewrite H, relative_to_app. eexists. reflexivity.
Qed.

Lemma collect_matched_nil (r : PathResolver.t) (f : frame) :
  collect_matched (resolve rt (filename f)) (base_paths r) = [] <-> ~ under_a_root rt r f.
Proof.
  split.
  - intros E (R & HR & HU). apply try_base_path_under in HU. destruct HU as [m Hm].
    assert (Hin : In m (collect_matched (resolve rt (filename f)) (base_paths r)))
      by (apply collect_matched_In; now exists R).
    now rewrite E in Hin.
  - intros N. destruct (collect_matched _ _) as [|m l] eqn:E; [reflexivity|].
    exfalso. apply N.
    assert (Hin : In m (collect_matched (resolve rt (filename f)) (base_paths r)))
      by (rewrite E; now left).
    apply collect_matched_In in Hin. destruct Hin as (R & HR & Hm).
    exists R. split; [exact HR|]. apply try_base_path_under. now exists m.
Qed.

Lemma sort_by_depth_reverse_nil (l : list matched) :
  sort_by_depth_reverse l = [] <-> l = [].
Proof.
  split; [|now intros ->].
  destruct l as [|x l]; [reflexivity|]. intros E.
  destruct (sort_by_depth_reverse_head (l := x :: l)) as (b & tl & Hs & _);
    [discriminate | congruence].
Qed.

Lemma scan_skip (r : PathResolver.t) (f : frame) (st : list frame) :
  ~ under_a_root rt r f -> scan_stack rt r (f :: st) = scan_stack rt r st.
Proof.
  intros N. apply collect_matched_nil in N. simpl. now rewrite N.
Qed.

Lemma scan_hit (r : PathResolver.t) (f : frame) :
  under_a_root rt r f -> exists pi, forall st', scan_stack rt r (f :: st') = Return pi.
Proof.
  intros U. simpl.
  destruct (sort_by_depth_reverse _) as [|b tl] eqn:E.
  - apply sort_by_depth_reverse_nil, collect_matched_nil in E. contradiction.
  - eexists. intros st'. reflexivity.
Qed.


(** X2.  The stack walk of [getPathInfo] passes over every frame whose
    file is under no root: such frames in front of the stack do not change
    the result. *)
Theorem getPathInfo_skips_frames_outside (r : PathResolver.t) (pre st : list frame) :
  Forall (fun f => ~ under_a_root rt r f) pre ->
  getPathInfo rt r (pre ++ st) = getPathInfo rt r st.
Proof.
  intros F. rewrite !getPathInfo_scan.
  induction F as [|f pre Hf _ IH]; [reflexivity|].
  rewrite <- app_comm_cons, scan_skip by exact Hf. exact IH.
Qed.

(** X3.  [getPathInfo] returns an identity exactly when some frame of the
    caller's stack lies below a root; when none does it raises
    [ValueError("Caller name could not be determined.")]. *)
Theorem getPathInfo_returns_iff (r : PathResolver.t) (st : list frame) :
  ((exists pi, getPathInfo rt r st = Return pi) <-> Exists (under_a_root rt r) st) /\
  (~ Exists (under_a_root rt r) st ->
   getPathInfo rt r st = Raise (ValueError "Caller name could not be determined.")).
Proof.
  rewrite getPathInfo_scan. induction st as [|f st [IH1 IH2]].
  - simpl. split.
    + split; [intros [pi H]; discriminate | intros H; inversion H].
    + reflexivity.
  - destruct (collect_matched (resolve rt (filename f)) (base_paths r)) eqn:C.
    + assert (N : ~ under_a_root rt r f) by now apply collect_matched_nil.
      rewrite scan_skip by exact N. split.
      * rewrite IH1. split; [now right|].
        intros H. inversion H; [contradiction | assumption].
      * intros NE. apply IH2. intros X. apply NE. now right.
    + assert (U : under_a_root rt r f).
      { destruct (collect_matched_In (resolve rt (filename f)) (base_paths r) m)
          as [H _].
        destruct H as (R & HR & Hm); [rewrite C; now left|].
        exists R. split; [exact HR|]. apply try_base_path_under. now exists m. }
      destruct (@scan_hit r f U) as [pi Hpi]. split.
      * split; [intros _; now left | intros _; exists pi; apply Hpi].
      * intros NE. elim NE. now left.
Qed.

Lemma scan_stack_origin (r : PathResolver.t) (st : list frame) (pi : PathInfo.t) :
  scan_stack rt r st = Return pi ->
  exists pre f post R rest,
    st = pre ++ f :: post /\
    Forall (fun g => ~ under_a_root rt r g) pre /\
    In R (base_paths r) /\
    resolve rt (filename f) = R ++ PathInfo.name pi :: rest /\
    PathInfo.path pi = resolve rt (filename f) /\
    PathInfo.type pi = type_of_parts R /\
    (forall R', In R' (base_paths r) -> under rt R' f -> length R' <= length R).
Proof.
  induction st as [|f st IH]; [discriminate|].
  simpl. destruct (sort_by_depth_reverse _) as [|b tl] eqn:S.
  - intros H. destruct (IH H) as (pre & g & post & R & rest & -> & F & HR & Hf & Hp & Ht & Hd).
    exists (f :: pre), g, post, R, rest. repeat split; auto.
    constructor; [|exact F].
    apply collect_matched_nil. now apply sort_by_depth_reverse_nil.
  - intros [= <-]. cbn [PathInfo.name PathInfo.path PathInfo.type].
    destruct (sort_by_depth_reverse_head
                (l := collect_matched (resolve rt (filename f)) (base_paths r)))
      as (b' & tl' & S' & Hin & Hmax).
    { intros E. rewrite E in S. discriminate. }
    rewrite S in S'. injection S' as <- <-.
    apply collect_matched_In in Hin. destruct Hin as (R & HR & Hm).
    unfold try_base_path in Hm.
    destruct (relative_to _ R) as [rel|] eqn:E; [|discriminate].
    apply relative_to_Some in E.
    destruct rel as [|seg rest]; [discriminate|]. cbn in Hm.
    injection Hm as <-. cbn [parts base_type hd].
    exists [], f, st, R, rest. repeat split; auto.
    intros R' HR' (seg' & rest' & HU).
    assert (Hin' : In {| base_path := R'; relative_path := seg' :: rest';
                         parts := seg' :: rest'; base_type := type_of_parts R';
                         depth := length R' |}
                      (collect_matched (resolve rt (filename f)) (base_paths r))).
    { apply collect_matched_In. exists R'. split; [exact HR'|].
      unfold try_base_path. now rewrite HU, relative_to_app. }
    exact (Hmax _ Hin').
Qed.

(** X4.  The identity that [getPathInfo] returns comes from the innermost
    frame that lies below a root, and from the deepest root above that
    frame: [name] is the first part of the file below that root, [path] the
    canonical file, [type] the lower-cased last part of the root. *)
Theorem getPathInfo_sound (r : PathResolver.t) (st : list frame) (pi : PathInfo.t) :
  getPathInfo rt r st = Return pi ->
  exists pre f post R rest,
    st = pre ++ f :: post /\
    Forall (fun g => ~ under_a_root rt r g) pre /\
    In R (base_paths r) /\
    resolve rt (filename f) = R ++ PathInfo.name pi :: rest /\
    PathInfo.path pi = resolve rt (filename f) /\
    PathInfo.type pi = type_of_parts R /\
    (forall R', In R' (base_paths r) -> under rt R' f -> length R' <= length R).
Proof. rewrite getPathInfo_scan. apply scan_stack_origin. Qed.

(** X5.  The innermost frame decides: when the first frame of the stack
    lies below a root, the frames behind it have no influence on the
    identity. *)
Theorem getPathInfo_innermost_decides (r : PathResolver.t) (f : frame)
    (st st' : list frame) :
  under_a_root rt r f ->
  getPathInfo rt r (f :: st) = getPathInfo rt r (f :: st').
Proof.
  intros U. rewrite !getPathInfo_scan.
  destruct (@scan_hit r f U) as [pi Hpi]. now rewrite !Hpi.
Qed.

Lemma lower_ascii_idem (c : ascii) : lower_ascii (lower_ascii c) = lower_ascii c.
Proof.
  unfold lower_ascii.
  destruct ((65 <=? nat_of_ascii c)%nat && (nat_of_ascii c <=? 90)%nat) eqn:B; [|now rewrite B].
  apply andb_true_iff in B. destruct B as [B1 B2].
  apply Nat.leb_le in B1, B2.
  rewrite nat_ascii_embedding by lia.
  replace (nat_of_ascii c + 32 <=? 90)%nat with false by (symmetry; apply Nat.leb_gt; lia).
  now rewrite andb_false_r.
Qed.

Lemma lower_idem (s : string) : lower (lower s) = lower s.
Proof. induction s as [|c s IH]; simpl; [reflexivity|]. now rewrite lower_ascii_idem, IH. Qed.

(** X6.  The zone of a resolved identity is in lower case, whatever the
    case of the directory names. *)
Theorem getPathInfo_zone_is_lower_case (r : PathResolver.t) (st : list frame)
    (pi : PathInfo.t) :
  getPathInfo rt r st = Return pi -> lower (PathInfo.type pi) = PathInfo.type pi.
Proof.
  rewrite getPathInfo_scan. intros H.
  destruct (scan_stack_origin r st H) as (_ & _ & _ & R & _ & _ & _ & _ & _ & _ & -> & _).
  unfold type_of_parts. destruct (0 <? length R)%nat; [apply lower_idem | reflexivity].
Qed.
End ResolverMore.

Lemma outside_demo_roots (file : string) (self : option pyobj) :
  (forall R, In R (PathResolver.base_paths demo_resolver) ->
     PathResolver.try_base_path (resolve demo_rt file) R = None) ->
  ~ under_a_root demo_rt demo_resolver (Frame file self).
Proof.
  intros N (R & HR & U). apply try_base_path_under in U. destruct U as [m Hm].
  cbn [filename] in Hm. rewrite (N R HR) in Hm. discriminate.
Qed.

(** The frames of the library, installed under [/opt/kv], are passed
    over. *)
Lemma getPathInfo_skips_frames_outside_example :
  Forall (fun f => ~ under_a_root demo_rt demo_resolver f) library_frames /\
  PathResolver.getPathInfo demo_rt demo_resolver (library_frames ++ caller_A)
    = PathResolver.getPathInfo demo_rt demo_resolver caller_A.
Proof.
  assert (F : Forall (fun f => ~ under_a_root demo_rt demo_resolver f) library_frames).
  { repeat constructor; apply outside_demo_roots;
      intros R [<-|[<-|[]]]; vm_compute; reflexivity. }
  split; [exact F|].
  exact (@getPathInfo_skips_frames_outside demo_rt demo_resolver library_frames caller_A F).
Defined.

(** A caller in [/srv/Plugins/p1], called from [/core/A]. *)
Lemma getPathInfo_sound_example :
  let st := Frame "/srv/Plugins/p1/x.py" None :: caller_A in
  let pi := {| PathInfo.name := "p1";
               PathInfo.path := ["/"; "srv"; "Plugins"; "p1"; "x.py"];
               PathInfo.type := "plugins" |} in
  PathResolver.getPathInfo demo_rt demo_resolver st = Return pi /\
  exists pre f post R rest,
    st = pre ++ f :: post /\
    In R (PathResolver.base_paths demo_resolver) /\
    resolve demo_rt (filename f) = R ++ PathInfo.name pi :: rest /\
    PathInfo.type pi = PathResolver.type_of_parts R.
Proof.
  intros st pi.
  assert (H : PathResolver.getPathInfo demo_rt demo_resolver st = Return pi)
    by (vm_compute; reflexivity).
  split; [exact H|].
  destruct (@getPathInfo_sound demo_rt demo_resolver st pi H)
    as (pre & f & post & R & rest & E & _ & HR & Hf & _ & Ht & _).
  now exists pre, f, post, R, rest.
Defined.

(** The same caller, whoever called it. *)
Lemma getPathInfo_innermost_decides_example :
  under_a_root demo_rt demo_resolver (Frame "/srv/Plugins/p1/x.py" None) /\
  PathResolver.getPathInfo demo_rt demo_resolver (Frame "/srv/Plugins/p1/x.py" None :: caller_A)
    = PathResolver.getPathInfo demo_rt demo_resolver
        (Frame "/srv/Plugins/p1/x.py" None :: caller_B).
Proof.
  assert (U : under_a_root demo_rt demo_resolver (Frame "/srv/Plugins/p1/x.py" None)).
  { exists ["/"; "srv"; "Plugins"]. split; [right; left; reflexivity|].
    exists "p1", ["x.py"]. reflexivity. }
  split; [exact U|].
  exact (@getPathInfo_innermost_decides demo_rt demo_resolver _ caller_A caller_B U).
Defined.

(** The directory [Plugins] gives the zone [plugins]. *)
Lemma getPathInfo_zone_is_lower_case_example :
  let pi := {| PathInfo.name := "p1";
               PathInfo.path := ["/"; "srv"; "Plugins"; "p1"; "x.py"];
               PathInfo.type := "plugins" |} in
  PathResolver.getPathInfo demo_rt demo_resolver (called_from "/srv/Plugins/p1/x.py")
    = Return pi /\
  lower (PathInfo.type pi) = PathInfo.type pi.
Proof.
  intros pi.
  assert (H : PathResolver.getPathInfo demo_rt demo_resolver
                (called_from "/srv/Plugins/p1/x.py") = Return pi)
    by (vm_compute; reflexivity).
  split; [exact H|].
  exact (@getPathInfo_zone_is_lower_case demo_rt demo_resolver _ pi H).
Defined.

(** ** [ProtectedStore]: the access check and the dictionary behind it *)

Section DictMore.
Variable V : Type.

Lemma keys_set (k : string) (v : V) (d : Dict.t V) :
  Dict.keys (Dict.set k v d) =
    if Dict.contains k d then Dict.keys d else Dict.keys d ++ [k].
Proof.
  induction d as [|[k' v'] d IH]; simpl; [reflexivity|].
  destruct (String.eqb k k'); simpl; [reflexivity|].
  rewrite IH. now destruct (Dict.contains k d).
Qed.

Lemma contains_In_keys (k : string) (d : Dict.t V) :
  Dict.contains k d = true <-> In k (Dict.keys d).
Proof.
  induction d as [|[k' v'] d IH]; simpl; [split; [discriminate | intros []]|].
  rewrite orb_true_iff, IH. destruct (String.eqb_spec k k'); intuition congruence.
Qed.

Lemma lookup_remove_other (k k' : string) (d : Dict.t V) :
  k' <> k -> Dict.lookup k' (Dict.remove k d) = Dict.lookup k' d.
Proof.
  intros ne. induction d as [|[k'' v''] d IH]; simpl; [reflexivity|].
  destruct (String.eqb_spec k k'') as [->|ne']; simpl.
  - destruct (String.eqb_spec k' k''); [contradiction | reflexivity].
  - now rewrite IH.
Qed.

Lemma contains_remove (k : string) (d : Dict.t V) :
  NoDup (Dict.keys d) -> Dict.contains k (Dict.remove k d) = false.
Proof.
  induction d as [|[k' v'] d IH]; simpl; [reflexivity|].
  intros ND. inversion ND as [|? ? Hnot ND']; subst.
  destruct (String.eqb_spec k k') as [->|ne]; simpl.
  - apply not_true_is_false. intros C. now apply contains_In_keys in C.
  - destruct (String.eqb_spec k k'); [contradiction | now apply IH].
Qed.

Lemma len_remove (k : string) (d : Dict.t V) :
  Dict.contains k d = true -> S (Dict.len (Dict.remove k d)) = Dict.len d.
Proof.
  unfold Dict.len. induction d as [|[k' v'] d IH]; simpl; [discriminate|].
  destruct (String.eqb k k'); simpl; [reflexivity|]. intros C. now rewrite IH.
Qed.

(** The operations of the dictionary keep the keys distinct. *)
Lemma distinct_keys_set (k : string) (v : V) (d : Dict.t V) :
  NoDup (Dict.keys d) -> NoDup (Dict.keys (Dict.set k v d)).
Proof.
  intros ND. rewrite keys_set. destruct (Dict.contains k d) eqn:C; [exact ND|].
  apply NoDup_app; [exact ND | repeat constructor; auto |].
  intros x Hx [<-|[]]. apply contains_In_keys in Hx. congruence.
Qed.
End DictMore.

Section StoreMore.
Variable rt : Runtime.
Variable V : Type.

Import ProtectedStore.

Lemma check_denied (s : t V) (st : list frame) :
  _is_access_allowed s (Some (self s)) = false ->
  Forall (fun f => _is_access_allowed s (f_self f) = false) (firstn 2 st) ->
  _check_access_allowed s (own rt s :: st) =
    Raise (PermissionError
             ("Access only allowed from authorized accessor. Expected: "
              ++ expected_type s)%string).
Proof.
  intros Hs F. unfold _check_access_allowed.
  change (firstn 3 (own rt s :: st)) with (own rt s :: firstn 2 st).
  cbn [existsb own f_self]. rewrite Hs. cbn [orb].
  replace (existsb _ (firstn 2 st)) with false; [reflexivity|].
  symmetry. apply not_true_is_false. intros X. apply existsb_exists in X.
  destruct X as (f & Hin & Hf). rewrite Forall_forall in F.
  rewrite (F f Hin) in Hf. discriminate.
Qed.

Lemma checked_denied {A} (s : t V) (st : list frame) (body : t V -> outcome A * t V) :
  _is_access_allowed s (Some (self s)) = false ->
  Forall (fun f => _is_access_allowed s (f_self f) = false) (firstn 2 st) ->
  checked rt st body s = access_denied s.
Proof. intros Hs F. unfold checked. now rewrite check_denied. Qed.

(** X7.  A store that is not its own accessor refuses every call whose
    caller and whose caller's caller are not authorized, whatever stands
    further out on the stack: each method raises [PermissionError] and the
    store is as before.  For [store[key] = value] the caller alone
    decides. *)
Theorem store_refuses_unauthorized (s : t V) (st : list frame)
    (key : string) (value : V) (default : option V) :
  _is_access_allowed s (Some (self s)) = false ->
  Forall (fun f => _is_access_allowed s (f_self f) = false) (firstn 1 st) ->
  __setitem__ rt st key value s = access_denied s /\
  (Forall (fun f => _is_access_allowed s (f_self f) = false) (firstn 2 st) ->
   set rt st key value s = access_denied s /\
   get rt st key default s = access_denied s /\
   __getitem__ rt st key s = access_denied s /\
   __delitem__ rt st key s = access_denied s /\
   __contains__ rt st key s = access_denied s /\
   __len__ rt st s = access_denied s /\
   clear rt st s = access_denied s /\
   items rt st s = access_denied s /\
   keys rt st s = access_denied s /\
   values rt st s = access_denied s /\
   deep_copy rt st s = access_denied s).
Proof.
  intros Hs F1. split.
  - unfold __setitem__, set. apply checked_denied; [exact Hs|].
    destruct st as [|f st]; cbn [firstn] in *.
    + repeat constructor. exact Hs.
    + constructor; [exact Hs | exact F1].
  - intros F2. repeat split; now apply checked_denied.
Qed.

(** X8.  [store[key] = value] looks one frame less far than
    [store.set(key, value)]: from a caller that is not authorized itself
    but was called by the accessor, the first raises [PermissionError] and
    the second stores the value. *)
Theorem setitem_sees_one_frame_less (s : t V) (f1 f2 : frame) (st : list frame)
    (key : string) (value : V) :
  _is_access_allowed s (Some (self s)) = false ->
  _is_access_allowed s (f_self f1) = false ->
  _is_access_allowed s (f_self f2) = true ->
  __setitem__ rt (f1 :: f2 :: st) key value s = access_denied s /\
  set rt (f1 :: f2 :: st) key value s =
    (Return tt, with_store s (Dict.set key value (_store s))).
Proof.
  intros Hs H1 H2. split.
  - unfold __setitem__, set. apply checked_denied; [exact Hs|].
    repeat constructor; assumption.
  - unfold set, checked. now rewrite check_third.
Qed.

(** X9.  For authorized callers a value that was set is the value that is
    read, by [get], by [store[key]] and by [key in store]; the other keys
    keep their values; the length grows by one exactly when the key is
    new; [store[key] = value] does what [set] does. *)
Theorem store_set_then_get (s : t V) (f g : frame) (st st' : list frame)
    (key : string) (value : V) (default : option V) :
  _is_access_allowed s (f_self f) = true ->
  _is_access_allowed s (f_self g) = true ->
  let s1 := with_store s (Dict.set key value (_store s)) in
  set rt (f :: st) key value s = (Return tt, s1) /\
  __setitem__ rt (f :: st) key value s = (Return tt, s1) /\
  get rt (g :: st') key default s1 = (Return (Some value), s1) /\
  __getitem__ rt (g :: st') key s1 = (Return value, s1) /\
  __contains__ rt (g :: st') key s1 = (Return true, s1) /\
  __len__ rt (g :: st') s1 =
    (Return (Dict.len (_store s) + if Dict.contains key (_store s) then 0 else 1), s1) /\
  (forall key', key' <> key ->
     result_of (get rt (g :: st') key' default s1)
       = result_of (get rt (g :: st') key' default s)).
Proof.
  intros Hf Hg s1.
  assert (Hg1 : _is_access_allowed s1 (f_self g) = true) by exact Hg.
  split; [unfold set; now rewrite checked_allowed|].
  split; [now apply setitem_allowed|].
  unfold get, __getitem__, __contains__, __len__.
  rewrite !checked_allowed by assumption.
  subst s1. cbv beta. cbn [_store with_store].
  rewrite lookup_set_same, contains_set, String.eqb_refl.
  repeat split.
  - unfold Dict.len. rewrite <- !(length_map fst).
    change (map fst (Dict.set key value (_store s)))
      with (Dict.keys (Dict.set key value (_store s))).
    rewrite keys_set. destruct (Dict.contains key (_store s)); unfold Dict.keys.
    + now rewrite Nat.add_0_r.
    + now rewrite length_app.
  - intros key' ne. rewrite !checked_allowed by assumption. cbn.
    now rewrite lookup_set_other.
Qed.

(** X10.  A key that is absent: for an authorized caller [store[key]] and
    [del store[key]] raise [KeyError(key)], [get] returns the default and
    [key in store] is [False]; the store is as before. *)
Theorem store_missing_key (s : t V) (f : frame) (st : list frame)
    (key : string) (default : option V) :
  _is_access_allowed s (f_self f) = true ->
  Dict.lookup key (_store s) = None ->
  __getitem__ rt (f :: st) key s = (Raise (KeyError key), s) /\
  __delitem__ rt (f :: st) key s = (Raise (KeyError key), s) /\
  get rt (f :: st) key default s = (Return default, s) /\
  __contains__ rt (f :: st) key s = (Return false, s).
Proof.
  intros Hf L. unfold __getitem__, __delitem__, get, __contains__.
  rewrite !checked_allowed by assumption.
  rewrite contains_lookup, L. repeat split.
Qed.

(** X11.  [del store[key]] by an authorized caller removes a key that is
    present: afterwards the key is absent, the other keys have their
    values, and the length is one less. *)
Theorem store_delete (s : t V) (f g : frame) (st st' : list frame)
    (key : string) (default : option V) :
  _is_access_allowed s (f_self f) = true ->
  _is_access_allowed s (f_self g) = true ->
  NoDup (Dict.keys (_store s)) ->
  Dict.contains key (_store s) = true ->
  let s1 := with_store s (Dict.remove key (_store s)) in
  __delitem__ rt (f :: st) key s = (Return tt, s1) /\
  __contains__ rt (g :: st') key s1 = (Return false, s1) /\
  get rt (g :: st') key default s1 = (Return default, s1) /\
  __len__ rt (g :: st') s = (Return (S (Dict.len (_store s1))), s) /\
  (forall key', key' <> key ->
     result_of (get rt (g :: st') key' default s1)
       = result_of (get rt (g :: st') key' default s)).
Proof.
  intros Hf Hg ND C s1.
  assert (Hg1 : _is_access_allowed s1 (f_self g) = true) by exact Hg.
  unfold __delitem__, __contains__, get, __len__.
  rewrite !checked_allowed by assumption. subst s1. cbv beta.
  cbn [_store with_store]. rewrite C, contains_remove by exact ND.
  rewrite len_remove by exact C.
  assert (L : Dict.lookup key (Dict.remove key (_store s)) = None).
  { pose proof (@contains_remove V key (_store s) ND) as X. rewrite contains_lookup in X.
    now destruct (Dict.lookup key (Dict.remove key (_store s))). }
  rewrite L. repeat split.
  intros key' ne. rewrite !checked_allowed by assumption. cbn.
  now rewrite lookup_remove_other.
Qed.

(** X12.  [clear] by an authorized caller empties the store: afterwards
    the length is zero, there are no keys, and every [get] returns its
    default. *)
Theorem store_clear (s : t V) (f g : frame) (st st' : list frame)
    (key : string) (default : option V) :
  _is_access_allowed s (f_self f) = true ->
  _is_access_allowed s (f_self g) = true ->
  let s1 := with_store s Dict.empty in
  clear rt (f :: st) s = (Return tt, s1) /\
  __len__ rt (g :: st') s1 = (Return 0, s1) /\
  keys rt (g :: st') s1 = (Return [], s1) /\
  get rt (g :: st') key default s1 = (Return default, s1).
Proof.
  intros Hf Hg s1.
  assert (Hg1 : _is_access_allowed s1 (f_self g) = true) by exact Hg.
  unfold clear, __len__, keys, get.
  rewrite !checked_allowed by assumption. repeat split.
Qed.
End StoreMore.

(** The shared store of the examples, the frame of a method of the
    [KVStore] that owns it, and a caller from outside. *)
Lemma store_refuses_unauthorized_example :
  let s := demo_store string 5 in
  ProtectedStore._is_access_allowed s (Some (ProtectedStore.self s)) = false /\
  ProtectedStore.__setitem__ demo_rt caller_A "k" "v" s = access_denied s /\
  ProtectedStore.set demo_rt (caller_A ++ library_frames) "k" "v" s = access_denied s /\
  ProtectedStore.get demo_rt (caller_A ++ library_frames) "k" None s = access_denied s.
Proof.
  intros s.
  destruct (@store_refuses_unauthorized demo_rt string s caller_A "k" "v" None)
    as [H1 _]; [reflexivity | repeat constructor |].
  destruct (@store_refuses_unauthorized demo_rt string s (caller_A ++ library_frames)
              "k" "v" None) as [_ H2]; [reflexivity | repeat constructor |].
  destruct H2 as (H2 & H3 & _); [repeat constructor|].
  repeat split; assumption.
Defined.

Lemma setitem_sees_one_frame_less_example :
  let s := demo_store string 5 in
  let helper := Frame "/opt/kv/src/services/helper.py" None in
  let owner := Frame (KVStore_py demo_rt) (Some (PyObj 3 "KVStore")) in
  ProtectedStore.__setitem__ demo_rt [helper; owner] "k" "v" s = access_denied s /\
  result_of (ProtectedStore.set demo_rt [helper; owner] "k" "v" s) = Return tt.
Proof.
  intros s helper owner.
  destruct (@setitem_sees_one_frame_less demo_rt string s helper owner [] "k" "v"
              eq_refl eq_refl eq_refl) as [H1 H2].
  split; [exact H1|]. unfold result_of. now rewrite H2.
Defined.

Lemma store_set_then_get_example :
  let s := demo_store string 5 in
  let owner := Frame (KVStore_py demo_rt) (Some (PyObj 3 "KVStore")) in
  let s1 := state_of (ProtectedStore.set demo_rt [owner] "k" "v" s) in
  result_of (ProtectedStore.get demo_rt [owner] "k" None s1) = Return (Some "v") /\
  result_of (ProtectedStore.__len__ demo_rt [owner] s1) = Return 1.
Proof.
  intros s owner s1.
  destruct (@store_set_then_get demo_rt string s owner owner [] [] "k" "v" None
              eq_refl eq_refl) as (H1 & _ & H3 & _ & _ & H6 & _).
  unfold s1, state_of, result_of. rewrite H1. cbn [snd]. rewrite H3, H6.
  split; reflexivity.
Defined.

Lemma store_missing_key_example :
  let s := demo_store string 5 in
  let owner := Frame (KVStore_py demo_rt) (Some (PyObj 3 "KVStore")) in
  ProtectedStore.__getitem__ demo_rt [owner] "k" s = (Raise (KeyError "k"), s) /\
  ProtectedStore.__delitem__ demo_rt [owner] "k" s = (Raise (KeyError "k"), s) /\
  ProtectedStore.get demo_rt [owner] "k" (Some "d") s = (Return (Some "d"), s).
Proof.
  intros s owner.
  destruct (@store_missing_key demo_rt string s owner [] "k" (Some "d") eq_refl eq_refl)
    as (H1 & H2 & H3 & _).
  repeat split; assumption.
Defined.

Lemma store_delete_example :
  let owner := Frame (KVStore_py demo_rt) (Some (PyObj 3 "KVStore")) in
  let s := state_of (ProtectedStore.set demo_rt [owner] "k" "v" (demo_store string 5)) in
  NoDup (Dict.keys (ProtectedStore._store s)) /\
  let s1 := state_of (ProtectedStore.__delitem__ demo_rt [owner] "k" s) in
  result_of (ProtectedStore.__delitem__ demo_rt [owner] "k" s) = Return tt /\
  result_of (ProtectedStore.__contains__ demo_rt [owner] "k" s1) = Return false.
Proof.
  intros owner s.
  assert (ND : NoDup (Dict.keys (ProtectedStore._store s))).
  { repeat constructor. intros []. }
  split; [exact ND|]. intros s1.
  destruct (@store_delete demo_rt string s owner owner [] [] "k" None
              eq_refl eq_refl ND eq_refl) as (H1 & H2 & _).
  unfold s1, state_of, result_of. rewrite H1. cbn [fst snd]. rewrite H2.
  split; reflexivity.
Defined.

Lemma store_clear_example :
  let owner := Frame (KVStore_py demo_rt) (Some (PyObj 3 "KVStore")) in
  let s := state_of (ProtectedStore.set demo_rt [owner] "k" "v" (demo_store string 5)) in
  let s1 := state_of (ProtectedStore.clear demo_rt [owner] s) in
  result_of (ProtectedStore.__len__ demo_rt [owner] s1) = Return 0 /\
  result_of (ProtectedStore.get demo_rt [owner] "k" None s1) = Return None.
Proof.
  intros owner s s1.
  destruct (@store_clear demo_rt string s owner owner [] [] "k" None eq_refl eq_refl)
    as (H1 & H2 & _ & H4).
  unfold s1, state_of, result_of. rewrite H1. cbn [snd]. rewrite H2, H4.
  split; reflexivity.
Defined.

(** ** [CredentialManager]: registration, keys and counts *)

Section ManagerMore.
Variable rt : Runtime.
Variable E : Type.

Import CredentialManager.

(** What a [register] that returned has done. *)
Lemma register_effect (h h' : Heap E) (st : list frame) (level : AccessLevel.t)
    (c : Credentials.t) :
  manager_ok h = true ->
  register rt st level h = (Return c, h') ->
  exists pi,
    resolved_caller rt h st = Return pi /\
    c = issued rt pi level h /\
    table h' = Dict.set (PathInfo.name pi) c (table h) /\
    manager_ok h' = true /\
    path_resolver (manager h') = path_resolver (manager h) /\
    self (manager h') = self (manager h) /\
    _register_callbacks (manager h') = _register_callbacks (manager h).
Proof.
  intros OK. pose proof OK as OK'. apply andb_true_iff in OK'. destruct OK' as [G T].
  rewrite register_spec by exact G.
  destruct (resolved_caller rt h st) as [pi|e]; [|discriminate].
  destruct (_ && _); [discriminate|].
  match goal with
  | |- context [run_callbacks ?a ?b ?c ?d] =>
      destruct (run_callbacks_spec a b c d) as (w' & e' & ->)
  end.
  unfold state_of. cbn [snd]. intros [= <- <-].
  exists pi. repeat split.
  unfold manager_ok. apply andb_true_iff. split; [exact G|].
  unfold after_issue, put_table, table. cbn. now apply table_ok_set.
Qed.

Lemma getKey_loop_lookup (d : Dict.t Credentials.t) (caller : string) (h : Heap E) :
  table_ok d = true ->
  getKey_loop caller (Dict.values d) h =
    match Dict.lookup caller d with
    | Some c => (Return (Credentials.key c), h)
    | None => (Raise (ValueError ("No valid credential found for caller: "
                                  ++ caller)%string), h)
    end.
Proof.
  induction d as [|[k c] d IH]; simpl; [reflexivity|].
  rewrite !andb_true_iff. intros [[H1 _] H3].
  apply String.eqb_eq in H1. subst k. rewrite (String.eqb_sym caller).
  destruct (String.eqb (Credentials.name c) caller); [reflexivity | now apply IH].
Qed.

Lemma getKey_spec (h : Heap E) (st : list frame) :
  manager_ok h = true ->
  getKey rt st h =
    match resolved_caller rt h st with
    | Raise e => (Raise e, h)
    | Return pi =>
        match Dict.lookup (PathInfo.name pi) (table h) with
        | Some c => (Return (Credentials.key c), h)
        | None => (Raise (ValueError ("No valid credential found for caller: "
                                      ++ PathInfo.name pi)%string), h)
        end
    end.
Proof.
  intros OK. apply andb_true_iff in OK. destruct OK as [G T].
  unfold getKey, bind, own, gets, lift. cbv beta iota.
  fold (manager_frame rt h). fold (resolved_caller rt h st).
  destruct (resolved_caller rt h st) as [pi|e]; [|reflexivity].
  rewrite values_guarded by exact G. now apply getKey_loop_lookup.
Qed.

Lemma get_credential_count_spec (h : Heap E) (st : list frame) :
  guarded h = true ->
  get_credential_count rt st h = (Return (Dict.len (table h)), h).
Proof.
  intros G. destruct h as [w [ms mc mr cbs] e].
  unfold get_credential_count, bind, own, gets, in_credentials, zoom,
    ProtectedStore.__len__. cbn.
  rewrite checked_allowed by exact G. now destruct mc.
Qed.

Lemma has_credential_spec (h : Heap E) (st : list frame) (name : string) :
  guarded h = true ->
  has_credential rt st name h = (Return (Dict.contains name (table h)), h).
Proof.
  intros G. destruct h as [w [ms mc mr cbs] e].
  unfold has_credential, bind, own, gets, in_credentials, zoom,
    ProtectedStore.__contains__. cbn.
  rewrite checked_allowed by exact G. now destruct mc.
Qed.

Lemma resolved_caller_same (h h' : Heap E) (st : list frame) :
  path_resolver (manager h') = path_resolver (manager h) ->
  self (manager h') = self (manager h) ->
  resolved_caller rt h' st = resolved_caller rt h st.
Proof. unfold resolved_caller, manager_frame. now intros -> ->. Qed.

(** X13.  The row that [register] stores is the credential it returns: not
    enabled, never used, its key the caller's name, an underscore and the
    fresh random token.  The row replaces whatever was stored under the
    name; the rows of the other names stay. *)
Theorem register_stores_what_it_returns (h h' : Heap E) (st : list frame)
    (level : AccessLevel.t) (c : Credentials.t) :
  manager_ok h = true ->
  register rt st level h = (Return c, h') ->
  Dict.lookup (Credentials.name c) (table h') = Some c /\
  Credentials.access_level c = level /\
  Credentials.enabled c = false /\
  Credentials.access_count c = 0%Z /\
  Credentials.key c = (Credentials.name c ++ "_"
                       ++ token_urlsafe rt (token_calls (world h)))%string /\
  (forall name, name <> Credentials.name c ->
     Dict.lookup name (table h') = Dict.lookup name (table h)).
Proof.
  intros OK R. destruct (@register_effect _ _ _ _ _ OK R) as (pi & _ & -> & -> & _).
  cbn [issued Credentials.name Credentials.access_level Credentials.enabled
       Credentials.access_count Credentials.key].
  split; [apply lookup_set_same|]. repeat split.
  intros name ne. now apply lookup_set_other.
Qed.

(** X14.  After a [register], [getKey] from the same caller returns the key
    of the credential that [register] returned, and changes nothing. *)
Theorem getKey_after_register (h h' : Heap E) (st st' : list frame)
    (level : AccessLevel.t) (c : Credentials.t) (pi : PathInfo.t) :
  manager_ok h = true ->
  register rt st level h = (Return c, h') ->
  resolved_caller rt h' st' = Return pi ->
  PathInfo.name pi = Credentials.name c ->
  getKey rt st' h' = (Return (Credentials.key c), h').
Proof.
  intros OK R Rs N. destruct (@register_effect _ _ _ _ _ OK R) as (pi0 & _ & Ec & Et & OK' & _).
  rewrite getKey_spec by exact OK'. rewrite Rs, N, Et.
  replace (PathInfo.name pi0) with (Credentials.name c) by (rewrite Ec; reflexivity).
  now rewrite lookup_set_same.
Qed.

(** X15.  [getKey] from a caller without a row raises
    [ValueError("No valid credential found for caller: <name>")] and
    changes nothing. *)
Theorem getKey_unregistered (h : Heap E) (st : list frame) (pi : PathInfo.t) :
  manager_ok h = true ->
  resolved_caller rt h st = Return pi ->
  Dict.lookup (PathInfo.name pi) (table h) = None ->
  getKey rt st h =
    (Raise (ValueError ("No valid credential found for caller: "
                        ++ PathInfo.name pi)%string), h).
Proof. intros OK R L. rewrite getKey_spec by exact OK. now rewrite R, L. Qed.

(** X16.  When the resolver cannot identify the caller, [register],
    [getKey] and [getCredential] raise the resolver's [ValueError] and
    change nothing, and [validate] answers [False]. *)
Theorem unresolved_caller (h : Heap E) (st : list frame) (e : exn)
    (level : AccessLevel.t) (op : AccessOperation.t) :
  resolved_caller rt h st = Raise e ->
  is_ValueError e = true /\
  register rt st level h = (Raise e, h) /\
  getKey rt st h = (Raise e, h) /\
  getCredential rt st op h = (Raise e, h) /\
  validate rt st op h = (Return false, h).
Proof.
  intros R.
  assert (V : is_ValueError e = true) by exact (getPathInfo_raises _ _ _ R).
  split; [exact V|].
  assert (R' : resolved_caller rt h (manager_frame rt h :: st) = Raise e)
    by now rewrite resolved_caller_again.
  repeat split.
  - unfold register, bind, own, gets, lift. cbv beta iota.
    fold (manager_frame rt h). fold (resolved_caller rt h st). now rewrite R.
  - unfold getKey, bind, own, gets, lift. cbv beta iota.
    fold (manager_frame rt h). fold (resolved_caller rt h st). now rewrite R.
  - unfold getCredential, bind, own, gets, lift. cbv beta iota.
    fold (manager_frame rt h). fold (resolved_caller rt h st). now rewrite R.
  - unfold validate, try_except, bind, own, gets. cbv beta iota.
    unfold getCredential, bind, own, gets, lift. cbv beta iota.
    fold (manager_frame rt h).
    fold (resolved_caller rt h (manager_frame rt h :: st)). now rewrite R', V.
Qed.

(** X17.  [register] counts a name once: afterwards the caller has a
    credential, and the number of credentials is one more than before if
    the caller had none and the same if it had one. *)
Theorem register_counts_a_name_once (h h' : Heap E) (st st0 : list frame)
    (level : AccessLevel.t) (c : Credentials.t) :
  manager_ok h = true ->
  register rt st level h = (Return c, h') ->
  exists before had,
    result_of (get_credential_count rt st0 h) = Return before /\
    result_of (has_credential rt st0 (Credentials.name c) h) = Return had /\
    result_of (has_credential rt st0 (Credentials.name c) h') = Return true /\
    result_of (get_credential_count rt st0 h')
      = Return (before + if had : bool then 0 else 1).
Proof.
  intros OK R. destruct (@register_effect _ _ _ _ _ OK R) as (pi & _ & Ec & Et & OK' & _).
  apply andb_true_iff in OK, OK'. destruct OK as [G _], OK' as [G' _].
  exists (Dict.len (table h)), (Dict.contains (Credentials.name c) (table h)).
  rewrite !get_credential_count_spec, !has_credential_spec by assumption.
  unfold result_of. cbn [fst]. rewrite Et.
  replace (PathInfo.name pi) with (Credentials.name c) by (rewrite Ec; reflexivity).
  rewrite contains_set, String.eqb_refl. repeat split.
  f_equal. unfold Dict.len. rewrite <- !(length_map fst).
  change (map fst (Dict.set (Credentials.name c) c (table h)))
    with (Dict.keys (Dict.set (Credentials.name c) c (table h))).
  rewrite keys_set. destruct (Dict.contains _ (table h)); unfold Dict.keys.
  - now rewrite Nat.add_0_r.
  - now rewrite length_app.
Qed.

(** X18.  Only [ADMIN] is gated: for every other level [register] returns
    a credential of that level to every caller the resolver identifies,
    whatever its zone and whatever the callbacks do. *)
Theorem register_below_admin_returns (h : Heap E) (st : list frame)
    (level : AccessLevel.t) (pi : PathInfo.t) :
  guarded h = true ->
  resolved_caller rt h st = Return pi ->
  level <> AccessLevel.ADMIN ->
  exists c h',
    register rt st level h = (Return c, h') /\
    Credentials.name c = PathInfo.name pi /\
    Credentials.type c = PathInfo.type pi /\
    Credentials.access_level c = level.
Proof.
  intros G R NA. rewrite register_spec by exact G. rewrite R.
  replace (AccessLevel.eqb level AccessLevel.ADMIN) with false
    by (destruct level; try reflexivity; now elim NA).
  cbn [andb]. do 2 eexists. split; [reflexivity|]. repeat split.
Qed.

(** X19.  A [getCredential] that is refused -- the caller has no row, or
    the level of its row does not permit the operation -- raises
    [ValueError] and leaves the statistics alone. *)
Theorem getCredential_refused (h : Heap E) (st : list frame) (op : AccessOperation.t)
    (pi : PathInfo.t) :
  manager_ok h = true ->
  resolved_caller rt h st = Return pi ->
  match Dict.lookup (PathInfo.name pi) (table h) with
  | Some c => table_permits (Credentials.access_level c) op = false
  | None => True
  end ->
  getCredential rt st op h =
    (Raise (ValueError ("Invalid credential: " ++ PathInfo.name pi
                        ++ " for operation: " ++ AccessOperation.to_string op)%string), h).
Proof.
  intros OK R L. rewrite getCredential_spec by exact OK. rewrite R. cbv zeta.
  destruct (Dict.lookup _ (table h)) as [c|]; [|reflexivity]. now rewrite L.
Qed.

(** X20.  Every successful [getCredential] counts: after [n] of them from
    the same caller the [access_count] of its row is [n] more than before;
    level and key of the row are as before. *)
Theorem getCredential_counts_every_use (n : nat) (h : Heap E) (st : list frame)
    (op : AccessOperation.t) (pi : PathInfo.t) (c : Credentials.t) :
  manager_ok h = true ->
  resolved_caller rt h st = Return pi ->
  Dict.lookup (PathInfo.name pi) (table h) = Some c ->
  table_permits (Credentials.access_level c) op = true ->
  exists row,
    Dict.lookup (PathInfo.name pi) (table (getCredential_times rt n st op h)) = Some row /\
    Credentials.access_count row = (Credentials.access_count c + Z.of_nat n)%Z /\
    Credentials.access_level row = Credentials.access_level c /\
    Credentials.key row = Credentials.key c.
Proof.
  revert h c. induction n as [|n IH]; intros h c OK R L P.
  - exists c. cbn [getCredential_times]. rewrite Z.add_0_r. auto.
  - cbn [getCredential_times]. rewrite getCredential_spec by exact OK.
    rewrite R. cbv zeta. rewrite L, P. unfold state_of. cbn [snd].
    assert (N : Credentials.name c = PathInfo.name pi).
    { apply andb_true_iff in OK. destruct OK as [_ T]. exact (table_ok_lookup _ _ T L). }
    destruct (IH (after_use rt c h) (used c (stored_time rt h))) as (row & Hl & Hc & Hv & Hk).
    + now apply manager_ok_after_use.
    + exact R.
    + rewrite table_after_use, N. apply lookup_set_same.
    + exact P.
    + exists row. split; [exact Hl|]. cbn in Hc, Hv, Hk. repeat split; try assumption.
      rewrite Hc. lia.
Qed.

(** X21.  [setRegisterCallback] is idempotent: a callback that is set
    twice is held once; a new callback goes to the end of the list. *)
Theorem setRegisterCallback_idempotent (h : Heap E) (cb : callback E) :
  let h1 := state_of (setRegisterCallback cb h) in
  state_of (setRegisterCallback cb h1) = h1 /\
  (existsb (fun c => Nat.eqb (cb_id c) (cb_id cb)) (_register_callbacks (manager h)) = false ->
   _register_callbacks (manager h1) = _register_callbacks (manager h) ++ [cb]) /\
  table h1 = table h.
Proof.
  unfold setRegisterCallback, modify, state_of. cbn [snd].
  destruct (existsb _ (_register_callbacks (manager h))) eqn:X.
  - rewrite X. repeat split. discriminate.
  - cbn [manager _register_callbacks]. rewrite existsb_app. cbn [existsb].
    rewrite Nat.eqb_refl, orb_true_r. repeat split.
Qed.
End ManagerMore.

(** [A] registers in a fresh system. *)
Lemma register_stores_what_it_returns_example :
  let h := demo_heap ["/core"] in
  let r := CredentialManager.register demo_rt caller_A AccessLevel.READ_WRITE h in
  manager_ok h = true /\
  exists c, result_of r = Return c /\
    Dict.lookup "A" (table (state_of r)) = Some c /\
    Credentials.key c = "A_tok" /\
    Credentials.enabled c = false.
Proof.
  intros h r. split; [reflexivity|].
  assert (R : r = (Return (issued demo_rt
                             {| PathInfo.name := "A";
                                PathInfo.path := ["/"; "core"; "A"; "main.py"];
                                PathInfo.type := "core" |}
                             AccessLevel.READ_WRITE h), state_of r))
    by (vm_compute; reflexivity).
  destruct (@register_stores_what_it_returns demo_rt KVStore.t h (state_of r) caller_A
              AccessLevel.READ_WRITE _ eq_refl R) as (H1 & _ & H3 & _ & H5 & _).
  eexists. split; [exact (f_equal fst R)|]. split; [exact H1|].
  split; [exact H5 | exact H3].
Defined.

Lemma getKey_after_register_example :
  let h := demo_heap ["/core"] in
  let r := CredentialManager.register demo_rt caller_A AccessLevel.READ_WRITE h in
  result_of (CredentialManager.getKey demo_rt caller_A (state_of r)) = Return "A_tok".
Proof.
  intros h r.
  assert (R : r = (Return (issued demo_rt
                             {| PathInfo.name := "A";
                                PathInfo.path := ["/"; "core"; "A"; "main.py"];
                                PathInfo.type := "core" |}
                             AccessLevel.READ_WRITE h), state_of r))
    by (vm_compute; reflexivity).
  assert (Rs : resolved_caller demo_rt (state_of r) caller_A
               = Return {| PathInfo.name := "A";
                           PathInfo.path := ["/"; "core"; "A"; "main.py"];
                           PathInfo.type := "core" |})
    by (vm_compute; reflexivity).
  rewrite (@getKey_after_register demo_rt KVStore.t h (state_of r) caller_A caller_A
             AccessLevel.READ_WRITE _ _ eq_refl R Rs eq_refl).
  reflexivity.
Defined.

(** A caller under [/core] that never registered. *)
Lemma getKey_unregistered_example :
  CredentialManager.getKey demo_rt (called_from "/core/C/main.py") demo_registered
    = (Raise (ValueError "No valid credential found for caller: C"), demo_registered).
Proof.
  assert (Rs : resolved_caller demo_rt demo_registered (called_from "/core/C/main.py")
               = Return {| PathInfo.name := "C";
                           PathInfo.path := ["/"; "core"; "C"; "main.py"];
                           PathInfo.type := "core" |})
    by (vm_compute; reflexivity).
  exact (@getKey_unregistered demo_rt KVStore.t demo_registered _ _ eq_refl Rs eq_refl).
Defined.

(** A caller outside the roots. *)
Lemma unresolved_caller_example :
  let st := called_from "/tmp/x.py" in
  result_of (CredentialManager.register demo_rt st AccessLevel.READ_ONLY demo_registered)
    = Raise (ValueError "Caller name could not be determined.") /\
  CredentialManager.validate demo_rt st AccessOperation.READ demo_registered
    = (Return false, demo_registered).
Proof.
  intros st.
  assert (R : resolved_caller demo_rt demo_registered st
              = Raise (ValueError "Caller name could not be determined."))
    by (vm_compute; reflexivity).
  destruct (@unresolved_caller demo_rt KVStore.t demo_registered st _
              AccessLevel.READ_ONLY AccessOperation.READ R) as (_ & H1 & _ & _ & H4).
  split; [now rewrite H1 | exact H4].
Defined.

(** [A] registers for the second time, [C] for the first. *)
Lemma register_counts_a_name_once_example :
  let again := CredentialManager.register demo_rt caller_A AccessLevel.READ_ONLY
                 demo_registered in
  let first := CredentialManager.register demo_rt (called_from "/core/C/main.py")
                 AccessLevel.READ_ONLY demo_registered in
  result_of (CredentialManager.get_credential_count demo_rt [] demo_registered) = Return 2 /\
  result_of (CredentialManager.get_credential_count demo_rt [] (state_of again)) = Return 2 /\
  result_of (CredentialManager.get_credential_count demo_rt [] (state_of first)) = Return 3.
Proof.
  intros again first.
  assert (Ra : again = (Return (issued demo_rt
                                  {| PathInfo.name := "A";
                                     PathInfo.path := ["/"; "core"; "A"; "main.py"];
                                     PathInfo.type := "core" |}
                                  AccessLevel.READ_ONLY demo_registered), state_of again))
    by (vm_compute; reflexivity).
  assert (Rf : first = (Return (issued demo_rt
                                  {| PathInfo.name := "C";
                                     PathInfo.path := ["/"; "core"; "C"; "main.py"];
                                     PathInfo.type := "core" |}
                                  AccessLevel.READ_ONLY demo_registered), state_of first))
    by (vm_compute; reflexivity).
  assert (B : result_of (CredentialManager.get_credential_count demo_rt [] demo_registered)
              = Return 2) by (vm_compute; reflexivity).
  split; [exact B|]. split.
  - destruct (@register_counts_a_name_once demo_rt KVStore.t demo_registered
                (state_of again) caller_A [] AccessLevel.READ_ONLY _ eq_refl Ra)
      as (before & had & Hb & Hh & _ & Hc).
    rewrite Hc. rewrite B in Hb. injection Hb as <-.
    assert (X : result_of (CredentialManager.has_credential demo_rt [] "A" demo_registered)
                = Return true) by (vm_compute; reflexivity).
    cbn [issued Credentials.name PathInfo.name] in Hh. rewrite X in Hh.
    injection Hh as <-. reflexivity.
  - destruct (@register_counts_a_name_once demo_rt KVStore.t demo_registered
                (state_of first) _ [] AccessLevel.READ_ONLY _ eq_refl Rf)
      as (before & had & Hb & Hh & _ & Hc).
    rewrite Hc. rewrite B in Hb. injection Hb as <-.
    assert (X : result_of (CredentialManager.has_credential demo_rt [] "C" demo_registered)
                = Return false) by (vm_compute; reflexivity).
    cbn [issued Credentials.name PathInfo.name] in Hh. rewrite X in Hh.
    injection Hh as <-. reflexivity.
Defined.

(** A plug-in registers as [READ_ONLY]. *)
Lemma register_below_admin_returns_example :
  let h := demo_heap ["/core"; "/plugins"] in
  let st := called_from "/plugins/p1/main.py" in
  exists c h',
    CredentialManager.register demo_rt st AccessLevel.READ_ONLY h = (Return c, h') /\
    Credentials.name c = "p1" /\ Credentials.type c = "plugins".
Proof.
  intros h st.
  assert (R : resolved_caller demo_rt h st
              = Return {| PathInfo.name := "p1";
                          PathInfo.path := ["/"; "plugins"; "p1"; "main.py"];
                          PathInfo.type := "plugins" |})
    by (vm_compute; reflexivity).
  destruct (@register_below_admin_returns demo_rt KVStore.t h st AccessLevel.READ_ONLY _
              eq_refl R) as (c & h' & H & Hn & Ht & _); [discriminate|].
  now exists c, h'.
Defined.

(** [B], whose level is [READ_ONLY], asks for a write. *)
Lemma getCredential_refused_example :
  CredentialManager.getCredential demo_rt caller_B AccessOperation.WRITE demo_registered
    = (Raise (ValueError
                "Invalid credential: B for operation: AccessOperation.WRITE"),
       demo_registered).
Proof.
  assert (R : resolved_caller demo_rt demo_registered caller_B
              = Return {| PathInfo.name := "B";
                          PathInfo.path := ["/"; "core"; "B"; "main.py"];
                          PathInfo.type := "core" |})
    by (vm_compute; reflexivity).
  exact (@getCredential_refused demo_rt KVStore.t demo_registered caller_B
           AccessOperation.WRITE _ eq_refl R eq_refl).
Defined.

(** Three reads by [B]. *)
Lemma getCredential_counts_every_use_example :
  exists row,
    Dict.lookup "B" (table (getCredential_times demo_rt 3 caller_B AccessOperation.READ
                              demo_registered)) = Some row /\
    Credentials.access_count row = 3%Z.
Proof.
  assert (R : resolved_caller demo_rt demo_registered caller_B
              = Return {| PathInfo.name := "B";
                          PathInfo.path := ["/"; "core"; "B"; "main.py"];
                          PathInfo.type := "core" |})
    by (vm_compute; reflexivity).
  assert (L : exists c, Dict.lookup "B" (table demo_registered) = Some c /\
                        Credentials.access_level c = AccessLevel.READ_ONLY /\
                        Credentials.access_count c = 0%Z)
    by (eexists; split; [vm_compute; reflexivity | split; reflexivity]).
  destruct L as (c & L & Lv & Lc).
  destruct (@getCredential_counts_every_use demo_rt KVStore.t 3 demo_registered caller_B
              AccessOperation.READ _ c eq_refl R L) as (row & H1 & H2 & _).
  - now rewrite Lv.
  - exists row. split; [exact H1|]. rewrite H2, Lc. reflexivity.
Defined.

(** ** [KVStore]: the three namespaces *)

Section StoreCalls.
Variable rt : Runtime.

Import CredentialManager.

(** The [validate] at the head of every method of the store: it returns,
    and all it may change is the statistics of the caller's row. *)
Lemma validate_step (h : KVStore.Heap) (st : list frame) (op : AccessOperation.t) :
  system_ok rt h ->
  exists answer h1,
    validate rt (kv_frame rt h :: st) op h = (Return answer, h1) /\
    system_ok rt h1 /\
    external h1 = external h /\
    path_resolver (manager h1) = path_resolver (manager h) /\
    self (manager h1) = self (manager h) /\
    (h1 = h \/
     exists pi c,
       kv_validated_caller rt h st = Return pi /\
       Dict.lookup (PathInfo.name pi) (table h) = Some c /\
       table_permits (Credentials.access_level c) op = true /\
       h1 = after_use rt c h).
Proof.
  intros OK. pose proof OK as (M & G & S).
  rewrite validate_spec by exact M. fold (kv_validated_caller rt h st).
  destruct (kv_validated_caller rt h st) as [pi|e];
    [|exists false, h; repeat split; auto].
  destruct (Dict.lookup _ (table h)) as [c|] eqn:L;
    [|exists false, h; repeat split; auto].
  destruct (table_permits _ op) eqn:P; [|exists false, h; repeat split; auto].
  exists true, (after_use rt c h). split; [reflexivity|]. split.
  - apply system_ok_transfer with (h1 := h);
      [exact OK | now apply manager_ok_after_use | reflexivity | apply same_stores_refl].
  - repeat split. right. now exists pi, c.
Qed.

(** The head of every method of the private namespace: [validate], whose
    answer is dropped, then the look-up of the caller's private store. *)
Lemma private_call (A : Type) (op : AccessOperation.t)
    (k : frame -> string * ProtectedStore.t string -> M KVStore.Heap A)
    (h : KVStore.Heap) (st : list frame) :
  system_ok rt h ->
  exists answer h1,
    validate rt (kv_frame rt h :: st) op h = (Return answer, h1) /\
    system_ok rt h1 /\
    external h1 = external h /\
    path_resolver (manager h1) = path_resolver (manager h) /\
    (f <- KVStore.own rt ;;
     validate rt (f :: st) op ;;;
     cs <- KVStore._get_caller_storage rt (f :: st) ;;
     k f cs)%py h =
      match kv_resolved_caller rt h st with
      | Raise e => (Raise e, h1)
      | Return pi =>
          match caller_storage h (PathInfo.name pi) with
          | None => (Raise (ValueError ("No storage found for caller: "
                                        ++ PathInfo.name pi)%string), h1)
          | Some s => k (kv_frame rt h) (PathInfo.name pi, s) h1
          end
      end.
Proof.
  intros OK.
  destruct (validate_step st op OK) as (answer & h1 & V & OK1 & Hext & Hres & _).
  exists answer, h1. repeat (split; [assumption|]).
  unfold bind, KVStore.own, gets. cbv beta iota. fold (kv_frame rt h). rewrite V.
  destruct OK1 as (_ & G1 & _).
  rewrite get_caller_storage_spec by exact G1.
  replace (kv_resolved_caller rt h1 (kv_frame rt h :: st))
    with (kv_resolved_caller rt h st).
  - unfold caller_storage. rewrite Hext.
    destruct (kv_resolved_caller rt h st) as [pi|e]; [|reflexivity].
    now destruct (Dict.lookup _ _).
  - unfold kv_resolved_caller, kv_frame. rewrite Hres, Hext.
    now rewrite getPathInfo_same_file.
Qed.

(** A method of a private store, seen from the registry: the store under
    the caller's name is the one the method left; nothing else differs. *)
Lemma in_caller_storage_effect (A : Type) (name : string)
    (s : ProtectedStore.t string) (m : M (ProtectedStore.t string) A)
    (h : KVStore.Heap) :
  let r := KVStore.in_caller_storage name s m h in
  result_of r = fst (m s) /\
  caller_storage (state_of r) name = Some (snd (m s)) /\
  (forall name', name' <> name ->
     caller_storage (state_of r) name' = caller_storage h name') /\
  manager (state_of r) = manager h /\
  shared_read_write (state_of r) = shared_read_write h /\
  shared_read_only (state_of r) = shared_read_only h /\
  same_stores (external h) (external (state_of r)).
Proof.
  unfold KVStore.in_caller_storage, state_of, result_of, caller_storage.
  destruct (m s) as [o s']. cbn. split; [reflexivity|].
  split; [apply lookup_set_same|].
  split; [intros name' ne; now apply lookup_set_other|]. repeat split.
Qed.

Lemma system_ok_in_caller_storage (A : Type) (name : string)
    (s : ProtectedStore.t string) (m : M (ProtectedStore.t string) A)
    (h : KVStore.Heap) :
  system_ok rt h -> system_ok rt (state_of (KVStore.in_caller_storage name s m h)).
Proof.
  intros OK. destruct (in_caller_storage_effect name s m h) as (_ & _ & _ & Hm & _ & _ & Hs).
  apply system_ok_transfer with (h1 := h); [exact OK | | now rewrite Hm | exact Hs].
  unfold manager_ok, guarded, table. rewrite Hm. apply OK.
Qed.

Lemma kv_resolved_caller_same (h h' : KVStore.Heap) (st : list frame) :
  path_resolver (manager h') = path_resolver (manager h) ->
  KVStore.self (external h') = KVStore.self (external h) ->
  kv_resolved_caller rt h' st = kv_resolved_caller rt h st.
Proof. unfold kv_resolved_caller, kv_frame. now intros -> ->. Qed.

(** The private [set], for a caller with a private store. *)
Lemma set_effect (h : KVStore.Heap) (st : list frame) (key value : string)
    (pi : PathInfo.t) (s : ProtectedStore.t string) :
  system_ok rt h ->
  kv_resolved_caller rt h st = Return pi ->
  caller_storage h (PathInfo.name pi) = Some s ->
  ProtectedStore._is_access_allowed s (Some (KVStore.self (external h))) = true ->
  exists h',
    KVStore.set rt st key value h = (Return tt, h') /\
    system_ok rt h' /\
    kv_resolved_caller rt h' st = Return pi /\
    KVStore.self (external h') = KVStore.self (external h) /\
    path_resolver (manager h') = path_resolver (manager h) /\
    caller_storage h' (PathInfo.name pi)
      = Some (ProtectedStore.with_store s (Dict.set key value (ProtectedStore._store s))) /\
    (forall name', name' <> PathInfo.name pi ->
       caller_storage h' name' = caller_storage h name') /\
    shared_read_write h' = shared_read_write h /\
    shared_read_only h' = shared_read_only h.
Proof.
  intros OK R L Gs.
  destruct (private_call AccessOperation.WRITE
              (fun f cs => KVStore.in_caller_storage (fst cs) (snd cs)
                             (ProtectedStore.set rt (f :: st) key value)) st OK)
    as (answer & h1 & _ & OK1 & Hext & Hres & E).
  cbv beta in E. unfold KVStore.set. rewrite E, R, L. cbn [fst snd].
  unfold kv_frame.
  pose proof (in_caller_storage_effect (PathInfo.name pi) s
                (ProtectedStore.set rt
                   (Frame (KVStore_py rt) (Some (KVStore.self (external h))) :: st)
                   key value) h1) as F.
  cbv zeta in F. rewrite set_allowed in F by exact Gs. cbn [fst snd] in F.
  destruct F as (Fr & Fc & Fo & Fm & Frw & Fro & Fs).
  destruct (KVStore.in_caller_storage _ _ _ h1) as [o h'] eqn:I.
  unfold result_of, state_of in *. cbn [fst snd] in *. subst o.
  exists h'. split; [reflexivity|].
  assert (Hself : KVStore.self (external h') = KVStore.self (external h)).
  { destruct Fs as (Hs & _). now rewrite Hs, Hext. }
  assert (Hr : path_resolver (manager h') = path_resolver (manager h))
    by now rewrite Fm.
  split.
  { pose proof (system_ok_in_caller_storage (PathInfo.name pi) s
                  (ProtectedStore.set rt
                     (Frame (KVStore_py rt) (Some (KVStore.self (external h))) :: st)
                     key value) OK1) as X.
    now rewrite I in X. }
  split; [rewrite (@kv_resolved_caller_same h h' st Hr Hself); exact R|].
  split; [exact Hself|]. split; [exact Hr|]. split; [exact Fc|].
  split; [intros name' ne; rewrite (Fo name' ne); unfold caller_storage; now rewrite Hext|].
  unfold shared_read_write, shared_read_only in *. rewrite Frw, Fro, Hext. auto.
Qed.

(** A reading method of the private namespace, for a caller with a
    private store that lets the [KVStore] in. *)
Lemma has_spec (h : KVStore.Heap) (st : list frame) (key : string)
    (pi : PathInfo.t) (s : ProtectedStore.t string) :
  system_ok rt h ->
  kv_resolved_caller rt h st = Return pi ->
  caller_storage h (PathInfo.name pi) = Some s ->
  ProtectedStore._is_access_allowed s (Some (KVStore.self (external h))) = true ->
  result_of (KVStore.has rt st key h)
    = Return (Dict.contains key (ProtectedStore._store s)).
Proof.
  intros OK R L Gs.
  destruct (private_call AccessOperation.READ
              (fun f cs => KVStore.in_caller_storage (fst cs) (snd cs)
                             (ProtectedStore.__contains__ rt (f :: st) key)) st OK)
    as (answer & h1 & _ & _ & _ & _ & E).
  cbv beta in E. unfold KVStore.has. rewrite E, R, L. cbn [fst snd].
  unfold KVStore.in_caller_storage, ProtectedStore.__contains__, kv_frame.
  rewrite checked_allowed by exact Gs. reflexivity.
Qed.

Lemma in_caller_storage_stays_ok (A : Type) (name : string)
    (s : ProtectedStore.t string) (m : M (ProtectedStore.t string) A)
    (h : KVStore.Heap) (st : list frame) :
  system_ok rt h ->
  let h' := state_of (KVStore.in_caller_storage name s m h) in
  system_ok rt h' /\
  kv_resolved_caller rt h' st = kv_resolved_caller rt h st /\
  KVStore.self (external h') = KVStore.self (external h).
Proof.
  intros OK h'.
  destruct (in_caller_storage_effect name s m h) as (_ & _ & _ & Hm & _ & _ & Hs & _).
  split; [now apply system_ok_in_caller_storage|].
  split; [|exact Hs].
  apply kv_resolved_caller_same; [unfold h'; now rewrite Hm | exact Hs].
Qed.

(** X22.  In the private namespace a caller that has a private store
    reads back what it set, whatever the level of its credential (the
    answer of [validate] is dropped): after [set(key, value)], [get(key)]
    returns [value] and [has(key)] is [True]; the other keys of the caller
    and the two shared stores are as before. *)
Theorem private_set_then_get (h : KVStore.Heap) (st : list frame)
    (key value : string) (default : option string)
    (pi : PathInfo.t) (s : ProtectedStore.t string) :
  system_ok rt h ->
  kv_resolved_caller rt h st = Return pi ->
  caller_storage h (PathInfo.name pi) = Some s ->
  ProtectedStore._is_access_allowed s (Some (KVStore.self (external h))) = true ->
  exists h',
    KVStore.set rt st key value h = (Return tt, h') /\
    result_of (KVStore.get rt st key default h') = Return (Some value) /\
    result_of (KVStore.has rt st key h') = Return true /\
    (forall key', key' <> key ->
       result_of (KVStore.get rt st key' default h')
         = result_of (KVStore.get rt st key' default h)) /\
    shared_read_write h' = shared_read_write h /\
    shared_read_only h' = shared_read_only h.
Proof.
  intros OK R L Gs.
  destruct (@set_effect h st key value pi s OK R L Gs)
    as (h' & E & OK' & R' & Hself & _ & L' & _ & Hrw & Hro).
  assert (Gs' : ProtectedStore._is_access_allowed
                  (ProtectedStore.with_store s (Dict.set key value (ProtectedStore._store s)))
                  (Some (KVStore.self (external h'))) = true)
    by (rewrite Hself; exact Gs).
  exists h'. split; [exact E|].
  split; [rewrite (@get_spec rt _ _ key default _ _ OK' R' L' Gs'); cbn;
          now rewrite lookup_set_same|].
  split; [rewrite (@has_spec _ _ key _ _ OK' R' L' Gs'); cbn;
          now rewrite contains_set, String.eqb_refl|].
  split; [|auto].
  intros key' ne.
  rewrite (@get_spec rt _ _ key' default _ _ OK' R' L' Gs'),
    (@get_spec rt _ _ key' default _ _ OK R L Gs).
  cbn. now rewrite lookup_set_other.
Qed.

(** X23.  The private stores are isolated: what one caller sets in its
    private store does not change what a caller of another name reads from
    its own, under any key. *)
Theorem private_stores_are_isolated (h : KVStore.Heap) (stA stB : list frame)
    (key value key' : string) (default : option string)
    (piA piB : PathInfo.t) (sA sB : ProtectedStore.t string) :
  system_ok rt h ->
  kv_resolved_caller rt h stA = Return piA ->
  caller_storage h (PathInfo.name piA) = Some sA ->
  ProtectedStore._is_access_allowed sA (Some (KVStore.self (external h))) = true ->
  kv_resolved_caller rt h stB = Return piB ->
  caller_storage h (PathInfo.name piB) = Some sB ->
  ProtectedStore._is_access_allowed sB (Some (KVStore.self (external h))) = true ->
  PathInfo.name piB <> PathInfo.name piA ->
  exists h',
    KVStore.set rt stA key value h = (Return tt, h') /\
    result_of (KVStore.get rt stB key' default h')
      = result_of (KVStore.get rt stB key' default h).
Proof.
  intros OK RA LA GA RB LB GB ne.
  destruct (@set_effect h stA key value piA sA OK RA LA GA)
    as (h' & E & OK' & _ & Hself & Hr & _ & Lo & _).
  exists h'. split; [exact E|].
  assert (RB' : kv_resolved_caller rt h' stB = Return piB)
    by (rewrite (@kv_resolved_caller_same h h' stB Hr Hself); exact RB).
  assert (LB' : caller_storage h' (PathInfo.name piB) = Some sB)
    by (rewrite (Lo _ ne); exact LB).
  assert (GB' : ProtectedStore._is_access_allowed sB (Some (KVStore.self (external h')))
                = true) by (rewrite Hself; exact GB).
  now rewrite (@get_spec rt _ _ key' default _ _ OK' RB' LB' GB'),
    (@get_spec rt _ _ key' default _ _ OK RB LB GB).
Qed.

(** X24.  A caller that the resolver identifies but that never registered
    has no private store: every method of the private namespace raises
    [ValueError("No storage found for caller: <name>")]. *)
Theorem private_namespace_needs_registration (h : KVStore.Heap) (st : list frame)
    (key value : string) (default : option string) (pi : PathInfo.t) :
  system_ok rt h ->
  kv_resolved_caller rt h st = Return pi ->
  caller_storage h (PathInfo.name pi) = None ->
  let e := ValueError ("No storage found for caller: " ++ PathInfo.name pi)%string in
  result_of (KVStore.set rt st key value h) = Raise e /\
  result_of (KVStore.get rt st key default h) = Raise e /\
  result_of (KVStore.has rt st key h) = Raise e /\
  result_of (KVStore.delete rt st key h) = Raise e /\
  result_of (KVStore.clear rt st h) = Raise e /\
  result_of (KVStore.keys rt st h) = Raise e /\
  result_of (KVStore.values rt st h) = Raise e.
Proof.
  intros OK R L e.
  unfold KVStore.set, KVStore.get, KVStore.has, KVStore.delete, KVStore.clear,
    KVStore.keys, KVStore.values.
  repeat split;
    match goal with
    | |- result_of (bind _ (fun f => bind (validate _ _ ?op)
                                       (fun _ => bind _ (fun cs => @?k f cs))) _) = _ =>
        destruct (private_call op k st OK) as (answer & h1 & _ & _ & _ & _ & E);
        cbv beta in E; rewrite E, R, L; reflexivity
    end.
Qed.

(** X25.  The private [delete] never raises for a missing key: it returns
    whether the key is there or not, afterwards [has(key)] is [False], and
    the other keys of the caller are as before. *)
Theorem private_delete (h : KVStore.Heap) (st : list frame)
    (key : string) (default : option string)
    (pi : PathInfo.t) (s : ProtectedStore.t string) :
  system_ok rt h ->
  kv_resolved_caller rt h st = Return pi ->
  caller_storage h (PathInfo.name pi) = Some s ->
  ProtectedStore._is_access_allowed s (Some (KVStore.self (external h))) = true ->
  NoDup (Dict.keys (ProtectedStore._store s)) ->
  exists h',
    KVStore.delete rt st key h = (Return tt, h') /\
    result_of (KVStore.has rt st key h') = Return false /\
    (forall key', key' <> key ->
       result_of (KVStore.get rt st key' default h')
         = result_of (KVStore.get rt st key' default h)).
Proof.
  intros OK R L Gs ND.
  destruct (private_call AccessOperation.WRITE
              (fun f cs =>
                 present <- KVStore.in_caller_storage (fst cs) (snd cs)
                              (ProtectedStore.__contains__ rt (f :: st) key) ;;
                 if present : bool
                 then KVStore.in_caller_storage (fst cs) (snd cs)
                        (ProtectedStore.__delitem__ rt (f :: st) key)
                 else ret tt)%py st OK)
    as (answer & h1 & _ & OK1 & Hext & Hres & E).
  cbv beta in E. unfold KVStore.delete. rewrite E, R, L. cbn [fst snd]. clear E.
  assert (R1 : kv_resolved_caller rt h1 st = Return pi).
  { rewrite <- R. apply kv_resolved_caller_same; [exact Hres | now rewrite Hext]. }
  set (f := kv_frame rt h).
  assert (Gf : ProtectedStore._is_access_allowed s (f_self f) = true) by exact Gs.
  (* the test [key in caller_storage] *)
  pose proof (in_caller_storage_effect (PathInfo.name pi) s
                (ProtectedStore.__contains__ rt (f :: st) key) h1) as F.
  pose proof (in_caller_storage_stays_ok (PathInfo.name pi) s
                (ProtectedStore.__contains__ rt (f :: st) key) st OK1) as K.
  cbv zeta in F, K. unfold ProtectedStore.__contains__ in F, K.
  rewrite checked_allowed in F by exact Gf. cbn [fst snd] in F.
  unfold bind, ProtectedStore.__contains__.
  destruct (KVStore.in_caller_storage (PathInfo.name pi) s _ h1) as [o h2].
  unfold result_of, state_of in F, K. cbn [fst snd] in F, K.
  destruct F as (-> & F2 & F3 & _). destruct K as (OK2 & R2 & Hself2).
  rewrite R1 in R2.
  assert (G2 : ProtectedStore._is_access_allowed s (Some (KVStore.self (external h2)))
               = true) by (rewrite Hself2, Hext; exact Gs).
  destruct (Dict.contains key (ProtectedStore._store s)) eqn:C.
  - (* [del caller_storage[key]] *)
    pose proof (in_caller_storage_effect (PathInfo.name pi) s
                  (ProtectedStore.__delitem__ rt (f :: st) key) h2) as F'.
    pose proof (in_caller_storage_stays_ok (PathInfo.name pi) s
                  (ProtectedStore.__delitem__ rt (f :: st) key) st OK2) as K'.
    cbv zeta in F', K'. unfold ProtectedStore.__delitem__ in F', K'.
    rewrite checked_allowed in F' by exact Gf. rewrite C in F'. cbn [fst snd] in F'.
    unfold ProtectedStore.__delitem__.
    destruct (KVStore.in_caller_storage (PathInfo.name pi) s _ h2) as [o' h3].
    unfold result_of, state_of in F', K'. cbn [fst snd] in F', K'.
    destruct F' as (-> & F2' & _). destruct K' as (OK3 & R3 & Hself3).
    rewrite R2 in R3.
    assert (G3 : ProtectedStore._is_access_allowed
                   (ProtectedStore.with_store s (Dict.remove key (ProtectedStore._store s)))
                   (Some (KVStore.self (external h3))) = true)
      by (rewrite Hself3, Hself2, Hext; exact Gs).
    exists h3. split; [reflexivity|]. split.
    + rewrite (@has_spec _ _ key _ _ OK3 R3 F2' G3). cbn. now rewrite contains_remove.
    + intros key' ne.
      rewrite (@get_spec rt _ _ key' default _ _ OK3 R3 F2' G3),
        (@get_spec rt _ _ key' default _ _ OK R L Gs).
      cbn. now rewrite lookup_remove_other.
  - exists h2. split; [reflexivity|]. split.
    + rewrite (@has_spec _ _ key _ _ OK2 R2 F2 G2). now rewrite C.
    + intros key' ne.
      now rewrite (@get_spec rt _ _ key' default _ _ OK2 R2 F2 G2),
        (@get_spec rt _ _ key' default _ _ OK R L Gs).
Qed.
End StoreCalls.

Section SharedCalls.
Variable rt : Runtime.

Import CredentialManager.

(** The head of every method of the two shared namespaces. *)
Lemma validated_call (A : Type) (op : AccessOperation.t)
    (body : frame -> M KVStore.Heap A) (h : KVStore.Heap) (st : list frame) :
  system_ok rt h ->
  exists answer h1,
    validate rt (kv_frame rt h :: st) op h = (Return answer, h1) /\
    system_ok rt h1 /\
    external h1 = external h /\
    (f <- KVStore.own rt ;; validate rt (f :: st) op ;;; body f)%py h
      = body (kv_frame rt h1) h1.
Proof.
  intros OK.
  destruct (validate_step st op OK) as (answer & h1 & V & OK1 & Hext & _).
  exists answer, h1. repeat (split; [assumption|]).
  unfold bind, KVStore.own, gets. cbv beta iota. fold (kv_frame rt h). rewrite V.
  unfold kv_frame. now rewrite Hext.
Qed.

Lemma kv_guarded_stores (h : KVStore.Heap) :
  kv_guarded h = true ->
  ProtectedStore._is_access_allowed (KVStore._shared_read_write_store (external h))
    (Some (KVStore.self (external h))) = true /\
  ProtectedStore._is_access_allowed (KVStore._shared_read_only_store (external h))
    (Some (KVStore.self (external h))) = true.
Proof.
  unfold kv_guarded. cbv zeta. rewrite !andb_true_iff. tauto.
Qed.

(** A method of the shared read-write store, run by the [KVStore]. *)
Lemma in_shared_read_write_effect (A : Type) (m : M (ProtectedStore.t string) A)
    (h : KVStore.Heap) :
  let r := KVStore.in_shared_read_write_store m h in
  let s := KVStore._shared_read_write_store (external h) in
  result_of r = fst (m s) /\
  KVStore._shared_read_write_store (external (state_of r)) = snd (m s) /\
  manager (state_of r) = manager h /\
  shared_read_only (state_of r) = shared_read_only h /\
  (forall name, caller_storage (state_of r) name = caller_storage h name) /\
  KVStore.self (external (state_of r)) = KVStore.self (external h) /\
  KVStore._caller_storages (external (state_of r)) = KVStore._caller_storages (external h) /\
  KVStore._shared_read_only_store (external (state_of r))
    = KVStore._shared_read_only_store (external h).
Proof.
  unfold KVStore.in_shared_read_write_store, zoom, state_of, result_of.
  destruct (m _) as [o s']. cbn. repeat split.
Qed.

(** A method of the shared read-only store, run by the [KVStore]. *)
Lemma in_shared_read_only_effect (A : Type) (m : M (ProtectedStore.t string) A)
    (h : KVStore.Heap) :
  let r := KVStore.in_shared_read_only_store m h in
  let s := KVStore._shared_read_only_store (external h) in
  result_of r = fst (m s) /\
  KVStore._shared_read_only_store (external (state_of r)) = snd (m s) /\
  manager (state_of r) = manager h /\
  shared_read_write (state_of r) = shared_read_write h /\
  (forall name, caller_storage (state_of r) name = caller_storage h name) /\
  KVStore.self (external (state_of r)) = KVStore.self (external h) /\
  KVStore._caller_storages (external (state_of r)) = KVStore._caller_storages (external h) /\
  KVStore._shared_read_write_store (external (state_of r))
    = KVStore._shared_read_write_store (external h).
Proof.
  unfold KVStore.in_shared_read_only_store, zoom, state_of, result_of.
  destruct (m _) as [o s']. cbn. repeat split.
Qed.

Lemma system_ok_new_contents (h h' : KVStore.Heap) :
  system_ok rt h ->
  manager h' = manager h ->
  KVStore.self (external h') = KVStore.self (external h) ->
  KVStore._caller_storages (external h') = KVStore._caller_storages (external h) ->
  ProtectedStore._allowed_accessor (KVStore._shared_read_write_store (external h'))
    = ProtectedStore._allowed_accessor (KVStore._shared_read_write_store (external h)) ->
  ProtectedStore._allowed_accessor (KVStore._shared_read_only_store (external h'))
    = ProtectedStore._allowed_accessor (KVStore._shared_read_only_store (external h)) ->
  system_ok rt h'.
Proof.
  intros OK Hm Hs Hc Hw Ho.
  apply system_ok_transfer with (h1 := h); [exact OK | | now rewrite Hm |].
  - unfold manager_ok, guarded, table. rewrite Hm. apply OK.
  - unfold same_stores. now rewrite Hs, Hc, Hw, Ho.
Qed.

(** X26.  The shared read-write store converges: after a
    [shared_set(key, value)] by any caller, a [shared_get(key)] by any
    caller -- registered or not, identified or not -- returns [value] and
    [shared_has(key)] is [True]; the private stores and the shared
    read-only store are as before. *)
Theorem shared_set_then_get (h : KVStore.Heap) (st : list frame) (key value : string) :
  system_ok rt h ->
  exists h',
    KVStore.shared_set rt st key value h = (Return tt, h') /\
    (forall st' default,
       result_of (KVStore.shared_get rt st' key default h') = Return (Some value)) /\
    (forall st', result_of (KVStore.shared_has rt st' key h') = Return true) /\
    shared_read_only h' = shared_read_only h /\
    (forall name, caller_storage h' name = caller_storage h name).
Proof.
  intros OK.
  destruct (validated_call AccessOperation.WRITE
              (fun f => KVStore.in_shared_read_write_store
                          (ProtectedStore.set rt (f :: st) key value)) st OK)
    as (answer & h1 & _ & OK1 & Hext & E).
  cbv beta in E. unfold KVStore.shared_set. rewrite E. clear E.
  destruct (@kv_guarded_stores _ (proj1 (proj2 OK1))) as [Gw _].
  pose proof (in_shared_read_write_effect
                (ProtectedStore.set rt (kv_frame rt h1 :: st) key value) h1) as F.
  cbv zeta in F. rewrite (@set_allowed rt string _ (kv_frame rt h1) st key value Gw) in F.
  cbn [fst snd] in F.
  destruct (KVStore.in_shared_read_write_store _ h1) as [o h'].
  unfold result_of, state_of in F. cbn [fst snd] in F.
  destruct F as (-> & Fw & Fm & Fro & Fc & Fs & Fcs & Fo).
  assert (OK' : system_ok rt h').
  { apply system_ok_new_contents with (h := h1); auto.
    - now rewrite Fw.
    - now rewrite Fo. }
  exists h'. split; [reflexivity|].
  destruct (@kv_guarded_stores _ (proj1 (proj2 OK'))) as [Gw' _].
  split; [|split].
  - intros st' default.
    destruct (validated_call AccessOperation.READ
                (fun f => KVStore.in_shared_read_write_store
                            (ProtectedStore.get rt (f :: st') key default)) st' OK')
      as (answer' & h2 & _ & OK2 & Hext2 & E).
    cbv beta in E. unfold KVStore.shared_get. rewrite E.
    destruct (in_shared_read_write_effect
                (ProtectedStore.get rt (kv_frame rt h2 :: st') key default) h2) as (Fr & _).
    rewrite Fr, Hext2. unfold kv_frame. rewrite Hext2.
    rewrite (@get_allowed rt string _ (Frame _ _) st' key default Gw').
    rewrite Fw. cbn. now rewrite lookup_set_same.
  - intros st'.
    destruct (validated_call AccessOperation.READ
                (fun f => KVStore.in_shared_read_write_store
                            (ProtectedStore.__contains__ rt (f :: st') key)) st' OK')
      as (answer' & h2 & _ & OK2 & Hext2 & E).
    cbv beta in E. unfold KVStore.shared_has. rewrite E.
    destruct (in_shared_read_write_effect
                (ProtectedStore.__contains__ rt (kv_frame rt h2 :: st') key) h2) as (Fr & _).
    rewrite Fr, Hext2. unfold kv_frame, ProtectedStore.__contains__. rewrite Hext2.
    rewrite checked_allowed by exact Gw'.
    rewrite Fw. cbn. now rewrite contains_set, String.eqb_refl.
  - split.
    + rewrite Fro. unfold shared_read_only. now rewrite Hext.
    + intros name. rewrite Fc. unfold caller_storage. now rewrite Hext.
Qed.
End SharedCalls.

Section AdminCalls.
Variable rt : Runtime.

Import CredentialManager.

Lemma after_use_system_ok (h : KVStore.Heap) (c : Credentials.t) :
  system_ok rt h -> system_ok rt (after_use rt c h).
Proof.
  intros OK. apply system_ok_transfer with (h1 := h).
  - exact OK.
  - apply manager_ok_after_use, OK.
  - reflexivity.
  - apply same_stores_refl.
Qed.

(** [_is_admin_user], called by a method of the store: one more frame of
    [KVStore.py] lies between the resolver and the caller, which changes
    nothing; a successful look-up counts as a use of the credential. *)
Lemma is_admin_user_spec (h : KVStore.Heap) (st : list frame) :
  system_ok rt h ->
  KVStore._is_admin_user rt (kv_frame rt h :: st) h =
    match kv_validated_caller rt h st with
    | Raise _ => (Return false, h)
    | Return pathinfo =>
        match Dict.lookup (PathInfo.name pathinfo) (table h) with
        | Some c =>
            if table_permits (Credentials.access_level c) AccessOperation.WRITE
            then (Return (AccessLevel.eqb (Credentials.access_level c) AccessLevel.ADMIN),
                  after_use rt c h)
            else (Return false, h)
        | None => (Return false, h)
        end
    end.
Proof.
  intros (M & _ & _).
  unfold KVStore._is_admin_user, bind, try_except, KVStore.own, gets. cbv beta iota.
  fold (kv_frame rt h). rewrite getCredential_spec by exact M.
  assert (R : resolved_caller rt h (kv_frame rt h :: kv_frame rt h :: st)
              = kv_validated_caller rt h st).
  { unfold kv_validated_caller, resolved_caller.
    rewrite !getPathInfo_scan. simpl.
    destruct (PathResolver.sort_by_depth_reverse _); [|reflexivity].
    now destruct (PathResolver.sort_by_depth_reverse _). }
  rewrite R. unfold kv_validated_caller in *.
  destruct (resolved_caller rt h (kv_frame rt h :: st)) as [pathinfo|e] eqn:R'.
  - cbv zeta. destruct (Dict.lookup _ (table h)) as [c|]; [|reflexivity].
    destruct (table_permits _ _); reflexivity.
  - unfold resolved_caller in R'. now rewrite (getPathInfo_raises _ _ _ R').
Qed.

Lemma admin_after_use (h : KVStore.Heap) (st : list frame) (pathinfo : PathInfo.t)
    (c : Credentials.t) :
  system_ok rt h ->
  kv_validated_caller rt h st = Return pathinfo ->
  Dict.lookup (PathInfo.name pathinfo) (table h) = Some c ->
  kv_validated_caller rt (after_use rt c h) st = Return pathinfo /\
  Dict.lookup (PathInfo.name pathinfo) (table (after_use rt c h))
    = Some (used c (stored_time rt h)).
Proof.
  intros (M & _ & _) R L. split; [exact R|].
  apply andb_true_iff in M. destruct M as [_ T].
  rewrite <- (@table_ok_lookup _ _ _ T L). apply after_use_frame.
Qed.

(** The head of the three writing methods of the shared read-only store:
    [validate(WRITE)], then the admin test. *)
Lemma admin_call (A : Type) (e : exn) (body : frame -> M KVStore.Heap A)
    (h : KVStore.Heap) (st : list frame) :
  system_ok rt h ->
  exists h2,
    system_ok rt h2 /\
    external h2 = external h /\
    (f <- KVStore.own rt ;;
     validate rt (f :: st) AccessOperation.WRITE ;;;
     admin <- KVStore._is_admin_user rt (f :: st) ;;
     if negb admin then raise e else body f)%py h
      = (if is_admin_caller rt h st then body (kv_frame rt h2) h2 else (Raise e, h2)) /\
    (forall pathinfo c,
       kv_validated_caller rt h st = Return pathinfo ->
       Dict.lookup (PathInfo.name pathinfo) (table h) = Some c ->
       Credentials.access_level c = AccessLevel.ADMIN ->
       h2 = after_use rt (used c (stored_time rt h)) (after_use rt c h)).
Proof.
  intros OK. pose proof OK as (M & _ & _).
  unfold bind at 1 2. unfold KVStore.own at 1, gets. cbv beta iota.
  fold (kv_frame rt h). rewrite validate_spec by exact M.
  fold (kv_validated_caller rt h st). unfold is_admin_caller.
  pose proof (is_admin_user_spec st OK) as Ad.
  destruct (kv_validated_caller rt h st) as [pathinfo|e0] eqn:R.
  - destruct (Dict.lookup (PathInfo.name pathinfo) (table h)) as [c|] eqn:L.
    + destruct (table_permits (Credentials.access_level c) AccessOperation.WRITE) eqn:P.
      * pose proof (after_use_system_ok c OK) as OK1.
        destruct (admin_after_use st OK R L) as [R1 L1].
        pose proof (is_admin_user_spec st OK1) as Ad1.
        rewrite R1, L1 in Ad1. cbn [used Credentials.access_level] in Ad1.
        rewrite P in Ad1.
        exists (after_use rt (used c (stored_time rt h)) (after_use rt c h)).
        split; [now apply after_use_system_ok|]. split; [reflexivity|]. split.
        -- unfold bind.
           change (kv_frame rt h) with (kv_frame rt (after_use rt c h)) at 1.
           rewrite Ad1.
           now destruct (AccessLevel.eqb (Credentials.access_level c) AccessLevel.ADMIN).
        -- intros pathinfo' c' [= <-] L' _. rewrite L in L'. now injection L' as <-.
      * exists h. split; [exact OK|]. split; [reflexivity|]. split.
        -- unfold bind. rewrite Ad.
           destruct (Credentials.access_level c); try reflexivity; discriminate.
        -- intros pathinfo' c' [= <-] L' Lv. rewrite L in L'. injection L' as <-.
           rewrite Lv in P. discriminate.
    + exists h. split; [exact OK|]. split; [reflexivity|]. split.
      * unfold bind. now rewrite Ad.
      * intros pathinfo' c' [= <-] L'. congruence.
  - exists h. split; [exact OK|]. split; [reflexivity|]. split.
    + unfold bind. now rewrite Ad.
    + intros pathinfo' c' [=].
Qed.

(** X27.  The shared read-only store is written by administrators only:
    unless the manager holds an [ADMIN] row for the caller, [readonly_set],
    [readonly_delete] and [readonly_clear] raise [PermissionError], each
    with its own message, and the contents of the store stay as they
    were. *)
Theorem readonly_writes_need_admin (h : KVStore.Heap) (st : list frame)
    (key value : string) :
  system_ok rt h ->
  is_admin_caller rt h st = false ->
  (result_of (KVStore.readonly_set rt st key value h)
     = Raise (PermissionError
                "Admin access required for write operations on read-only storage") /\
   shared_read_only (state_of (KVStore.readonly_set rt st key value h))
     = shared_read_only h) /\
  (result_of (KVStore.readonly_delete rt st key h)
     = Raise (PermissionError
                "Admin access required for delete operations on read-only storage") /\
   shared_read_only (state_of (KVStore.readonly_delete rt st key h))
     = shared_read_only h) /\
  (result_of (KVStore.readonly_clear rt st h)
     = Raise (PermissionError
                "Admin access required for clear operations on read-only storage") /\
   shared_read_only (state_of (KVStore.readonly_clear rt st h))
     = shared_read_only h).
Proof.
  intros OK NA. split; [|split].
  - destruct (admin_call
                (PermissionError
                   "Admin access required for write operations on read-only storage")
                (fun f => KVStore.in_shared_read_only_store
                            (ProtectedStore.set rt (f :: st) key value)) st OK)
      as (h2 & _ & Hext & E & _).
    cbv beta in E. unfold KVStore.readonly_set. rewrite E, NA.
    unfold result_of, state_of, shared_read_only. cbn [fst snd]. now rewrite Hext.
  - destruct (admin_call
                (PermissionError
                   "Admin access required for delete operations on read-only storage")
                (fun f =>
                   (present <- KVStore.in_shared_read_only_store
                                 (ProtectedStore.__contains__ rt (f :: st) key) ;;
                    if present : bool
                    then KVStore.in_shared_read_only_store
                           (ProtectedStore.__delitem__ rt (f :: st) key)
                    else ret tt)%py) st OK)
      as (h2 & _ & Hext & E & _).
    cbv beta in E. unfold KVStore.readonly_delete. rewrite E, NA.
    unfold result_of, state_of, shared_read_only. cbn [fst snd]. now rewrite Hext.
  - destruct (admin_call
                (PermissionError
                   "Admin access required for clear operations on read-only storage")
                (fun f => KVStore.in_shared_read_only_store
                            (ProtectedStore.clear rt (f :: st))) st OK)
      as (h2 & _ & Hext & E & _).
    cbv beta in E. unfold KVStore.readonly_clear. rewrite E, NA.
    unfold result_of, state_of, shared_read_only. cbn [fst snd]. now rewrite Hext.
Qed.

(** What [readonly_set] does for an administrator. *)
Lemma readonly_set_effect (h : KVStore.Heap) (st : list frame) (key value : string) :
  system_ok rt h ->
  is_admin_caller rt h st = true ->
  exists h2 h',
    KVStore.readonly_set rt st key value h = (Return tt, h') /\
    system_ok rt h' /\
    manager h' = manager h2 /\
    shared_read_only h' = Dict.set key value (shared_read_only h) /\
    shared_read_write h' = shared_read_write h /\
    (forall name, caller_storage h' name = caller_storage h name) /\
    (forall pathinfo c,
       kv_validated_caller rt h st = Return pathinfo ->
       Dict.lookup (PathInfo.name pathinfo) (table h) = Some c ->
       Credentials.access_level c = AccessLevel.ADMIN ->
       h2 = after_use rt (used c (stored_time rt h)) (after_use rt c h)).
Proof.
  intros OK Ad.
  destruct (admin_call
              (PermissionError
                 "Admin access required for write operations on read-only storage")
              (fun f => KVStore.in_shared_read_only_store
                          (ProtectedStore.set rt (f :: st) key value)) st OK)
    as (h2 & OK2 & Hext & E & Tab).
  cbv beta in E. unfold KVStore.readonly_set. rewrite E, Ad. clear E.
  destruct (@kv_guarded_stores _ (proj1 (proj2 OK2))) as [_ Go].
  pose proof (in_shared_read_only_effect
                (ProtectedStore.set rt (kv_frame rt h2 :: st) key value) h2) as F.
  cbv zeta in F. rewrite (@set_allowed rt string _ (kv_frame rt h2) st key value Go) in F.
  cbn [fst snd] in F.
  destruct (KVStore.in_shared_read_only_store _ h2) as [o h'].
  unfold result_of, state_of in F. cbn [fst snd] in F.
  destruct F as (-> & Fo & Fm & Frw & Fc & Fs & Fcs & Fw).
  exists h2, h'. split; [reflexivity|]. split.
  { apply (@system_ok_new_contents rt h2 h'); auto.
    - now rewrite Fw.
    - now rewrite Fo. }
  split; [exact Fm|]. split.
  { unfold shared_read_only. rewrite Fo, Hext. reflexivity. }
  split.
  { rewrite Frw. unfold shared_read_write. now rewrite Hext. }
  split; [|exact Tab].
  intros name. rewrite Fc. unfold caller_storage. now rewrite Hext.
Qed.

(** X28.  What an administrator writes to the shared read-only store,
    everybody reads: after a [readonly_set(key, value)] by a caller with an
    [ADMIN] row, [readonly_get(key)] by any caller returns [value] and
    [readonly_has(key)] is [True]; the shared read-write store and the
    private stores are as before. *)
Theorem readonly_set_by_admin_then_get (h : KVStore.Heap) (st : list frame)
    (key value : string) :
  system_ok rt h ->
  is_admin_caller rt h st = true ->
  exists h',
    KVStore.readonly_set rt st key value h = (Return tt, h') /\
    (forall st' default,
       result_of (KVStore.readonly_get rt st' key default h') = Return (Some value)) /\
    (forall st', result_of (KVStore.readonly_has rt st' key h') = Return true) /\
    shared_read_write h' = shared_read_write h /\
    (forall name, caller_storage h' name = caller_storage h name).
Proof.
  intros OK Ad.
  destruct (readonly_set_effect st key value OK Ad)
    as (h2 & h' & E & OK' & _ & Fo & Frw & Fc & _).
  exists h'. split; [exact E|].
  destruct (@kv_guarded_stores _ (proj1 (proj2 OK'))) as [_ Go'].
  split; [|split; [|split; assumption]].
  - intros st' default.
    destruct (validated_call AccessOperation.READ
                (fun f => KVStore.in_shared_read_only_store
                            (ProtectedStore.get rt (f :: st') key default)) st' OK')
      as (answer' & h3 & _ & OK3 & Hext3 & E3).
    cbv beta in E3. unfold KVStore.readonly_get. rewrite E3.
    destruct (in_shared_read_only_effect
                (ProtectedStore.get rt (kv_frame rt h3 :: st') key default) h3) as (Fr & _).
    rewrite Fr, Hext3. unfold kv_frame. rewrite Hext3.
    rewrite (@get_allowed rt string _ (Frame _ _) st' key default Go').
    unfold shared_read_only in Fo. rewrite Fo. cbn. now rewrite lookup_set_same.
  - intros st'.
    destruct (validated_call AccessOperation.READ
                (fun f => KVStore.in_shared_read_only_store
                            (ProtectedStore.__contains__ rt (f :: st') key)) st' OK')
      as (answer' & h3 & _ & OK3 & Hext3 & E3).
    cbv beta in E3. unfold KVStore.readonly_has. rewrite E3.
    destruct (in_shared_read_only_effect
                (ProtectedStore.__contains__ rt (kv_frame rt h3 :: st') key) h3) as (Fr & _).
    rewrite Fr, Hext3. unfold kv_frame, ProtectedStore.__contains__. rewrite Hext3.
    rewrite checked_allowed by exact Go'.
    unfold shared_read_only in Fo. rewrite Fo. cbn.
    now rewrite contains_set, String.eqb_refl.
Qed.

(** X29.  A [readonly_set] by an administrator is counted as two uses of
    the credential: [validate] finds the row and so does [_is_admin_user],
    each through [getCredential]; the row stays under its name, keeps its
    key and level, and its [access_count] is two more than before. *)
Theorem readonly_set_counts_twice (h : KVStore.Heap) (st : list frame)
    (key value : string) (pathinfo : PathInfo.t) (c : Credentials.t) :
  system_ok rt h ->
  kv_validated_caller rt h st = Return pathinfo ->
  Dict.lookup (PathInfo.name pathinfo) (table h) = Some c ->
  Credentials.access_level c = AccessLevel.ADMIN ->
  exists row,
    Dict.lookup (PathInfo.name pathinfo)
      (table (state_of (KVStore.readonly_set rt st key value h))) = Some row /\
    Credentials.access_count row = (Credentials.access_count c + 2)%Z /\
    Credentials.key row = Credentials.key c /\
    Credentials.access_level row = AccessLevel.ADMIN /\
    Credentials.enabled row = true.
Proof.
  intros OK R L Lv.
  assert (Ad : is_admin_caller rt h st = true).
  { unfold is_admin_caller. now rewrite R, L, Lv. }
  destruct (readonly_set_effect st key value OK Ad)
    as (h2 & h' & E & _ & Fm & _ & _ & _ & Tab).
  rewrite E. unfold state_of. cbn [snd]. unfold table. rewrite Fm.
  fold (table h2). rewrite (Tab _ _ R L Lv).
  pose proof OK as (M & _ & _). apply andb_true_iff in M. destruct M as [_ T].
  rewrite <- (@table_ok_lookup _ _ _ T L).
  exists (used (used c (stored_time rt h)) (stored_time rt (after_use rt c h))).
  split.
  - change (Credentials.name c) with (Credentials.name (used c (stored_time rt h))) at 1.
    apply after_use_frame.
  - cbn. repeat split; try assumption. lia.
Qed.
End AdminCalls.

(** ** Examples for the store *)

(** [B], registered as [READ_ONLY], sets [k] in its private store and
    reads it back. *)
Lemma private_set_then_get_example :
  system_ok demo_rt demo_registered /\
  option_map Credentials.access_level (Dict.lookup "B" (table demo_registered))
    = Some AccessLevel.READ_ONLY /\
  exists h',
    KVStore.set demo_rt caller_B "k" "v" demo_registered = (Return tt, h') /\
    result_of (KVStore.get demo_rt caller_B "k" None h') = Return (Some "v") /\
    result_of (KVStore.has demo_rt caller_B "k" h') = Return true.
Proof.
  assert (OK : system_ok demo_rt demo_registered)
    by (split; [reflexivity | split; reflexivity]).
  split; [exact OK|]. split; [vm_compute; reflexivity|].
  assert (R : kv_resolved_caller demo_rt demo_registered caller_B
              = Return {| PathInfo.name := "B";
                          PathInfo.path := ["/"; "core"; "B"; "main.py"];
                          PathInfo.type := "core" |})
    by (vm_compute; reflexivity).
  assert (L : caller_storage demo_registered "B" = Some (demo_store string 8))
    by (vm_compute; reflexivity).
  destruct (@private_set_then_get demo_rt demo_registered caller_B "k" "v" None _ _
              OK R L eq_refl) as (h' & E & G & H & _).
  exists h'. split; [exact E|]. split; [exact G | exact H].
Defined.

(** What [A] sets under [k] does not change what [B] reads under [k]. *)
Lemma private_stores_are_isolated_example :
  exists h',
    KVStore.set demo_rt caller_A "k" "v" demo_registered = (Return tt, h') /\
    result_of (KVStore.get demo_rt caller_B "k" None h')
      = result_of (KVStore.get demo_rt caller_B "k" None demo_registered).
Proof.
  assert (OK : system_ok demo_rt demo_registered)
    by (split; [reflexivity | split; reflexivity]).
  assert (RA : kv_resolved_caller demo_rt demo_registered caller_A
               = Return {| PathInfo.name := "A";
                           PathInfo.path := ["/"; "core"; "A"; "main.py"];
                           PathInfo.type := "core" |})
    by (vm_compute; reflexivity).
  assert (RB : kv_resolved_caller demo_rt demo_registered caller_B
               = Return {| PathInfo.name := "B";
                           PathInfo.path := ["/"; "core"; "B"; "main.py"];
                           PathInfo.type := "core" |})
    by (vm_compute; reflexivity).
  assert (LA : caller_storage demo_registered "A" = Some (demo_store string 7))
    by (vm_compute; reflexivity).
  assert (LB : caller_storage demo_registered "B" = Some (demo_store string 8))
    by (vm_compute; reflexivity).
  apply (@private_stores_are_isolated demo_rt demo_registered caller_A caller_B
           "k" "v" "k" None _ _ _ _ OK RA LA eq_refl RB LB eq_refl).
  cbn. discriminate.
Defined.

(** [C] lies under the root and never registered. *)
Lemma private_namespace_needs_registration_example :
  result_of (KVStore.set demo_rt caller_C "k" "v" demo_registered)
    = Raise (ValueError "No storage found for caller: C") /\
  result_of (KVStore.keys demo_rt caller_C demo_registered)
    = Raise (ValueError "No storage found for caller: C").
Proof.
  assert (OK : system_ok demo_rt demo_registered)
    by (split; [reflexivity | split; reflexivity]).
  assert (R : kv_resolved_caller demo_rt demo_registered caller_C
              = Return {| PathInfo.name := "C";
                          PathInfo.path := ["/"; "core"; "C"; "main.py"];
                          PathInfo.type := "core" |})
    by (vm_compute; reflexivity).
  assert (L : caller_storage demo_registered "C" = None) by (vm_compute; reflexivity).
  destruct (@private_namespace_needs_registration demo_rt demo_registered caller_C
              "k" "v" None _ OK R L) as (H1 & _ & _ & _ & _ & H6 & _).
  split; [exact H1 | exact H6].
Defined.

(** [A] deletes a key that is not in its private store. *)
Lemma private_delete_example :
  exists h',
    KVStore.delete demo_rt caller_A "missing" demo_registered = (Return tt, h') /\
    result_of (KVStore.has demo_rt caller_A "missing" h') = Return false.
Proof.
  assert (OK : system_ok demo_rt demo_registered)
    by (split; [reflexivity | split; reflexivity]).
  assert (R : kv_resolved_caller demo_rt demo_registered caller_A
              = Return {| PathInfo.name := "A";
                          PathInfo.path := ["/"; "core"; "A"; "main.py"];
                          PathInfo.type := "core" |})
    by (vm_compute; reflexivity).
  assert (L : caller_storage demo_registered "A" = Some (demo_store string 7))
    by (vm_compute; reflexivity).
  destruct (@private_delete demo_rt demo_registered caller_A "missing" None _ _
              OK R L eq_refl (NoDup_nil string)) as (h' & E & H & _).
  exists h'. split; [exact E | exact H].
Defined.

(** A caller that the resolver cannot identify sets [x]; [B] reads it. *)
Lemma shared_set_then_get_example :
  kv_validated_caller demo_rt demo_registered stranger
    = Raise (ValueError "Caller name could not be determined.") /\
  exists h',
    KVStore.shared_set demo_rt stranger "x" "1" demo_registered = (Return tt, h') /\
    result_of (KVStore.shared_get demo_rt caller_B "x" None h') = Return (Some "1").
Proof.
  assert (OK : system_ok demo_rt demo_registered)
    by (split; [reflexivity | split; reflexivity]).
  split; [vm_compute; reflexivity|].
  destruct (@shared_set_then_get demo_rt demo_registered stranger "x" "1" OK)
    as (h' & E & G & _).
  exists h'. split; [exact E | apply G].
Defined.

(** [B] holds a [READ_ONLY] row, not an [ADMIN] one. *)
Lemma readonly_writes_need_admin_example :
  is_admin_caller demo_rt demo_admin caller_B = false /\
  result_of (KVStore.readonly_set demo_rt caller_B "x" "1" demo_admin)
    = Raise (PermissionError
               "Admin access required for write operations on read-only storage") /\
  result_of (KVStore.readonly_clear demo_rt caller_B demo_admin)
    = Raise (PermissionError
               "Admin access required for clear operations on read-only storage").
Proof.
  assert (OK : system_ok demo_rt demo_admin)
    by (split; [reflexivity | split; reflexivity]).
  assert (NA : is_admin_caller demo_rt demo_admin caller_B = false)
    by (vm_compute; reflexivity).
  split; [exact NA|].
  destruct (@readonly_writes_need_admin demo_rt demo_admin caller_B "x" "1" OK NA)
    as ((H1 & _) & _ & (H3 & _)).
  split; [exact H1 | exact H3].
Defined.

(** The administrator [A] writes [x]; a caller outside every root reads
    it. *)
Lemma readonly_set_by_admin_then_get_example :
  is_admin_caller demo_rt demo_admin caller_A = true /\
  exists h',
    KVStore.readonly_set demo_rt caller_A "x" "1" demo_admin = (Return tt, h') /\
    result_of (KVStore.readonly_get demo_rt stranger "x" None h') = Return (Some "1").
Proof.
  assert (OK : system_ok demo_rt demo_admin)
    by (split; [reflexivity | split; reflexivity]).
  assert (Ad : is_admin_caller demo_rt demo_admin caller_A = true)
    by (vm_compute; reflexivity).
  split; [exact Ad|].
  destruct (@readonly_set_by_admin_then_get demo_rt demo_admin caller_A "x" "1" OK Ad)
    as (h' & E & G & _).
  exists h'. split; [exact E | apply G].
Defined.

(** The first [readonly_set] of the administrator [A]. *)
Lemma readonly_set_counts_twice_example :
  exists row,
    Dict.lookup "A" (table (state_of (KVStore.readonly_set demo_rt caller_A "x" "1"
                                        demo_admin))) = Some row /\
    Credentials.access_count row = 2%Z.
Proof.
  assert (OK : system_ok demo_rt demo_admin)
    by (split; [reflexivity | split; reflexivity]).
  assert (R : kv_validated_caller demo_rt demo_admin caller_A
              = Return {| PathInfo.name := "A";
                          PathInfo.path := ["/"; "core"; "A"; "main.py"];
                          PathInfo.type := "core" |})
    by (vm_compute; reflexivity).
  assert (L : exists c, Dict.lookup "A" (table demo_admin) = Some c /\
                        Credentials.access_level c = AccessLevel.ADMIN /\
                        Credentials.access_count c = 0%Z)
    by (eexists; split; [vm_compute; reflexivity | split; reflexivity]).
  destruct L as (c & L & Lv & Lc).
  destruct (@readonly_set_counts_twice demo_rt demo_admin caller_A "x" "1" _ c OK R L Lv)
    as (row & H1 & H2 & _).
  exists row. split; [exact H1|]. rewrite H2, Lc. reflexivity.
Defined.
